(** * DoxyPress: document tree, visitor dispatch and the HTML paragraph balancer

    A shallow embedding of the parts of [docparser.h] and
    [htmldocvisitor.cpp] that decide where the HTML backend opens, closes
    and re-opens paragraph markers, how [accept] walks the tree, and how
    a few leaf and composite nodes are rendered.

    Conventions.
    - A [DocNode *] is a [NodeId]; the objects live in a [Store], a total
      map from addresses to node objects.  [m_parent] is [None] for the
      null pointer.
    - C++ [int] values that may go negative ([nodeIndex], [styleMask],
      [depth]) are [Z]; bit operations are [Z.land] / [Z.lor].
    - [QString] is [string]; [QList<DocNode *>] is [list NodeId].
    - The text stream [m_t] is the list of chunks written so far. *)

From Stdlib Require Import ZArith List Bool String Ascii Lia.
Import ListNotations.

Local Open Scope string_scope.
Local Open Scope list_scope.
Local Open Scope Z_scope.

(** ** Node kinds ([DocNode::Kind]) *)

Inductive Kind : Set :=
| Kind_Root | Kind_Word | Kind_WhiteSpace | Kind_Para | Kind_AutoList
| Kind_AutoListItem | Kind_Symbol | Kind_URL | Kind_StyleChange
| Kind_SimpleSect | Kind_Title | Kind_SimpleList | Kind_SimpleListItem
| Kind_Section | Kind_Verbatim | Kind_XRefItem | Kind_HtmlList
| Kind_HtmlListItem | Kind_HtmlDescList | Kind_HtmlDescData
| Kind_HtmlDescTitle | Kind_HtmlTable | Kind_HtmlRow | Kind_HtmlCell
| Kind_HtmlCaption | Kind_LineBreak | Kind_HorRuler | Kind_Anchor
| Kind_IndexEntry | Kind_Internal | Kind_HRef | Kind_Include
| Kind_IncOperator | Kind_HtmlHeader | Kind_Image | Kind_DotFile
| Kind_Link | Kind_Ref | Kind_Formula | Kind_SecRefItem | Kind_SecRefList
| Kind_SimpleSectSep | Kind_LinkedWord | Kind_ParamSect | Kind_ParamList
| Kind_InternalRef | Kind_Copy | Kind_Text | Kind_MscFile
| Kind_HtmlBlockQuote | Kind_ParBlock | Kind_DiaFile.

(** The enumerator values of the header; 50 is unused. *)
Definition Kind_value (k : Kind) : Z :=
  match k with
  | Kind_Root => 0 | Kind_Word => 1 | Kind_WhiteSpace => 2 | Kind_Para => 3
  | Kind_AutoList => 4 | Kind_AutoListItem => 5 | Kind_Symbol => 6
  | Kind_URL => 7 | Kind_StyleChange => 8 | Kind_SimpleSect => 9
  | Kind_Title => 10 | Kind_SimpleList => 11 | Kind_SimpleListItem => 12
  | Kind_Section => 13 | Kind_Verbatim => 14 | Kind_XRefItem => 15
  | Kind_HtmlList => 16 | Kind_HtmlListItem => 17 | Kind_HtmlDescList => 18
  | Kind_HtmlDescData => 19 | Kind_HtmlDescTitle => 20 | Kind_HtmlTable => 21
  | Kind_HtmlRow => 22 | Kind_HtmlCell => 23 | Kind_HtmlCaption => 24
  | Kind_LineBreak => 25 | Kind_HorRuler => 26 | Kind_Anchor => 27
  | Kind_IndexEntry => 28 | Kind_Internal => 29 | Kind_HRef => 30
  | Kind_Include => 31 | Kind_IncOperator => 32 | Kind_HtmlHeader => 33
  | Kind_Image => 34 | Kind_DotFile => 35 | Kind_Link => 36 | Kind_Ref => 37
  | Kind_Formula => 38 | Kind_SecRefItem => 39 | Kind_SecRefList => 40
  | Kind_SimpleSectSep => 41 | Kind_LinkedWord => 42 | Kind_ParamSect => 43
  | Kind_ParamList => 44 | Kind_InternalRef => 45 | Kind_Copy => 46
  | Kind_Text => 47 | Kind_MscFile => 48 | Kind_HtmlBlockQuote => 49
  | Kind_ParBlock => 51 | Kind_DiaFile => 52
  end.

(** [a == b] on two [Kind] values compares the enumerator values. *)
Definition Kind_eqb (a b : Kind) : bool := Kind_value a =? Kind_value b.

(** ** Nested enumerations of the node classes *)

Module DocStyleChange.
Inductive Style : Set :=
| Bold | Italic | Code | Center | Small | Subscript | Superscript
| Preformatted | Span | Div.

(** The enumeration has no initialisers: the values are 0 .. 9. *)
Definition Style_value (s : Style) : Z :=
  match s with
  | Bold => 0 | Italic => 1 | Code => 2 | Center => 3 | Small => 4
  | Subscript => 5 | Superscript => 6 | Preformatted => 7 | Span => 8
  | Div => 9
  end.

Definition Style_eqb (a b : Style) : bool := Style_value a =? Style_value b.
End DocStyleChange.

Module DocVerbatim.
Inductive Type_ : Set :=
| Code | HtmlOnly | ManOnly | LatexOnly | RtfOnly | XmlOnly | Verbatim
| Dot | Msc | DocbookOnly | PlantUML.

Definition Type_value (t : Type_) : Z :=
  match t with
  | Code => 0 | HtmlOnly => 1 | ManOnly => 2 | LatexOnly => 3 | RtfOnly => 4
  | XmlOnly => 5 | Verbatim => 6 | Dot => 7 | Msc => 8 | DocbookOnly => 9
  | PlantUML => 10
  end.

Definition Type_eqb (a b : Type_) : bool := Type_value a =? Type_value b.
End DocVerbatim.

Module DocSimpleSect.
Inductive Type_ : Set :=
| Unknown | See | Return | Author | Authors | Version | Since | Date
| Note | Warning | Copyright | Pre | Post | Invar | Remark | Attention
| User | Rcs.
End DocSimpleSect.

Module DocParamSect.
Inductive Type_ : Set := Unknown | Param | RetVal | Exception | TemplateParam.

Inductive Direction : Set := In | Out | InOut | Unspecified.

(** [In = 1, Out = 2, InOut = 3, Unspecified = 0]. *)
Definition Direction_value (d : Direction) : Z :=
  match d with In => 1 | Out => 2 | InOut => 3 | Unspecified => 0 end.

Definition Direction_eqb (a b : Direction) : bool :=
  Direction_value a =? Direction_value b.
End DocParamSect.

(** ** Node objects *)

Definition NodeId := nat.

(** Classes whose [accept] is [v->visit(this)].  Only the members read by
    the functions modelled below are kept as fields. *)
Inductive LeafClass : Set :=
| DocWord (m_word : string)
| DocLinkedWord (m_word : string)
| DocURL (m_url : string) (m_isEmail : bool)
| DocLineBreak
| DocHorRuler
| DocAnchor
| DocCite
| DocStyleChange (m_position : Z) (m_style : DocStyleChange.Style)
                 (m_enable : bool)
| DocSymbol
| DocWhiteSpace (m_chars : string)
| DocVerbatim (m_text : string) (m_type : DocVerbatim.Type_)
              (m_isBlock : bool)
| DocInclude
| DocIncOperator
| DocFormula (m_id : Z) (m_text : string)
| DocIndexEntry
| DocSimpleSectSep.

(** Classes deriving from [CompAccept<T>]. *)
Inductive CompClass : Set :=
| DocAutoList (m_indent : Z) (m_isEnumList : bool) (m_depth : Z)
| DocAutoListItem
| DocTitle
| DocXRefItem
| DocImage
| DocDotFile
| DocMscFile
| DocDiaFile
| DocLink
| DocRef
| DocInternalRef
| DocHRef
| DocHtmlHeader
| DocHtmlDescTitle
| DocHtmlDescList
| DocSection
| DocSecRefItem
| DocSecRefList
| DocInternal
| DocParBlock
| DocSimpleList
| DocHtmlList
| DocSimpleSect (m_type : DocSimpleSect.Type_)
| DocParamSect (m_type : DocParamSect.Type_)
               (m_hasInOutSpecifier m_hasTypeSpecifier : bool)
| DocPara
| DocHtmlListItem
| DocHtmlDescData
| DocHtmlCell
| DocHtmlCaption
| DocHtmlRow
| DocHtmlTable
| DocHtmlBlockQuote
| DocText
| DocRoot (m_indent m_singleLine : bool).

(** The dynamic class of a node together with its own members.
    [DocCopy], [DocParamList] and [DocSimpleListItem] derive from
    [DocNode] only and have an [accept] of their own.  [m_paragraphs] of
    a [DocParamList] is a [QList<DocPara>] of objects held by value; the
    model keeps the addresses under which the visitor sees them. *)
Inductive NodeBody : Set :=
| Leaf (c : LeafClass)
| CompAccept (c : CompClass) (m_children : list NodeId)
| DocCopy
| DocParamList (m_type : DocParamSect.Type_) (m_dir : DocParamSect.Direction)
               (m_paragraphs m_params m_paramTypes : list NodeId)
| DocSimpleListItem (m_paragraph : NodeId).

Record DocNode : Set := mkDocNode {
  m_parent : option NodeId;
  m_insidePre : bool;
  body : NodeBody
}.

(** The objects of one documentation tree, by address. *)
Definition Store := NodeId -> DocNode.

Definition LeafClass_kind (c : LeafClass) : Kind :=
  match c with
  | DocWord _ => Kind_Word
  | DocLinkedWord _ => Kind_LinkedWord
  | DocURL _ _ => Kind_URL
  | DocLineBreak => Kind_LineBreak
  | DocHorRuler => Kind_HorRuler
  | DocAnchor => Kind_Anchor
  | DocCite => Kind_Ref
  | DocStyleChange _ _ _ => Kind_StyleChange
  | DocSymbol => Kind_Symbol
  | DocWhiteSpace _ => Kind_WhiteSpace
  | DocVerbatim _ _ _ => Kind_Verbatim
  | DocInclude => Kind_Include
  | DocIncOperator => Kind_IncOperator
  | DocFormula _ _ => Kind_Formula
  | DocIndexEntry => Kind_IndexEntry
  | DocSimpleSectSep => Kind_SimpleSectSep
  end.

Definition CompClass_kind (c : CompClass) : Kind :=
  match c with
  | DocAutoList _ _ _ => Kind_AutoList
  | DocAutoListItem => Kind_AutoListItem
  | DocTitle => Kind_Title
  | DocXRefItem => Kind_XRefItem
  | DocImage => Kind_Image
  | DocDotFile => Kind_DotFile
  | DocMscFile => Kind_MscFile
  | DocDiaFile => Kind_DiaFile
  | DocLink => Kind_Link
  | DocRef => Kind_Ref
  | DocInternalRef => Kind_InternalRef
  | DocHRef => Kind_HRef
  | DocHtmlHeader => Kind_HtmlHeader
  | DocHtmlDescTitle => Kind_HtmlDescTitle
  | DocHtmlDescList => Kind_HtmlDescList
  | DocSection => Kind_Section
  | DocSecRefItem => Kind_SecRefItem
  | DocSecRefList => Kind_SecRefList
  | DocInternal => Kind_Internal
  | DocParBlock => Kind_ParBlock
  | DocSimpleList => Kind_SimpleList
  | DocHtmlList => Kind_HtmlList
  | DocSimpleSect _ => Kind_SimpleSect
  | DocParamSect _ _ _ => Kind_ParamSect
  | DocPara => Kind_Para
  | DocHtmlListItem => Kind_HtmlListItem
  | DocHtmlDescData => Kind_HtmlDescData
  | DocHtmlCell => Kind_HtmlCell
  | DocHtmlCaption => Kind_HtmlCaption
  | DocHtmlRow => Kind_HtmlRow
  | DocHtmlTable => Kind_HtmlTable
  | DocHtmlBlockQuote => Kind_HtmlBlockQuote
  | DocText => Kind_Text
  | DocRoot _ _ => Kind_Root
  end.

(** The virtual [kind()]. *)
Definition kind (n : DocNode) : Kind :=
  match body n with
  | Leaf c => LeafClass_kind c
  | CompAccept c _ => CompClass_kind c
  | DocCopy => Kind_Copy
  | DocParamList _ _ _ _ _ => Kind_ParamList
  | DocSimpleListItem _ => Kind_SimpleListItem
  end.

(** [children()] of a [CompAccept] object; the other classes have none. *)
Definition children (n : DocNode) : list NodeId :=
  match body n with
  | CompAccept _ cs => cs
  | _ => []
  end.

(** [DocNode::isPreformatted]. *)
Definition isPreformatted (n : DocNode) : bool := m_insidePre n.

(** ** [DocFormula::isInline]

    [m_text.length() > 0 ? m_text.at(0) != '\\' : true] *)
Definition backslash : ascii := "\"%char.

Definition isInline (m_text : string) : bool :=
  match m_text with
  | EmptyString => true
  | String c _ => negb (Ascii.eqb c backslash)
  end.

(** ** [mustBeOutsideParagraph] *)

Definition mustBeOutsideParagraph (n : DocNode) : bool :=
  match kind n with
  (* <ul> *)
  | Kind_HtmlList | Kind_SimpleList | Kind_AutoList
  (* <dl> *)
  | Kind_SimpleSect | Kind_ParamSect | Kind_HtmlDescList | Kind_XRefItem
  (* <table> *)
  | Kind_HtmlTable
  (* <h?> *)
  | Kind_Section | Kind_HtmlHeader
  (* \internal *)
  | Kind_Internal
  (* <div> *)
  | Kind_Include | Kind_Image | Kind_SecRefList
  (* <hr> *)
  | Kind_HorRuler
  | Kind_Copy
  (* <blockquote> *)
  | Kind_HtmlBlockQuote
  (* \parblock *)
  | Kind_ParBlock => true
  | Kind_Verbatim =>
      match body n with
      | Leaf (DocVerbatim _ ty blk) =>
          negb (DocVerbatim.Type_eqb ty DocVerbatim.HtmlOnly) || blk
      | _ => false (* no other class has Kind_Verbatim *)
      end
  | Kind_StyleChange =>
      match body n with
      | Leaf (DocStyleChange _ st _) =>
          DocStyleChange.Style_eqb st DocStyleChange.Preformatted
          || DocStyleChange.Style_eqb st DocStyleChange.Div
          || DocStyleChange.Style_eqb st DocStyleChange.Center
      | _ => false (* no other class has Kind_StyleChange *)
      end
  | Kind_Formula =>
      match body n with
      | Leaf (DocFormula _ txt) => negb (isInline txt)
      | _ => false (* no other class has Kind_Formula *)
      end
  | _ => false
  end.

(** ** The HTML visitor state

    [m_t] is the output stream, [m_hide] the flag that silences the
    visitor.  A chunk is one [operator<<] on the stream; the text that
    [filter] and [startLink] write depends on the translator and on the
    link resolver, so it is kept as a chunk of its own kind. *)

Inductive Chunk : Set :=
| Str (s : string)          (* m_t << "..." *)
| Endl                      (* m_t << endl *)
| Filter (str : string)     (* the characters written by filter(str) *)
| StartLink (w : NodeId).   (* the anchor written by startLink for word w *)

Record HtmlDocVisitor : Set := mkHtmlDocVisitor {
  m_t : list Chunk;
  m_hide : bool
}.

Definition put (v : HtmlDocVisitor) (c : Chunk) : HtmlDocVisitor :=
  mkHtmlDocVisitor (m_t v ++ [c]) (m_hide v).

Notation "v << s" := (put v (Str s)) (at level 50, left associativity).

(** String pieces that cannot be written inside a literal. *)
Definition dquote : string := String (ascii_of_nat 34) EmptyString.
Definition nl : string := String (ascii_of_nat 10) EmptyString.

(** [ class="name"], the attribute text of the literals below. *)
Definition class_attr (name : string) : string :=
  (" class=" ++ dquote ++ name ++ dquote)%string.

(** ** [QList] operations used on child lists *)

Definition count (cs : list NodeId) : Z := Z.of_nat (List.length cs).

(** [at(i)]; the callers keep [i] inside [0 .. count-1]. *)
Definition at_ (cs : list NodeId) (i : Z) : option NodeId :=
  if i <? 0 then None else nth_error cs (Z.to_nat i).

(** [indexOf(n)]: the first position holding [n], or -1. *)
Fixpoint indexOf_from (cs : list NodeId) (n : NodeId) (i : Z) : Z :=
  match cs with
  | [] => -1
  | c :: rest => if Nat.eqb c n then i else indexOf_from rest n (i + 1)
  end.

Definition indexOf (cs : list NodeId) (n : NodeId) : Z := indexOf_from cs n 0.

Section Balancer.

Variable tree : Store.

Definition kindOf (n : NodeId) : Kind := kind (tree n).

(** [cs.at(i)->kind() == k] *)
Definition kindAtIs (cs : list NodeId) (i : Z) (k : Kind) : bool :=
  match at_ cs i with
  | Some n => Kind_eqb (kindOf n) k
  | None => false
  end.

(** [mustBeOutsideParagraph(cs.at(i))] *)
Definition mustBeOutsideAt (cs : list NodeId) (i : Z) : bool :=
  match at_ cs i with
  | Some n => mustBeOutsideParagraph (tree n)
  | None => false
  end.

(** *** [insideStyleChange_OutsidePara]

    One run of the loop body on [n = para->children().at(nodeIndex)]:
    the new [styleMask] and [styleOutsideParagraph]. *)
Definition styleStep (n : DocNode) (styleMask : Z) : Z * bool :=
  match kind n, body n with
  | Kind_StyleChange, Leaf (DocStyleChange _ style enable) =>
      let styleMask :=
        if negb enable
        then Z.lor styleMask (DocStyleChange.Style_value style)
        else styleMask in
      let paraStyle :=
        DocStyleChange.Style_eqb style DocStyleChange.Center
        || DocStyleChange.Style_eqb style DocStyleChange.Div
        || DocStyleChange.Style_eqb style DocStyleChange.Preformatted in
      (styleMask,
       enable
       && (Z.land styleMask (DocStyleChange.Style_value style) =? 0)
       && paraStyle)
  | _, _ => (styleMask, false)
  end.

(** [while (nodeIndex >= 0 && !styleOutsideParagraph) { ...; nodeIndex--; }]
    The loop runs at most [nodeIndex + 1] times, which is the fuel the
    caller passes. *)
Fixpoint insideStyleChange_loop (cs : list NodeId) (fuel : nat)
         (nodeIndex styleMask : Z) (styleOutsideParagraph : bool) : bool :=
  match fuel with
  | O => styleOutsideParagraph
  | S fuel' =>
      if (0 <=? nodeIndex) && negb styleOutsideParagraph then
        match at_ cs nodeIndex with
        | Some n =>
            let '(styleMask', found) := styleStep (tree n) styleMask in
            insideStyleChange_loop cs fuel' (nodeIndex - 1) styleMask' found
        | None => styleOutsideParagraph
        end
      else styleOutsideParagraph
  end.

Definition insideStyleChange_OutsidePara (para : NodeId) (nodeIndex : Z)
  : bool :=
  insideStyleChange_loop (children (tree para))
                         (Z.to_nat (nodeIndex + 1)) nodeIndex 0 false.

(** *** First / last child tests *)

(** [parent->children().first() == node] (false on an empty list, where
    [first()] has no value). *)
Definition isFirstChildNode (parent node : NodeId) : bool :=
  match children (tree parent) with
  | [] => false
  | c :: _ => Nat.eqb c node
  end.

(** [parent->children().last() == node] *)
Definition isLastChildNode (parent node : NodeId) : bool :=
  match children (tree parent) with
  | [] => false
  | c :: rest => Nat.eqb (last rest c) node
  end.

Definition isSeparatedParagraph (parent par : NodeId) : bool :=
  let nodes := children (tree parent) in
  let i := indexOf nodes par in
  if i =? -1 then false
  else
    let count := count nodes in
    if (1 <? count) && (i =? 0) then           (* first node *)
      kindAtIs nodes (i + 1) Kind_SimpleSectSep
    else if (1 <? count) && (i =? count - 1) then (* last node *)
      kindAtIs nodes (i - 1) Kind_SimpleSectSep
    else if (2 <? count) && (0 <? i) && (i <? count - 1) then
      (* intermediate node *)
      kindAtIs nodes (i - 1) Kind_SimpleSectSep
      && kindAtIs nodes (i + 1) Kind_SimpleSectSep
    else false.

(** *** [getParagraphContext]

    The result is [(t, isFirst, isLast)]. *)

(** The first / last pair picks the context code: the [isLast] branch
    is tested second and overrides the [isFirst] one. *)
Definition pickContext (isFirst isLast : bool) (whenFirst whenLast t0 : Z)
  : Z :=
  let t := if isFirst then whenFirst else t0 in
  if isLast then whenLast else t.

Definition getParagraphContext (p : NodeId) : Z * bool * bool :=
  match m_parent (tree p) with
  | None => (0, false, false)
  | Some parent =>
      match kindOf parent with
      | Kind_ParBlock =>
          (* hierarchy: node N -> para -> parblock -> para *)
          let kind :=
            match m_parent (tree parent) with
            | Some pp =>
                match m_parent (tree pp) with
                | Some ppp => kindOf ppp
                | None => Kind_Para
                end
            | None => Kind_Para
            end in
          let isFirst := isFirstChildNode parent p in
          let isLast := isLastChildNode parent p in
          let t := 0 in
          let t :=
            if isFirst then
              if Kind_eqb kind Kind_HtmlListItem
                 || Kind_eqb kind Kind_SecRefItem then 1
              else if Kind_eqb kind Kind_HtmlDescData
                      || Kind_eqb kind Kind_XRefItem
                      || Kind_eqb kind Kind_SimpleSect then 2
              else if Kind_eqb kind Kind_HtmlCell
                      || Kind_eqb kind Kind_ParamList then 5
              else t
            else t in
          let t :=
            if isLast then
              if Kind_eqb kind Kind_HtmlListItem
                 || Kind_eqb kind Kind_SecRefItem then 3
              else if Kind_eqb kind Kind_HtmlDescData
                      || Kind_eqb kind Kind_XRefItem
                      || Kind_eqb kind Kind_SimpleSect then 4
              else if Kind_eqb kind Kind_HtmlCell
                      || Kind_eqb kind Kind_ParamList then 6
              else t
            else t in
          (t, isFirst, isLast)
      | Kind_AutoListItem =>
          (1, isFirstChildNode parent p, isLastChildNode parent p)
      | Kind_SimpleListItem => (1, true, true)
      | Kind_ParamList => (1, true, true)
      | Kind_HtmlListItem | Kind_SecRefItem =>
          let isFirst := isFirstChildNode parent p in
          let isLast := isLastChildNode parent p in
          (pickContext isFirst isLast 1 3 0, isFirst, isLast)
      | Kind_HtmlDescData | Kind_XRefItem =>
          let isFirst := isFirstChildNode parent p in
          let isLast := isLastChildNode parent p in
          (pickContext isFirst isLast 2 4 0, isFirst, isLast)
      | Kind_SimpleSect =>
          let isFirst := isFirstChildNode parent p in
          let isLast := isLastChildNode parent p in
          let t := pickContext isFirst isLast 2 4 0 in
          if isSeparatedParagraph parent p
          then (t, true, true)
          else (t, isFirst, isLast)
      | Kind_HtmlCell =>
          let isFirst := isFirstChildNode parent p in
          let isLast := isLastChildNode parent p in
          (pickContext isFirst isLast 5 6 0, isFirst, isLast)
      | _ => (0, false, false)
      end
  end.

(** *** Skipping whitespace siblings *)

(** [while (nodeIndex >= 0 && at(nodeIndex)->kind() == Kind_WhiteSpace)
       nodeIndex--;]  run with fuel [nodeIndex + 1]. *)
Fixpoint skipWhiteSpace_back (cs : list NodeId) (fuel : nat) (nodeIndex : Z)
  : Z :=
  match fuel with
  | O => nodeIndex
  | S fuel' =>
      if (0 <=? nodeIndex) && kindAtIs cs nodeIndex Kind_WhiteSpace
      then skipWhiteSpace_back cs fuel' (nodeIndex - 1)
      else nodeIndex
  end.

(** [while (nodeIndex < numNodes && at(nodeIndex)->kind() == Kind_WhiteSpace)
       nodeIndex++;]  run with fuel [numNodes - nodeIndex]. *)
Fixpoint skipWhiteSpace_fwd (cs : list NodeId) (fuel : nat) (nodeIndex : Z)
  : Z :=
  match fuel with
  | O => nodeIndex
  | S fuel' =>
      if (nodeIndex <? count cs) && kindAtIs cs nodeIndex Kind_WhiteSpace
      then skipWhiteSpace_fwd cs fuel' (nodeIndex + 1)
      else nodeIndex
  end.

(** *** [HtmlDocVisitor::forceEndParagraph] *)

Definition forceEndParagraph (v : HtmlDocVisitor) (n : NodeId)
  : HtmlDocVisitor :=
  match m_parent (tree n) with
  | None => v
  | Some para =>
      if Kind_eqb (kindOf para) Kind_Para then
        let cs := children (tree para) in
        let nodeIndex := indexOf cs n in
        let nodeIndex := nodeIndex - 1 in
        if nodeIndex <? 0 then v (* first node *)
        else
          let nodeIndex :=
            skipWhiteSpace_back cs (Z.to_nat (nodeIndex + 1)) nodeIndex in
          if (0 <=? nodeIndex) && mustBeOutsideAt cs nodeIndex then v
          else
            let nodeIndex := nodeIndex - 1 in
            let styleOutsideParagraph :=
              insideStyleChange_OutsidePara para nodeIndex in
            let '(_, isFirst, isLast) := getParagraphContext para in
            if isFirst && isLast then v
            else if styleOutsideParagraph then v
            else v << "</p>"
      else v
  end.

(** *** [HtmlDocVisitor::forceStartParagraph] *)

Definition forceStartParagraph (v : HtmlDocVisitor) (n : NodeId)
  : HtmlDocVisitor :=
  match m_parent (tree n) with
  | None => v
  | Some para =>
      if Kind_eqb (kindOf para) Kind_Para then
        let cs := children (tree para) in
        let nodeIndex := indexOf cs n in
        let numNodes := count cs in
        let styleOutsideParagraph :=
          insideStyleChange_OutsidePara para nodeIndex in
        if styleOutsideParagraph then v
        else
          let nodeIndex := nodeIndex + 1 in
          if nodeIndex =? numNodes then v (* last node *)
          else
            let nodeIndex :=
              skipWhiteSpace_fwd cs (Z.to_nat (numNodes - nodeIndex))
                                 nodeIndex in
            if nodeIndex <? numNodes then
              if mustBeOutsideAt cs nodeIndex then v
              else
                let '(_, isFirst, isLast) := getParagraphContext para in
                if isFirst && isLast then v
                else v << "<p>"
            else v (* only whitespace at the end *)
      else v
  end.

(** *** [HtmlDocVisitor::visitPre] and [visitPost] on a [DocPara] *)

(** [DocRoot::singleLine] on the parent cast to a [DocRoot]. *)
Definition singleLine (n : DocNode) : bool :=
  match body n with
  | CompAccept (DocRoot _ sl) _ => sl
  | _ => false (* only a DocRoot has Kind_Root *)
  end.

(** The [switch] on the parent's kind shared by the two methods. *)
Definition needsTag_of_parent (p : NodeId) : bool :=
  match m_parent (tree p) with
  | None => false
  | Some parent =>
      match kindOf parent with
      | Kind_Section | Kind_Internal | Kind_HtmlListItem
      | Kind_HtmlDescData | Kind_HtmlCell | Kind_SimpleListItem
      | Kind_AutoListItem | Kind_SimpleSect | Kind_XRefItem | Kind_Copy
      | Kind_HtmlBlockQuote | Kind_ParBlock => true
      | Kind_Root => negb (singleLine (tree parent))
      | _ => false
      end
  end.

Definition contexts : list string :=
  [ EmptyString;
    class_attr "startli";
    class_attr "startdd";
    class_attr "endli";
    class_attr "enddd";
    class_attr "starttd";
    class_attr "endtd" ].

Definition visitPre_DocPara (v : HtmlDocVisitor) (p : NodeId)
  : HtmlDocVisitor :=
  if m_hide v then v
  else
    let needsTag := needsTag_of_parent p in
    (* a first element that must be outside the paragraph has already
       started it *)
    let cs := children (tree p) in
    let nodeIndex := 0 in
    let needsTag :=
      if nodeIndex <? count cs then
        let nodeIndex :=
          skipWhiteSpace_fwd cs (Z.to_nat (count cs - nodeIndex)) nodeIndex in
        if (nodeIndex <? count cs) && mustBeOutsideAt cs nodeIndex
        then false else needsTag
      else needsTag in
    let '(t, isFirst, isLast) := getParagraphContext p in
    let needsTag := if isFirst && isLast then false else needsTag in
    if needsTag
    then v << "<p" << nth (Z.to_nat t) contexts EmptyString << ">"
    else v.

Definition visitPost_DocPara (v : HtmlDocVisitor) (p : NodeId)
  : HtmlDocVisitor :=
  let needsTag := needsTag_of_parent p in
  (* a last element that must be outside the paragraph has already
     ended it *)
  let cs := children (tree p) in
  let nodeIndex := count cs - 1 in
  let needsTag :=
    if 0 <=? nodeIndex then
      let nodeIndex :=
        skipWhiteSpace_back cs (Z.to_nat (nodeIndex + 1)) nodeIndex in
      if (0 <=? nodeIndex) && mustBeOutsideAt cs nodeIndex
      then false else needsTag
    else needsTag in
  let '(_, isFirst, isLast) := getParagraphContext p in
  let needsTag := if isFirst && isLast then false else needsTag in
  if needsTag then v << ("</p>" ++ nl)%string else v.

(** *** [HtmlDocVisitor::visitPre] and [visitPost] on a [DocAutoList] *)

Definition NUM_HTML_LIST_TYPES : Z := 4.

(** [static const char types[][NUM_HTML_LIST_TYPES] = {"1", "a", "i", "A"}] *)
Definition types : list string := [ "1"; "a"; "i"; "A" ]%string.

(** [types[i]]: there is no row below 0 or above 3. *)
Definition types_at (i : Z) : option string :=
  if i <? 0 then None else nth_error types (Z.to_nat i).

(** [if (!l->isPreformatted()) m_t << "\n";] *)
Definition newline_unless_pre (v : HtmlDocVisitor) (l : NodeId)
  : HtmlDocVisitor :=
  if negb (isPreformatted (tree l)) then v << nl else v.

(** [None] when [l] is not a [DocAutoList] or [types] is read out of
    range ([int % int] truncates towards zero: [Z.rem]). *)
Definition visitPre_DocAutoList (v : HtmlDocVisitor) (l : NodeId)
  : option HtmlDocVisitor :=
  match body (tree l) with
  | CompAccept (DocAutoList _ isEnumList depth) _ =>
      if m_hide v then Some v
      else
        let v := forceEndParagraph v l in
        if isEnumList then
          match types_at (Z.rem depth NUM_HTML_LIST_TYPES) with
          | Some ty =>
              Some (newline_unless_pre
                      (v << ("<ol type=" ++ dquote)%string << ty
                         << (dquote ++ ">")%string) l)
          | None => None
          end
        else Some (newline_unless_pre (v << "<ul>") l)
  | _ => None
  end.

Definition visitPost_DocAutoList (v : HtmlDocVisitor) (l : NodeId)
  : option HtmlDocVisitor :=
  match body (tree l) with
  | CompAccept (DocAutoList _ isEnumList _) _ =>
      if m_hide v then Some v
      else
        let v := if isEnumList then v << "</ol>" else v << "</ul>" in
        Some (forceStartParagraph (newline_unless_pre v l) l)
  | _ => None
  end.

(** *** Words and [HtmlDocVisitor::visitPre] on a [DocParamList] *)

(** [DocWord::word] / [DocLinkedWord::word]. *)
Definition word (n : DocNode) : string :=
  match body n with
  | Leaf (DocWord w) => w
  | Leaf (DocLinkedWord w) => w
  | _ => EmptyString
  end.

(** [filter(str)]: nothing for an empty string, else the escaped text. *)
Definition filter (v : HtmlDocVisitor) (str : string) : HtmlDocVisitor :=
  match str with
  | EmptyString => v
  | _ => put v (Filter str)
  end.

Definition visit_DocWord (v : HtmlDocVisitor) (w : NodeId) : HtmlDocVisitor :=
  if m_hide v then v else filter v (word (tree w)).

(** [startLink(...); filter(w->word()); endLink();] *)
Definition visit_DocLinkedWord (v : HtmlDocVisitor) (w : NodeId)
  : HtmlDocVisitor :=
  if m_hide v then v
  else filter (put v (StartLink w)) (word (tree w)) << "</a>".

(** The two loops of [visitPre(DocParamList)]: a separator before every
    entry but the first, then the word of the entry if it is a
    [DocWord] or a [DocLinkedWord].  The pair carries [first]. *)
Fixpoint writeWords (sep : string) (ws : list NodeId)
         (st : HtmlDocVisitor * bool) : HtmlDocVisitor * bool :=
  match ws with
  | [] => st
  | w :: rest =>
      let '(v, first) := st in
      let v := if negb first then v << sep else v in
      let first := false in
      let v :=
        if Kind_eqb (kindOf w) Kind_Word then visit_DocWord v w
        else if Kind_eqb (kindOf w) Kind_LinkedWord
             then visit_DocLinkedWord v w
             else v in
      writeWords sep rest (v, first)
  end.

(** [hasInOutSpecifier()] / [hasTypeSpecifier()] of a [DocParamSect]. *)
Definition hasInOutSpecifier (n : DocNode) : bool :=
  match body n with
  | CompAccept (DocParamSect _ io _) _ => io
  | _ => false
  end.

Definition hasTypeSpecifier (n : DocNode) : bool :=
  match body n with
  | CompAccept (DocParamSect _ _ ty) _ => ty
  | _ => false
  end.

Definition td_open (cls : string) : string :=
  ("<td class=" ++ dquote ++ cls ++ dquote ++ ">")%string.

(** The direction cell, written when the section has a direction
    column. *)
Definition writeParamDir (v : HtmlDocVisitor) (dir : DocParamSect.Direction)
  : HtmlDocVisitor :=
  let v := v << td_open "paramdir" in
  let v :=
    if negb (DocParamSect.Direction_eqb dir DocParamSect.Unspecified) then
      let v := v << "[" in
      let v :=
        if DocParamSect.Direction_eqb dir DocParamSect.In then v << "in"
        else if DocParamSect.Direction_eqb dir DocParamSect.Out
             then v << "out"
        else if DocParamSect.Direction_eqb dir DocParamSect.InOut
             then v << "in,out"
        else v in
      v << "]"
    else v in
  v << "</td>".

(** [None] when [pl] is not a [DocParamList] or has no parent (the code
    dereferences [pl->parent()] unconditionally). *)
Definition visitPre_DocParamList (v : HtmlDocVisitor) (pl : NodeId)
  : option HtmlDocVisitor :=
  match body (tree pl) with
  | DocParamList _ dir _ params paramTypes =>
      if m_hide v then Some v
      else
        let v := v << "    <tr>" in
        match m_parent (tree pl) with
        | None => None
        | Some parent =>
            let sect :=
              if Kind_eqb (kindOf parent) Kind_ParamSect
              then Some parent else None in
            let inout :=
              match sect with
              | Some s => hasInOutSpecifier (tree s)
              | None => false
              end in
            let typed :=
              match sect with
              | Some s => hasTypeSpecifier (tree s)
              | None => false
              end in
            let v := if inout then writeParamDir v dir else v in
            let v :=
              if typed then
                let v := v << td_open "paramtype" in
                let v := fst (writeWords "&#160;|&#160;" paramTypes (v, true)) in
                v << "</td>"
              else v in
            let v := v << td_open "paramname" in
            let v := fst (writeWords "," params (v, true)) in
            Some (v << "</td><td>")
        end
  | _ => None
  end.

End Balancer.

(** ** Visitor dispatch ([DocNode::accept])

    A [DocVisitor] has the three entry points; [S] is whatever state the
    backend threads through the traversal. *)

Record DocVisitor (S : Type) : Type := mkDocVisitor {
  visit : NodeId -> S -> S;
  visitPre : NodeId -> S -> S;
  visitPost : NodeId -> S -> S
}.

Arguments visit {S} _ _ _.
Arguments visitPre {S} _ _ _.
Arguments visitPost {S} _ _ _.

Section Accept.

Variable tree : Store.
Context {S : Type} (v : DocVisitor S).

(** [for (auto n : m_children) n->accept(v);] where [rec] is the
    virtual [accept]. *)
Fixpoint acceptEach (rec : NodeId -> S -> option S) (ns : list NodeId)
         (s : S) : option S :=
  match ns with
  | [] => Some s
  | n :: rest =>
      match rec n s with
      | Some s' => acceptEach rec rest s'
      | None => None
      end
  end.

(** [CompAccept<T>::accept(obj, v)] *)
Definition CompAccept_accept (rec : NodeId -> S -> option S)
           (obj : NodeId) (m_children : list NodeId) (s : S) : option S :=
  match acceptEach rec m_children (visitPre v obj s) with
  | Some s' => Some (visitPost v obj s')
  | None => None
  end.

(** Modelled from the spec: [DocSimpleSect::accept] is declared in
    [docparser.h] and defined in a file that is not among the sources.
    The spec's visitor dispatch protocol: a composite node calls
    [visitPre(node)], dispatches [accept] to each child in child-list
    order, then calls [visitPost(node)]. *)
Definition DocSimpleSect_accept (rec : NodeId -> S -> option S)
           (obj : NodeId) (m_children : list NodeId) (s : S) : option S :=
  match acceptEach rec m_children (visitPre v obj s) with
  | Some s' => Some (visitPost v obj s')
  | None => None
  end.

(** Modelled from the spec: [DocHtmlTable::accept] is declared in
    [docparser.h] and defined in a file that is not among the sources.
    The spec's visitor dispatch protocol: a composite node calls
    [visitPre(node)], dispatches [accept] to each child in child-list
    order, then calls [visitPost(node)]. *)
Definition DocHtmlTable_accept (rec : NodeId -> S -> option S)
           (obj : NodeId) (m_children : list NodeId) (s : S) : option S :=
  match acceptEach rec m_children (visitPre v obj s) with
  | Some s' => Some (visitPost v obj s')
  | None => None
  end.

(** The virtual [accept], by dynamic class.  The recursion follows
    child pointers, so it takes fuel: [None] is "out of fuel".
    - leaf classes: [v->visit(this)];
    - [CompAccept] classes: [CompAccept<T>::accept(this, v)];
    - [DocCopy]: the body is commented out, nothing is called;
    - [DocParamList]: [visitPre], [accept] on every element of
      [m_paragraphs], [visitPost];
    - [DocSimpleListItem]: [visitPre], [m_paragraph->accept(v)],
      [visitPost]. *)
Fixpoint accept (fuel : nat) (n : NodeId) (s : S) : option S :=
  match fuel with
  | O => None
  | Datatypes.S fuel' =>
      match body (tree n) with
      | Leaf _ => Some (visit v n s)
      | CompAccept (DocSimpleSect _) m_children =>
          DocSimpleSect_accept (accept fuel') n m_children s
      | CompAccept DocHtmlTable m_children =>
          DocHtmlTable_accept (accept fuel') n m_children s
      | CompAccept _ m_children =>
          CompAccept_accept (accept fuel') n m_children s
      | DocCopy => Some s
      | DocParamList _ _ m_paragraphs _ _ =>
          match acceptEach (accept fuel') m_paragraphs (visitPre v n s) with
          | Some s' => Some (visitPost v n s')
          | None => None
          end
      | DocSimpleListItem m_paragraph =>
          match accept fuel' m_paragraph (visitPre v n s) with
          | Some s' => Some (visitPost v n s')
          | None => None
          end
      end
  end.

End Accept.

(** The visitor that only records which entry point was called on which
    node, in call order. *)
Inductive Call : Set :=
| CallVisit (n : NodeId)
| CallVisitPre (n : NodeId)
| CallVisitPost (n : NodeId).

Definition recorder : DocVisitor (list Call) :=
  mkDocVisitor (list Call)
    (fun n log => log ++ [CallVisit n])
    (fun n log => log ++ [CallVisitPre n])
    (fun n log => log ++ [CallVisitPost n]).

(** The nodes a composite object hands the visitor to: the child list of
    a [CompAccept], the paragraphs of a [DocParamList], the one paragraph
    of a [DocSimpleListItem]. *)
Definition childList (n : DocNode) : list NodeId :=
  match body n with
  | Leaf _ => []
  | CompAccept _ m_children => m_children
  | DocCopy => []
  | DocParamList _ _ m_paragraphs _ _ => m_paragraphs
  | DocSimpleListItem m_paragraph => [m_paragraph]
  end.

Definition isLeaf (n : DocNode) : bool :=
  match body n with Leaf _ => true | _ => false end.

Definition isComposite (n : DocNode) : bool :=
  match body n with
  | CompAccept _ _ | DocParamList _ _ _ _ _ | DocSimpleListItem _ => true
  | _ => false
  end.

(** [depth_le tree n k]: every chain of child links below [n] has fewer
    than [k] nodes, so the tree under [n] is finite. *)
Inductive depth_le (tree : Store) : NodeId -> nat -> Prop :=
| depth_le_node n k :
    (forall c, List.In c (childList (tree n)) -> depth_le tree c k) ->
    depth_le tree n (Datatypes.S k).

(** ** Concrete trees for the examples *)

Definition nullNode : DocNode := mkDocNode None false DocCopy.

(** A store from a finite table of objects. *)
Fixpoint store_of (objs : list (NodeId * DocNode)) : Store :=
  fun a =>
    match objs with
    | [] => nullNode
    | (b, o) :: rest => if Nat.eqb a b then o else store_of rest a
    end.

Definition leaf (parent : NodeId) (c : LeafClass) : DocNode :=
  mkDocNode (Some parent) false (Leaf c).

Definition comp (parent : option NodeId) (c : CompClass) (cs : list NodeId)
  : DocNode :=
  mkDocNode parent false (CompAccept c cs).

Definition visitor0 : HtmlDocVisitor := mkHtmlDocVisitor [] false.

(** * The specification's wording and example trees

    Definitions that follow the words of the specification, to be compared
    with the functions above, and the concrete trees of the examples. *)

(** ** The must-be-outside-paragraph table *)

(** Kinds the table lists without a condition. *)
Definition outside_kinds : list Kind :=
  [ Kind_HtmlList; Kind_SimpleList; Kind_AutoList;
    Kind_SimpleSect; Kind_ParamSect; Kind_HtmlDescList; Kind_XRefItem;
    Kind_HtmlTable; Kind_Section; Kind_HtmlHeader; Kind_Internal;
    Kind_Include; Kind_Image; Kind_SecRefList; Kind_HorRuler; Kind_Copy;
    Kind_HtmlBlockQuote; Kind_ParBlock ].

(** The diagram file references: dot, msc and dia files. *)
Definition dot_like_kinds : list Kind :=
  [ Kind_DotFile; Kind_MscFile; Kind_DiaFile ].

(** A verbatim node that is an inline HTML-only fragment. *)
Definition isInlineHtmlOnly (n : DocNode) : bool :=
  match body n with
  | Leaf (DocVerbatim _ ty blk) =>
      DocVerbatim.Type_eqb ty DocVerbatim.HtmlOnly && negb blk
  | _ => false
  end.

Definition hasOutsideStyle (n : DocNode) : bool :=
  match body n with
  | Leaf (DocStyleChange _ st _) =>
      match st with
      | DocStyleChange.Preformatted | DocStyleChange.Div
      | DocStyleChange.Center => true
      | _ => false
      end
  | _ => false
  end.

Definition isDisplayFormula (n : DocNode) : bool :=
  match body n with
  | Leaf (DocFormula _ txt) => negb (isInline txt)
  | _ => false
  end.

(** The table as the specification words it, over a list of the kinds
    that always qualify: those kinds; verbatim unless an inline HTML-only
    fragment; style changes for Preformatted, Div and Center; formulas
    that are not inline; nothing else. *)
Definition outsideTable (always : list Kind) (n : DocNode) : bool :=
  existsb (Kind_eqb (kind n)) always
  || (Kind_eqb (kind n) Kind_Verbatim && negb (isInlineHtmlOnly n))
  || (Kind_eqb (kind n) Kind_StyleChange && hasOutsideStyle n)
  || (Kind_eqb (kind n) Kind_Formula && isDisplayFormula n).

(** The table with the diagram file references among the kinds that
    always qualify. *)
Definition outsideTable_with_diagrams : DocNode -> bool :=
  outsideTable (outside_kinds ++ dot_like_kinds).

(** ** Formula delimiters *)

Definition dollar : ascii := "$"%char.

Fixpoint endsWithDollar (s : string) : bool :=
  match s with
  | EmptyString => false
  | String c EmptyString => Ascii.eqb c dollar
  | String _ rest => endsWithDollar rest
  end.

(** Raw text wrapped in single-dollar delimiters: it starts with a dollar
    sign, ends with one, and has something that is not a dollar sign right
    after the opening one. *)
Definition wrappedInSingleDollar (s : string) : bool :=
  match s with
  | String c (String d rest) =>
      Ascii.eqb c dollar && negb (Ascii.eqb d dollar)
      && endsWithDollar (String d rest)
  | _ => false
  end.

(** ** Siblings inside a paragraph *)

(** Whitespace siblings, and the nearest sibling that is not one. *)
Definition isWhiteSpace (tree : Store) (n : NodeId) : bool :=
  Kind_eqb (kindOf tree n) Kind_WhiteSpace.

Definition firstVisible (tree : Store) (cs : list NodeId) : option NodeId :=
  find (fun c => negb (isWhiteSpace tree c)) cs.

Definition lastVisible (tree : Store) (cs : list NodeId) : option NodeId :=
  firstVisible tree (rev cs).

(** Whether the node found (if any) must be outside a paragraph. *)
Definition isOutside (tree : Store) (o : option NodeId) : bool :=
  match o with
  | Some n => mustBeOutsideParagraph (tree n)
  | None => false
  end.

(** Number of paragraph close markers in a piece of output. *)
Definition isCloseMarker (c : Chunk) : bool :=
  match c with
  | Str s => String.eqb s "</p>"
  | _ => false
  end.

Definition closeMarkers (out : list Chunk) : nat :=
  List.length (List.filter isCloseMarker out).

(** The must-be-outside nodes among some siblings, as a filter. *)
Definition outsideNodes (tree : Store) (ns : list NodeId) : list NodeId :=
  List.filter (fun c => mustBeOutsideParagraph (tree c)) ns.

(** A paragraph that is the body of a simple list item: a word, a rule,
    whitespace and a second rule. *)
Definition tree_list_item : Store :=
  store_of
    [ (0, comp None (DocRoot false false) [1]);
      (1, comp (Some 0) DocPara [2]);
      (2, comp (Some 1) DocSimpleList [3]);
      (3, mkDocNode (Some 2) false (DocSimpleListItem 4));
      (4, comp (Some 3) DocPara [10; 11; 12; 13]);
      (10, leaf 4 (DocWord "see"));
      (11, leaf 4 DocHorRuler);
      (12, leaf 4 (DocWhiteSpace " "));
      (13, leaf 4 DocHorRuler) ]%nat.

(** A paragraph under the root that opens with two rules. *)
Definition tree_rules_first : Store :=
  store_of
    [ (0, comp None (DocRoot false false) [1]);
      (1, comp (Some 0) DocPara [10; 11; 12; 13]);
      (10, leaf 1 DocHorRuler);
      (11, leaf 1 (DocWhiteSpace " "));
      (12, leaf 1 DocHorRuler);
      (13, leaf 1 (DocWord "end")) ]%nat.

(** A paragraph under the root that opens with whitespace and a rule. *)
Definition tree_space_rule : Store :=
  store_of
    [ (0, comp None (DocRoot false false) [1]);
      (1, comp (Some 0) DocPara [10; 11; 12]);
      (10, leaf 1 (DocWhiteSpace " "));
      (11, leaf 1 DocHorRuler);
      (12, leaf 1 (DocWord "end")) ]%nat.

(** A paragraph under the root with two rules between words. *)
Definition tree_rules_middle : Store :=
  store_of
    [ (0, comp None (DocRoot false false) [1]);
      (1, comp (Some 0) DocPara [10; 11; 12; 13; 14; 15]);
      (10, leaf 1 (DocWord "before"));
      (11, leaf 1 (DocWhiteSpace " "));
      (12, leaf 1 DocHorRuler);
      (13, leaf 1 (DocWhiteSpace " "));
      (14, leaf 1 DocHorRuler);
      (15, leaf 1 (DocWord "after")) ]%nat.

(** Three notes merged into one simple section: paragraphs 20, 22 and 24
    with separators 21 and 23 between them. *)
Definition tree_notes : Store :=
  store_of
    [ (0, comp None (DocRoot false false) [1]);
      (1, comp (Some 0) DocPara [2]);
      (2, comp (Some 1) (DocSimpleSect DocSimpleSect.Note) [20; 21; 22; 23; 24]);
      (20, comp (Some 2) DocPara [30]);
      (21, leaf 2 DocSimpleSectSep);
      (22, comp (Some 2) DocPara [31]);
      (23, leaf 2 DocSimpleSectSep);
      (24, comp (Some 2) DocPara [32]);
      (30, leaf 20 (DocWord "one"));
      (31, leaf 22 (DocWord "two"));
      (32, leaf 24 (DocWord "three")) ]%nat.

(** Root trees with one paragraph of two words; the flag of the root is
    the argument. *)
Definition tree_brief (singleLine : bool) : Store :=
  store_of
    [ (0, comp None (DocRoot false singleLine) [1]);
      (1, comp (Some 0) DocPara [10; 11; 12]);
      (10, leaf 1 (DocWord "Short"));
      (11, leaf 1 (DocWhiteSpace " "));
      (12, leaf 1 (DocWord "summary")) ]%nat.

(** ** Auto lists and parameter rows *)

(** The list-type marker for a nesting depth, in the order decimal,
    lower-alpha, lower-roman, upper-alpha. *)
Definition listTypeMarker (depth : Z) : string :=
  match depth mod 4 with
  | 0 => "1"
  | 1 => "a"
  | 2 => "i"
  | _ => "A"
  end.

(** An enumerated list at depth 6 inside a list item, and an unordered
    list at depth 3. *)
Definition tree_lists : Store :=
  store_of
    [ (0, comp None (DocRoot false false) [1]);
      (1, comp (Some 0) DocAutoListItem [2; 3]);
      (2, comp (Some 1) (DocAutoList 12 true 6) []);
      (3, comp (Some 1) (DocAutoList 6 false 3) []) ]%nat.

(** The chunks of one parameter row, cell by cell. *)
Definition filterChunks (str : string) : list Chunk :=
  match str with
  | EmptyString => []
  | _ => [Filter str]
  end.

Fixpoint wordChunks (tree : Store) (sep : string) (ws : list NodeId)
         (first : bool) : list Chunk :=
  match ws with
  | [] => []
  | w :: rest =>
      (if first then [] else [Str sep])
      ++ (if Kind_eqb (kindOf tree w) Kind_Word
          then filterChunks (word (tree w))
          else if Kind_eqb (kindOf tree w) Kind_LinkedWord
               then StartLink w :: filterChunks (word (tree w)) ++ [Str "</a>"]
               else [])
      ++ wordChunks tree sep rest false
  end.

Definition directionText (dir : DocParamSect.Direction) : list Chunk :=
  match dir with
  | DocParamSect.Unspecified => []
  | DocParamSect.In => [Str "["; Str "in"; Str "]"]
  | DocParamSect.Out => [Str "["; Str "out"; Str "]"]
  | DocParamSect.InOut => [Str "["; Str "in,out"; Str "]"]
  end.

Definition directionCell (dir : DocParamSect.Direction) : list Chunk :=
  Str (td_open "paramdir") :: directionText dir ++ [Str "</td>"].

Definition typeCell (tree : Store) (paramTypes : list NodeId) : list Chunk :=
  Str (td_open "paramtype")
      :: wordChunks tree "&#160;|&#160;" paramTypes true ++ [Str "</td>"].

Definition nameCell (tree : Store) (params : list NodeId) : list Chunk :=
  Str (td_open "paramname") :: wordChunks tree "," params true.

(** A parameter section with a direction column and no type column; the
    second row gives no direction. *)
Definition tree_params : Store :=
  store_of
    [ (0, comp None (DocRoot false false) [1]);
      (1, comp (Some 0) DocPara [2]);
      (2, comp (Some 1) (DocParamSect DocParamSect.Param true false) [3; 4]);
      (3, mkDocNode (Some 2) false
            (DocParamList DocParamSect.Param DocParamSect.In [] [30] []));
      (4, mkDocNode (Some 2) false
            (DocParamList DocParamSect.Param DocParamSect.Unspecified
                          [] [31] []));
      (30, leaf 3 (DocWord "src"));
      (31, leaf 4 (DocWord "len")) ]%nat.

(** ** Style spans *)

(** A Center, Div or Preformatted span that is still open, as the
    specification words the backward scan: walking back from a position,
    an enable node of one of the three styles counts unless a disable node
    of that same style was met earlier in the walk.  [closed] lists the
    styles met disabled so far. *)
Fixpoint openOutsideStyle (tree : Store) (scan : list NodeId)
         (closed : list DocStyleChange.Style) : bool :=
  match scan with
  | [] => false
  | n :: rest =>
      match body (tree n) with
      | Leaf (DocStyleChange _ style enable) =>
          if enable then
            if hasOutsideStyle (tree n)
               && negb (existsb (DocStyleChange.Style_eqb style) closed)
            then true
            else openOutsideStyle tree rest closed
          else openOutsideStyle tree rest (style :: closed)
      | _ => openOutsideStyle tree rest closed
      end
  end.

(** The scan started at child [nodeIndex] of a child list. *)
Definition styleSpanOpen (tree : Store) (cs : list NodeId) (nodeIndex : nat)
  : bool :=
  openOutsideStyle tree (rev (firstn (Datatypes.S nodeIndex) cs)) [].

(** [<pre><em>a</em> b <hr> c]: a preformatted span that stays open, an
    italic span closed inside it, then a rule. *)
Definition tree_pre_italic : Store :=
  store_of
    [ (0, comp None (DocRoot false false) [1]);
      (1, comp (Some 0) DocPara [10; 11; 12; 13; 14; 15; 16]);
      (10, leaf 1 (DocStyleChange 0 DocStyleChange.Preformatted true));
      (11, leaf 1 (DocStyleChange 5 DocStyleChange.Italic true));
      (12, leaf 1 (DocWord "a"));
      (13, leaf 1 (DocStyleChange 10 DocStyleChange.Italic false));
      (14, leaf 1 (DocWord "b"));
      (15, leaf 1 DocHorRuler);
      (16, leaf 1 (DocWord "c")) ]%nat.

(** The same paragraph without the italic span. *)
Definition tree_pre_plain : Store :=
  store_of
    [ (0, comp None (DocRoot false false) [1]);
      (1, comp (Some 0) DocPara [10; 12; 14; 15; 16]);
      (10, leaf 1 (DocStyleChange 0 DocStyleChange.Preformatted true));
      (12, leaf 1 (DocWord "a"));
      (14, leaf 1 (DocWord "b"));
      (15, leaf 1 DocHorRuler);
      (16, leaf 1 (DocWord "c")) ]%nat.

(** * Further definitions

    The rest of the balancer's surroundings in [htmldocvisitor.cpp]: the
    leaf visits that drive it, the text filters, the index anchors and the
    hide stack of the include operators. *)

From Stdlib Require Import NArith.

(** ** The style scan over a list

    The nodes [insideStyleChange_OutsidePara] looks at, nearest first,
    with the loop body [styleStep] applied to each until it reports an
    open span. *)
Fixpoint styleScanList (tree : Store) (scan : list NodeId) (styleMask : Z)
  : bool :=
  match scan with
  | [] => false
  | n :: rest =>
      let '(styleMask', found) := styleStep (tree n) styleMask in
      if found then true else styleScanList tree rest styleMask'
  end.

(** A style-change node that switches its style off. *)
Definition isStyleDisable (n : DocNode) : bool :=
  match body n with
  | Leaf (DocStyleChange _ _ enable) => negb enable
  | _ => false
  end.

Definition isStyleChange (tree : Store) (n : NodeId) : bool :=
  Kind_eqb (kindOf tree n) Kind_StyleChange.

(** A style-change node that switches Center, Div or Preformatted on. *)
Definition isOutsideStyleEnable (n : DocNode) : bool :=
  match body n with
  | Leaf (DocStyleChange _ _ enable) => enable && hasOutsideStyle n
  | _ => false
  end.

(** A paragraph with a centered span that is closed again, and one where
    it is still open at the rule. *)
Definition tree_center (closed : bool) : Store :=
  store_of
    [ (0, comp None (DocRoot false false) [1]);
      (1, comp (Some 0) DocPara [10; 11; 12; 13; 14]);
      (10, leaf 1 (DocStyleChange 0 DocStyleChange.Center true));
      (11, leaf 1 (DocWord "a"));
      (12, if closed
           then leaf 1 (DocStyleChange 9 DocStyleChange.Center false)
           else leaf 1 (DocWhiteSpace " "));
      (13, leaf 1 DocHorRuler);
      (14, leaf 1 (DocWord "b")) ]%nat.

(** Whether [getParagraphContext] reports the paragraph as both first and
    last. *)
Definition firstAndLast (tree : Store) (p : NodeId) : bool :=
  let '(_, isFirst, isLast) := getParagraphContext tree p in
  isFirst && isLast.

(** A paragraph under the root with a rule between two words. *)
Definition tree_rule_between : Store :=
  store_of
    [ (0, comp None (DocRoot false false) [1]);
      (1, comp (Some 0) DocPara [10; 11; 12]);
      (10, leaf 1 (DocWord "above"));
      (11, leaf 1 DocHorRuler);
      (12, leaf 1 (DocWord "below")) ]%nat.

(** A paragraph that opens with a rule and has two adjacent rules in
    its middle: [<hr> text <hr> <hr> link]. *)
Definition tree_rules_and_words : Store :=
  store_of
    [ (0, comp None (DocRoot false false) [1]);
      (1, comp (Some 0) DocPara [10; 11; 12; 13; 14; 15; 16]);
      (10, leaf 1 DocHorRuler);
      (11, leaf 1 (DocWhiteSpace " "));
      (12, leaf 1 (DocWord "text"));
      (13, leaf 1 DocHorRuler);
      (14, leaf 1 (DocWhiteSpace " "));
      (15, leaf 1 DocHorRuler);
      (16, leaf 1 (DocLinkedWord "link")) ]%nat.

(** ** Leaf visits that drive the balancer *)

(** [DocWhiteSpace::chars]. *)
Definition chars (n : DocNode) : string :=
  match body n with
  | Leaf (DocWhiteSpace c) => c
  | _ => EmptyString
  end.

(** [HtmlDocVisitor::visit(DocWhiteSpace)]; the visitor's [m_insidePre]
    is passed in, the record above keeps [m_t] and [m_hide] only. *)
Definition visit_DocWhiteSpace (tree : Store) (m_insidePre : bool)
           (v : HtmlDocVisitor) (w : NodeId) : HtmlDocVisitor :=
  if m_hide v then v
  else if m_insidePre then v << chars (tree w) else v << " ".

(** [HtmlDocVisitor::visit(DocLineBreak)]. *)
Definition visit_DocLineBreak (v : HtmlDocVisitor) : HtmlDocVisitor :=
  if m_hide v then v else v << ("<br />" ++ nl)%string.

(** [HtmlDocVisitor::visit(DocHorRuler)]. *)
Definition visit_DocHorRuler (tree : Store) (v : HtmlDocVisitor) (hr : NodeId)
  : HtmlDocVisitor :=
  if m_hide v then v
  else
    let v := forceEndParagraph tree v hr in
    let v := v << ("<hr/>" ++ nl)%string in
    forceStartParagraph tree v hr.

(** ** The HTML backend as a [DocVisitor]

    The state is [None] once a node is met whose visit is not among the
    methods modelled here.  [visitPre] and [visitPost] on a [DocRoot] are
    empty. *)
Definition html_visit (tree : Store) (m_insidePre : bool) (n : NodeId)
           (s : option HtmlDocVisitor) : option HtmlDocVisitor :=
  match s with
  | None => None
  | Some v =>
      match body (tree n) with
      | Leaf (DocWord _) => Some (visit_DocWord tree v n)
      | Leaf (DocLinkedWord _) => Some (visit_DocLinkedWord tree v n)
      | Leaf (DocWhiteSpace _) =>
          Some (visit_DocWhiteSpace tree m_insidePre v n)
      | Leaf DocLineBreak => Some (visit_DocLineBreak v)
      | Leaf DocHorRuler => Some (visit_DocHorRuler tree v n)
      | _ => None
      end
  end.

Definition html_visitPre (tree : Store) (n : NodeId)
           (s : option HtmlDocVisitor) : option HtmlDocVisitor :=
  match s with
  | None => None
  | Some v =>
      match body (tree n) with
      | CompAccept DocPara _ => Some (visitPre_DocPara tree v n)
      | CompAccept (DocRoot _ _) _ => Some v
      | CompAccept (DocAutoList _ _ _) _ => visitPre_DocAutoList tree v n
      | DocParamList _ _ _ _ _ => visitPre_DocParamList tree v n
      | _ => None
      end
  end.

Definition html_visitPost (tree : Store) (n : NodeId)
           (s : option HtmlDocVisitor) : option HtmlDocVisitor :=
  match s with
  | None => None
  | Some v =>
      match body (tree n) with
      | CompAccept DocPara _ => Some (visitPost_DocPara tree v n)
      | CompAccept (DocRoot _ _) _ => Some v
      | CompAccept (DocAutoList _ _ _) _ => visitPost_DocAutoList tree v n
      | _ => None
      end
  end.

Definition htmlDocVisitor (tree : Store) (m_insidePre : bool)
  : DocVisitor (option HtmlDocVisitor) :=
  mkDocVisitor (option HtmlDocVisitor)
               (html_visit tree m_insidePre)
               (html_visitPre tree)
               (html_visitPost tree).

(** Children of a paragraph whose visit is modelled: words, whitespace,
    line breaks and horizontal rules. *)
Definition isInlineOrRule (n : DocNode) : bool :=
  match body n with
  | Leaf (DocWord _) | Leaf (DocLinkedWord _) | Leaf (DocWhiteSpace _)
  | Leaf DocLineBreak | Leaf DocHorRuler => true
  | _ => false
  end.

(** ** Paragraph markers in a piece of output

    [Some true] for an open marker ([<p] of [visitPre], [<p>] of
    [forceStartParagraph]), [Some false] for a close marker. *)
Definition paraMarker (c : Chunk) : option bool :=
  match c with
  | Str s =>
      if String.eqb s "<p" || String.eqb s "<p>" then Some true
      else if String.eqb s "</p>" || String.eqb s ("</p>" ++ nl)
           then Some false
           else None
  | _ => None
  end.

Fixpoint paraMarkers (out : list Chunk) : list bool :=
  match out with
  | [] => []
  | c :: rest =>
      match paraMarker c with
      | Some m => m :: paraMarkers rest
      | None => paraMarkers rest
      end
  end.

(** Reading the markers with the paragraph [open] or closed: an open
    marker must find it closed and a close marker must find it open;
    the result is the state at the end, [None] after a marker out of
    turn. *)
Fixpoint markersClose (open : bool) (ms : list bool) : option bool :=
  match ms with
  | [] => Some open
  | m :: rest => if Bool.eqb m open then None else markersClose m rest
  end.

(** Whether the paragraph is open between the children [pre] already
    rendered and the children [post] still to come. *)
Definition nextIsInline (tree : Store) (o : option NodeId) : bool :=
  match o with
  | Some m => negb (mustBeOutsideParagraph (tree m))
  | None => false
  end.

Definition paraOpen (tree : Store) (p : NodeId) (pre post : list NodeId)
  : bool :=
  negb (firstAndLast tree p)
  && match lastVisible tree pre with
     | Some m =>
         if mustBeOutsideParagraph (tree m)
         then nextIsInline tree (firstVisible tree post)
         else true
     | None => negb (isOutside tree (firstVisible tree post))
     end.

(** ** Reading a recorded traversal

    [replay v calls s]: the calls of a recorded traversal made on the
    visitor [v], one after the other. *)
Definition replayCall {S : Type} (v : DocVisitor S) (s : S) (c : Call) : S :=
  match c with
  | CallVisit n => visit v n s
  | CallVisitPre n => visitPre v n s
  | CallVisitPost n => visitPost v n s
  end.

Definition replay {S : Type} (v : DocVisitor S) (calls : list Call) (s : S)
  : S :=
  fold_left (replayCall v) calls s.

(** [nested open calls]: reads the calls with the nodes in [open]
    entered and not yet left, innermost first.  [visitPre] enters a
    node, [visitPost] must leave the innermost entered node, [visit]
    enters nothing.  The result is the nodes still entered at the end,
    [None] after a [visitPost] out of turn. *)
Fixpoint nested (open : list NodeId) (calls : list Call)
  : option (list NodeId) :=
  match calls with
  | [] => Some open
  | CallVisit _ :: rest => nested open rest
  | CallVisitPre n :: rest => nested (n :: open) rest
  | CallVisitPost n :: rest =>
      match open with
      | m :: open' => if Nat.eqb n m then nested open' rest else None
      | [] => None
      end
  end.

(** ** Escaping text for HTML

    The functions below write to [m_t] one character at a time; what
    they write is given as one text.  A character is a code unit of the
    [QString]. *)

Definition quoteChar : ascii := ascii_of_nat 34.

(** The [switch] of [filterQuotedCdataAttr]. *)
Definition filterQuotedCdataAttr_char (c : ascii) : string :=
  if Ascii.eqb c "&" then "&amp;"
  else if Ascii.eqb c quoteChar then "&quot;"
  else if Ascii.eqb c "<" then "&lt;"
  else if Ascii.eqb c ">" then "&gt;"
  else String c EmptyString.

(** [HtmlDocVisitor::filterQuotedCdataAttr(str)]: an empty [str] writes
    nothing, like the early return. *)
Fixpoint filterQuotedCdataAttr (str : string) : string :=
  match str with
  | EmptyString => EmptyString
  | String c rest =>
      (filterQuotedCdataAttr_char c ++ filterQuotedCdataAttr rest)%string
  end.

(** [QString::contains(sub)]. *)
Fixpoint contains (sub str : string) : bool :=
  prefix sub str
  || match str with
     | EmptyString => false
     | String _ rest => contains sub rest
     end.

(** [QString::replace(before, after)] for a [before] that is not empty:
    every occurrence of [before], found from left to right and without
    overlap, becomes [after]; the text put in is not searched again.
    [skip] counts the characters of an occurrence still to be dropped. *)
Fixpoint replace_from (skip : nat) (before after str : string) : string :=
  match str with
  | EmptyString => EmptyString
  | String c rest =>
      match skip with
      | Datatypes.S k => replace_from k before after rest
      | O =>
          if prefix before str
          then (after
                ++ replace_from (String.length before - 1) before after rest)
                 %string
          else String c (replace_from 0 before after rest)
      end
  end.

Definition replace (before after str : string) : string :=
  replace_from 0 before after str.

(** The methods of [theTranslator] that [filter] calls. *)
Record Translator : Set := mkTranslator {
  trPublicTypedefs : string;
  trProtectedMembers : string;
  trPrivateSlots : string;
  trConstructorDocumentation : string;
  trModulesDescription : string;
  trDeprecatedList : string;
  trLegendDocs : string -> string
}.

(** The local [result] of [filter] when the loop starts. *)
Definition filter_result (theTranslator : Translator) (str : string)
  : string :=
  let result := str in
  if contains "$tr" result
  then
    let result := replace "$trPublicTypedefs"
                          (trPublicTypedefs theTranslator) result in
    let result := replace "$trProtectedMembers"
                          (trProtectedMembers theTranslator) result in
    let result := replace "$trPrivateSlots"
                          (trPrivateSlots theTranslator) result in
    let result := replace "$trConstructorDocumentation"
                          (trConstructorDocumentation theTranslator)
                          result in
    let result := replace "$trModulesDescription"
                          (trModulesDescription theTranslator) result in
    let result := replace "$trDeprecatedList"
                          (trDeprecatedList theTranslator) result in
    let result := replace "$trLegendDocs"
                          (trLegendDocs theTranslator "png") result in
    result
  else result.

(** The [switch] of [filter]. *)
Definition filter_char (c : ascii) : string :=
  if Ascii.eqb c "<" then "&lt;"
  else if Ascii.eqb c ">" then "&gt;"
  else if Ascii.eqb c "&" then "&amp;"
  else String c EmptyString.

Fixpoint filter_loop (result : string) : string :=
  match result with
  | EmptyString => EmptyString
  | String c rest => (filter_char c ++ filter_loop rest)%string
  end.

(** [HtmlDocVisitor::filter(str)]: the characters a [Filter str] chunk
    stands for. *)
Definition filter_text (theTranslator : Translator) (str : string)
  : string :=
  match str with
  | EmptyString => EmptyString
  | _ => filter_loop (filter_result theTranslator str)
  end.

(** What a reader of the HTML text gets back from the four entities the
    two functions write.  [skip] counts the characters of an entity
    still to be dropped. *)
Fixpoint decodeEntities (skip : nat) (html : string) : string :=
  match html with
  | EmptyString => EmptyString
  | String c rest =>
      match skip with
      | Datatypes.S k => decodeEntities k rest
      | O =>
          if prefix "&lt;" html then String "<" (decodeEntities 3 rest)
          else if prefix "&gt;" html then String ">" (decodeEntities 3 rest)
          else if prefix "&amp;" html
               then String "&" (decodeEntities 4 rest)
          else if prefix "&quot;" html
               then String quoteChar (decodeEntities 5 rest)
          else String c (decodeEntities 0 rest)
      end
  end.

(** A translator for the examples. *)
Definition translator_en : Translator :=
  mkTranslator "Public Typedefs" "Protected Members" "Private Slots"
               "Constructor & Destructor Documentation"
               "Here is a list of all modules:" "Deprecated List"
               (fun _ => "<b>Legend</b>").

(** ** Anchors of index entries

    A character of the index word is given by its code,
    [c.unicode()]. *)

(** The test of the loop of [convertIndexWordToAnchor]: a letter, a
    digit, [-], [.] or [_]. *)
Definition isAnchorChar (c : N) : bool :=
  ((97 <=? c) && (c <=? 122)
   || (65 <=? c) && (c <=? 90)
   || (48 <=? c) && (c <=? 57)
   || (c =? 45) || (c =? 46) || (c =? 95))%N.

(** One digit in base 16, lower case. *)
Definition hexDigit (d : N) : ascii :=
  ascii_of_N (if (d <? 10)%N then 48 + d else 87 + d)%N.

(** The digits of [n] in base 16, most significant first; [fuel] bounds
    their number. *)
Fixpoint toBase16 (fuel : nat) (n : N) : string :=
  match fuel with
  | O => EmptyString
  | Datatypes.S fuel' =>
      ((if (n <? 16)%N then EmptyString else toBase16 fuel' (n / 16)%N)
       ++ String (hexDigit (n mod 16)%N) EmptyString)%string
  end.

(** A number of [k] binary digits has at most [k] digits in base 16. *)
Definition number16 (n : N) : string :=
  toBase16 (Datatypes.S (N.size_nat n)) n.

Fixpoint fill (k : nat) (c : ascii) : string :=
  match k with
  | O => EmptyString
  | Datatypes.S k' => String c (fill k' c)
  end.

(** [QString(":%1").arg(code, 2, 16, QChar('0'))]: the number in base
    16, padded on the left with [0] to a width of two. *)
Definition arg_2_16 (code : N) : string :=
  let digits := number16 code in
  (":" ++ fill (2 - String.length digits) "0" ++ digits)%string.

Fixpoint convertIndexWordToAnchor_loop (word : list N) : string :=
  match word with
  | [] => EmptyString
  | c :: rest =>
      ((if isAnchorChar c
        then String (ascii_of_N c) EmptyString
        else arg_2_16 c)
       ++ convertIndexWordToAnchor_loop rest)%string
  end.

(** [convertIndexWordToAnchor(word)] *)
Definition convertIndexWordToAnchor (word : list N) : string :=
  ("a" ++ convertIndexWordToAnchor_loop word)%string.

(** The characters an anchor is made of: those of [isAnchorChar] and
    the colon. *)
Definition anchorAlphabet (c : ascii) : bool :=
  isAnchorChar (N_of_ascii c) || (N_of_ascii c =? 58)%N.

(** Reading one character of the word back from the front of an
    anchor: a colon starts two digits in base 16. *)
Definition hexValue (c : ascii) : option N :=
  let n := N_of_ascii c in
  if ((48 <=? n) && (n <=? 57))%N then Some (n - 48)%N
  else if ((97 <=? n) && (n <=? 102))%N then Some (n - 87)%N
  else None.

Definition readAnchorChar (anchor : string) : option (N * string) :=
  match anchor with
  | EmptyString => None
  | String c rest =>
      if Ascii.eqb c ":"
      then match rest with
           | String h (String l rest') =>
               match hexValue h, hexValue l with
               | Some a, Some b => Some (16 * a + b, rest')%N
               | _, _ => None
               end
           | _ => None
           end
      else Some (N_of_ascii c, rest)
  end.

(** What the loop of [convertIndexWordToAnchor] appends for one
    character. *)
Definition anchorChar (c : N) : string :=
  if isAnchorChar c then String (ascii_of_N c) EmptyString else arg_2_16 c.

(** The codes below [k]. *)
Definition codesBelow (k : nat) : list N := map N.of_nat (seq 0 k).

(** ** The hide stack and the include operators

    [visit] on a [DocIncOperator], with the members of the visitor it uses:
    the stream [m_t], the flag [m_hide] and the stack [m_enabled]. *)

Module HideStack.

(** What the operators write.  [PREFRAG_START] and [PREFRAG_END] are
    macros of another file; [ParseCode text] is the call of the code
    parser on the operator's text. *)
Inductive Out : Set :=
| PREFRAG_START
| PREFRAG_END
| endl
| ParseCode (text : string).

Record Visitor : Set := mkVisitor {
  m_t : list Out;
  m_hide : bool;
  m_enabled : list bool
}.

Inductive Type_ : Set := Line | SkipLine | Skip | Until.

Definition isSkip (t : Type_) : bool :=
  match t with Skip => true | _ => false end.

(** The members of [DocIncOperator] read by the visit. *)
Record DocIncOperator : Set := mkDocIncOperator {
  type : Type_;
  text : string;
  isFirst : bool;
  isLast : bool
}.

Definition put (v : Visitor) (o : Out) : Visitor :=
  mkVisitor (m_t v ++ [o]) (m_hide v) (m_enabled v).

(** [if (! m_hide) m_t << o;] *)
Definition putVisible (v : Visitor) (o : Out) : Visitor :=
  if negb (m_hide v) then put v o else v.

Definition setHide (v : Visitor) (b : bool) : Visitor :=
  mkVisitor (m_t v) b (m_enabled v).

(** [pushEnabled()] *)
Definition pushEnabled (v : Visitor) : Visitor :=
  mkVisitor (m_t v) (m_hide v) (m_hide v :: m_enabled v).

(** [popEnabled()]; [None] for [pop] on an empty stack. *)
Definition popEnabled (v : Visitor) : option Visitor :=
  match m_enabled v with
  | [] => None
  | b :: rest => Some (mkVisitor (m_t v) b rest)
  end.

(** [HtmlDocVisitor::visit(DocIncOperator *op)] *)
Definition visit (op : DocIncOperator) (v : Visitor) : option Visitor :=
  let v1 :=
    if isFirst op
    then setHide (pushEnabled (putVisible v PREFRAG_START)) true
    else v in
  match (if negb (isSkip (type op))
         then match popEnabled v1 with
              | Some v2 =>
                  Some (setHide
                          (pushEnabled (putVisible v2 (ParseCode (text op))))
                          true)
              | None => None
              end
         else Some v1) with
  | Some v3 =>
      if isLast op
      then match popEnabled v3 with
           | Some v4 => Some (putVisible v4 PREFRAG_END)
           | None => None
           end
      else Some (putVisible v3 endl)
  | None => None
  end.

(** The operators of one block, visited in order. *)
Fixpoint visitAll (ops : list DocIncOperator) (v : Visitor)
  : option Visitor :=
  match ops with
  | [] => Some v
  | op :: rest =>
      match visit op v with
      | Some v' => visitAll rest v'
      | None => None
      end
  end.

(** A block of operators as the parser marks it: the first operator,
    and only that one, is marked first; the last, and only that one,
    is marked last. *)
Fixpoint isBlockFrom (op : DocIncOperator) (rest : list DocIncOperator)
  : bool :=
  match rest with
  | [] => isLast op
  | op' :: rest' =>
      negb (isLast op) && negb (isFirst op') && isBlockFrom op' rest'
  end.

Definition isBlock (ops : list DocIncOperator) : bool :=
  match ops with
  | [] => false
  | op :: rest => isFirst op && isBlockFrom op rest
  end.

(** The code of a block: the texts of the operators that are not
    [Skip]. *)
Fixpoint code (ops : list DocIncOperator) : list Out :=
  match ops with
  | [] => []
  | op :: rest =>
      if isSkip (type op) then code rest
      else ParseCode (text op) :: code rest
  end.

End HideStack.

(** * Properties *)

(** A dot file reference is not classified as must-be-outside, although
    the table with the diagram file references lists it. *)
Lemma mustBeOutsideParagraph_DotFile :
  mustBeOutsideParagraph (comp (Some 1%nat) DocDotFile []) = false
  /\ outsideTable_with_diagrams (comp (Some 1%nat) DocDotFile []) = true.
Proof. split; reflexivity. Qed.

(** C1 (amended): for every node, [mustBeOutsideParagraph] is true exactly
    for HTML/simple/auto lists, simple sections, parameter sections, HTML
    description lists, cross-reference items, HTML tables, sections, HTML
    headers, internal blocks, includes, images, section-reference lists,
    horizontal rules, copy nodes, HTML block quotes and par-blocks;
    verbatim nodes unless inline HTML-only; style changes to Preformatted,
    Div or Center; formulas that are not inline.  It is false for every
    other kind, the dot, msc and dia file references included. *)
Theorem mustBeOutsideParagraph_table :
  forall n : DocNode,
    mustBeOutsideParagraph n = outsideTable outside_kinds n
    /\ (List.In (kind n) dot_like_kinds -> mustBeOutsideParagraph n = false).
Proof.
  intros [parent pre b]; split.
  - destruct b as [c | c cs | | ty dir ps pa pt | para];
      try reflexivity.
    + destruct c as [ | | | | | | |pos st en| | |txt ty blk| | |id txt| | ];
        try reflexivity.
      * destruct st; reflexivity.
      * destruct ty, blk; reflexivity.
    + destruct c; reflexivity.
  - intros Hin.
    destruct b as [c | c cs | | ty dir ps pa pt | para].
    + destruct c; simpl in Hin;
        repeat (destruct Hin as [Hin | Hin]; [discriminate Hin|]);
        destruct Hin.
    + destruct c; try reflexivity; simpl in Hin;
        repeat (destruct Hin as [Hin | Hin]; [discriminate Hin|]);
        destruct Hin.
    + simpl in Hin;
        repeat (destruct Hin as [Hin | Hin]; [discriminate Hin|]);
        destruct Hin.
    + simpl in Hin;
        repeat (destruct Hin as [Hin | Hin]; [discriminate Hin|]);
        destruct Hin.
    + simpl in Hin;
        repeat (destruct Hin as [Hin | Hin]; [discriminate Hin|]);
        destruct Hin.
Qed.

(** A formula without text, and one whose text has no dollar sign, are
    both classified inline. *)
Lemma isInline_not_from_dollars :
  (isInline EmptyString = true /\ wrappedInSingleDollar EmptyString = false)
  /\ (isInline "x^2" = true /\ wrappedInSingleDollar "x^2" = false).
Proof. repeat split; reflexivity. Qed.

(** C7 (amended): the inline-versus-display classification is read off
    the first character of the raw text: a formula is inline exactly when
    its text is empty or does not start with a backslash.  So a text
    wrapped in single-dollar delimiters is inline, a text opening with a
    backslash (as the display delimiter does) is not, and the balancer
    takes a formula out of the paragraph exactly when it is not inline. *)
Theorem isInline_first_char :
  forall (id : Z) (text : string) (node : DocNode),
    body node = Leaf (DocFormula id text) ->
    (isInline text = true <->
       text = EmptyString
       \/ exists c rest, text = String c rest /\ c <> backslash)
    /\ (wrappedInSingleDollar text = true -> isInline text = true)
    /\ (forall rest, isInline (String backslash rest) = false)
    /\ mustBeOutsideParagraph node = negb (isInline text).
Proof.
  intros id text [parent pre b] Hb; simpl in Hb; subst b.
  repeat split.
  - destruct text as [|c rest]; [now left|].
    simpl; intros H; right; exists c, rest; split; [reflexivity|].
    intros ->; discriminate H.
  - intros [-> | (c & rest & -> & Hc)]; [reflexivity|].
    simpl. destruct (Ascii.eqb c backslash) eqn:E; [|reflexivity].
    apply Ascii.eqb_eq in E; contradiction.
  - destruct text as [|c [|d rest]]; simpl; try discriminate.
    intros H. apply andb_prop in H as [H _]. apply andb_prop in H as [H _].
    apply Ascii.eqb_eq in H; subst c; reflexivity.
Qed.

Lemma isInline_first_char_witness :
  isInline "$a+b$" = true
  /\ mustBeOutsideParagraph (leaf 1%nat (DocFormula 7 "$a+b$")) = false.
Proof.
  pose proof (isInline_first_char 7 "$a+b$" (leaf 1%nat (DocFormula 7 "$a+b$"))
                                  eq_refl) as (_ & Hw & _ & Hm).
  split; [apply Hw; reflexivity | rewrite Hm, Hw; reflexivity].
Defined.


(** ** Child lists: positions and whitespace runs *)

Lemma at_of_nat (cs : list NodeId) (i : nat) :
  at_ cs (Z.of_nat i) = nth_error cs i.
Proof.
  unfold at_. destruct (Z.ltb_spec (Z.of_nat i) 0) as [H|H]; [lia|].
  now rewrite Nat2Z.id.
Qed.

Lemma at_negative (cs : list NodeId) (i : Z) : i < 0 -> at_ cs i = None.
Proof.
  intros H. unfold at_. destruct (Z.ltb_spec i 0); [reflexivity|lia].
Qed.

Lemma at_middle (pre post : list NodeId) (x : NodeId) :
  at_ (pre ++ x :: post) (Z.of_nat (List.length pre)) = Some x.
Proof.
  rewrite at_of_nat, nth_error_app2 by lia.
  now rewrite Nat.sub_diag.
Qed.

Lemma at_count (cs : list NodeId) : at_ cs (count cs) = None.
Proof.
  unfold count. rewrite at_of_nat. apply nth_error_None. lia.
Qed.

Lemma count_app (xs ys : list NodeId) : count (xs ++ ys) = count xs + count ys.
Proof. unfold count. rewrite length_app. lia. Qed.

Lemma indexOf_from_middle (pre post : list NodeId) (n : NodeId) (k : Z) :
  ~ List.In n pre ->
  indexOf_from (pre ++ n :: post) n k = k + Z.of_nat (List.length pre).
Proof.
  revert k. induction pre as [|c pre IH]; intros k Hnot; simpl.
  - rewrite Nat.eqb_refl. lia.
  - destruct (Nat.eqb_spec c n) as [->|Hne].
    + exfalso. apply Hnot. now left.
    + rewrite IH by (intros Hin; apply Hnot; now right). lia.
Qed.

Lemma indexOf_middle (pre post : list NodeId) (n : NodeId) :
  ~ List.In n pre ->
  indexOf (pre ++ n :: post) n = Z.of_nat (List.length pre).
Proof.
  intros H. unfold indexOf. now rewrite indexOf_from_middle.
Qed.

Lemma indexOf_from_absent (cs : list NodeId) (n : NodeId) (k : Z) :
  ~ List.In n cs -> indexOf_from cs n k = -1.
Proof.
  revert k. induction cs as [|c cs IH]; intros k Hnot; simpl; [reflexivity|].
  destruct (Nat.eqb_spec c n) as [->|Hne].
  - exfalso. apply Hnot. now left.
  - apply IH. intros Hin. apply Hnot. now right.
Qed.

Section WhiteSpaceRuns.

Variable tree : Store.

Lemma kindAtIs_middle (pre post : list NodeId) (x : NodeId) (k : Kind) :
  kindAtIs tree (pre ++ x :: post) (Z.of_nat (List.length pre)) k
  = Kind_eqb (kindOf tree x) k.
Proof. unfold kindAtIs. now rewrite at_middle. Qed.

(** Walking back over a whitespace run stops on the node before it. *)
Lemma skipWhiteSpace_back_run (ws pre post : list NodeId) (m : NodeId)
      (extra : nat) :
  Forall (fun c => isWhiteSpace tree c = true) ws ->
  isWhiteSpace tree m = false ->
  skipWhiteSpace_back tree (pre ++ m :: ws ++ post)
                      (Datatypes.S (List.length ws) + extra)
                      (Z.of_nat (List.length pre + List.length ws))
  = Z.of_nat (List.length pre).
Proof.
  revert post. induction ws as [|w ws IH] using rev_ind; intros post Hws Hm.
  - simpl. rewrite Nat.add_0_r.
    destruct (Z.leb_spec 0 (Z.of_nat (List.length pre))); [|lia].
    rewrite kindAtIs_middle. unfold isWhiteSpace in Hm. now rewrite Hm.
  - apply Forall_app in Hws as [Hws Hw].
    apply Forall_inv in Hw.
    rewrite length_app; simpl List.length.
    replace (Datatypes.S (List.length ws + 1) + extra)%nat
      with (Datatypes.S (Datatypes.S (List.length ws) + extra)) by lia.
    cbn [skipWhiteSpace_back].
    destruct (Z.leb_spec 0 (Z.of_nat (List.length pre + (List.length ws + 1))));
      [|lia].
    replace (pre ++ m :: (ws ++ [w]) ++ post)
      with ((pre ++ m :: ws) ++ w :: post)
      by (repeat (rewrite <- app_assoc; simpl); reflexivity).
    replace (Z.of_nat (List.length pre + (List.length ws + 1)))
      with (Z.of_nat (List.length (pre ++ m :: ws)))
      by (rewrite length_app; simpl; lia).
    rewrite kindAtIs_middle.
    unfold isWhiteSpace in Hw. rewrite Hw. cbn [andb].
    replace ((pre ++ m :: ws) ++ w :: post)
      with (pre ++ m :: ws ++ (w :: post))
      by (repeat (rewrite <- app_assoc; simpl); reflexivity).
    replace (Z.of_nat (List.length (pre ++ m :: ws)) - 1)
      with (Z.of_nat (List.length pre + List.length ws))
      by (rewrite length_app; simpl; lia).
    apply IH; assumption.
Qed.

(** With nothing but whitespace in front, the walk ends at -1. *)
Lemma skipWhiteSpace_back_all (ws post : list NodeId) (extra : nat) :
  Forall (fun c => isWhiteSpace tree c = true) ws ->
  skipWhiteSpace_back tree (ws ++ post) (List.length ws + extra)
                      (Z.of_nat (List.length ws) - 1)
  = -1.
Proof.
  revert post. induction ws as [|w ws IH] using rev_ind; intros post Hws.
  - simpl. destruct extra; reflexivity.
  - apply Forall_app in Hws as [Hws Hw].
    apply Forall_inv in Hw.
    rewrite length_app; simpl List.length.
    replace (List.length ws + 1 + extra)%nat
      with (Datatypes.S (List.length ws + extra)) by lia.
    cbn [skipWhiteSpace_back].
    replace (Z.of_nat (List.length ws + 1) - 1)
      with (Z.of_nat (List.length ws)) by lia.
    destruct (Z.leb_spec 0 (Z.of_nat (List.length ws))); [|lia].
    rewrite <- app_assoc; simpl.
    rewrite kindAtIs_middle.
    unfold isWhiteSpace in Hw. rewrite Hw. cbn [andb].
    apply IH; assumption.
Qed.

(** The last node of a list that is not whitespace, as a split. *)
Lemma lastVisible_split (cs : list NodeId) :
  match lastVisible tree cs with
  | Some m =>
      exists pre ws,
        cs = pre ++ m :: ws
        /\ Forall (fun c => isWhiteSpace tree c = true) ws
        /\ isWhiteSpace tree m = false
  | None => Forall (fun c => isWhiteSpace tree c = true) cs
  end.
Proof.
  unfold lastVisible, firstVisible.
  induction cs as [|x cs IH] using rev_ind; [constructor|].
  rewrite rev_app_distr; simpl.
  destruct (isWhiteSpace tree x) eqn:Hx; simpl.
  - destruct (find (fun c => negb (isWhiteSpace tree c)) (rev cs)) as [m|].
    + destruct IH as (pre & ws & -> & Hws & Hm).
      exists pre, (ws ++ [x]). repeat split.
      * now rewrite <- app_assoc.
      * apply Forall_app. split; [assumption|]. now constructor.
      * assumption.
    + apply Forall_app. split; [assumption|]. now constructor.
  - exists cs, []. repeat split; [constructor|assumption].
Qed.

Lemma lastVisible_run (pre ws : list NodeId) (m : NodeId) :
  Forall (fun c => isWhiteSpace tree c = true) ws ->
  isWhiteSpace tree m = false ->
  lastVisible tree (pre ++ m :: ws) = Some m.
Proof.
  intros Hws Hm. unfold lastVisible, firstVisible.
  rewrite rev_app_distr; simpl. rewrite <- app_assoc; simpl.
  induction ws as [|w ws IH] using rev_ind.
  - simpl. now rewrite Hm.
  - apply Forall_app in Hws as [Hws Hw]. apply Forall_inv in Hw.
    rewrite rev_app_distr; simpl. rewrite Hw; simpl. now apply IH.
Qed.

(** A node that must be outside a paragraph is not whitespace. *)
Lemma mustBeOutside_not_whiteSpace (n : NodeId) :
  mustBeOutsideParagraph (tree n) = true -> isWhiteSpace tree n = false.
Proof.
  unfold isWhiteSpace, kindOf, mustBeOutsideParagraph.
  destruct (kind (tree n)); try discriminate; reflexivity.
Qed.

End WhiteSpaceRuns.

(** ** [forceEndParagraph]: when nothing is written *)

Section ForceEnd.

Variable tree : Store.

Lemma forceEndParagraph_at_most_once (v : HtmlDocVisitor) (n : NodeId) :
  forceEndParagraph tree v n = v
  \/ forceEndParagraph tree v n = v << "</p>".
Proof.
  unfold forceEndParagraph.
  destruct (m_parent (tree n)) as [para|]; [|now left].
  destruct (Kind_eqb _ _); [|now left].
  destruct (_ <? 0); [now left|].
  destruct (_ && _); [now left|].
  destruct (getParagraphContext tree para) as [[t isFirst] isLast].
  destruct (isFirst && isLast); [now left|].
  destruct (insideStyleChange_OutsidePara _ _ _); [now left|now right].
Qed.

Lemma forceEndParagraph_first_child (v : HtmlDocVisitor) (n p : NodeId)
      (post : list NodeId) :
  m_parent (tree n) = Some p ->
  children (tree p) = n :: post ->
  forceEndParagraph tree v n = v.
Proof.
  intros Hp Hcs. unfold forceEndParagraph. rewrite Hp, Hcs.
  destruct (Kind_eqb _ _); [|reflexivity].
  unfold indexOf; simpl. now rewrite Nat.eqb_refl.
Qed.

(** The state of the walk in [forceEndParagraph] once the whitespace in
    front of [n] is skipped: the index it stops at is that of [m]. *)
Lemma forceEndParagraph_skip (pre ws post : list NodeId) (m n : NodeId) :
  ~ List.In n (pre ++ m :: ws) ->
  Forall (fun c => isWhiteSpace tree c = true) ws ->
  isWhiteSpace tree m = false ->
  let cs := pre ++ m :: ws ++ n :: post in
  let nodeIndex := indexOf cs n - 1 in
  (nodeIndex <? 0) = false
  /\ skipWhiteSpace_back tree cs (Z.to_nat (nodeIndex + 1)) nodeIndex
     = Z.of_nat (List.length pre).
Proof.
  intros Hnot Hws Hm cs nodeIndex.
  assert (Hidx : indexOf cs n
                 = Z.of_nat (List.length pre + 1 + List.length ws)).
  { unfold cs.
    replace (pre ++ m :: ws ++ n :: post)
      with ((pre ++ m :: ws) ++ n :: post)
      by (rewrite <- app_assoc; reflexivity).
    rewrite indexOf_middle by assumption.
    rewrite length_app; simpl. f_equal. lia. }
  unfold nodeIndex. rewrite Hidx. split.
  - apply Z.ltb_ge. lia.
  - replace (Z.of_nat (List.length pre + 1 + List.length ws) - 1)
      with (Z.of_nat (List.length pre + List.length ws)) by lia.
    replace (Z.to_nat (Z.of_nat (List.length pre + List.length ws) + 1))
      with (Datatypes.S (List.length ws) + List.length pre)%nat by lia.
    unfold cs. now apply skipWhiteSpace_back_run.
Qed.

Lemma forceEndParagraph_after_outside (v : HtmlDocVisitor)
      (n p m : NodeId) (pre ws post : list NodeId) :
  m_parent (tree n) = Some p ->
  children (tree p) = pre ++ m :: ws ++ n :: post ->
  ~ List.In n (pre ++ m :: ws) ->
  Forall (fun c => isWhiteSpace tree c = true) ws ->
  mustBeOutsideParagraph (tree m) = true ->
  forceEndParagraph tree v n = v.
Proof.
  intros Hp Hcs Hnot Hws Hm.
  pose proof (mustBeOutside_not_whiteSpace tree m Hm) as Hvis.
  destruct (forceEndParagraph_skip pre ws post m n Hnot Hws Hvis)
    as [Hlt Hskip].
  unfold forceEndParagraph. rewrite Hp, Hcs.
  destruct (Kind_eqb _ _); [|reflexivity].
  cbv zeta in Hlt, Hskip. rewrite Hlt, Hskip.
  unfold mustBeOutsideAt. rewrite at_middle, Hm.
  destruct (Z.leb_spec 0 (Z.of_nat (List.length pre))); [reflexivity|lia].
Qed.

Lemma forceEndParagraph_after_inline (v : HtmlDocVisitor)
      (n p m : NodeId) (pre ws post : list NodeId) (t : Z)
      (isFirst isLast : bool) :
  m_parent (tree n) = Some p ->
  kindOf tree p = Kind_Para ->
  children (tree p) = pre ++ m :: ws ++ n :: post ->
  ~ List.In n (pre ++ m :: ws) ->
  Forall (fun c => isWhiteSpace tree c = true) ws ->
  isWhiteSpace tree m = false ->
  mustBeOutsideParagraph (tree m) = false ->
  insideStyleChange_OutsidePara tree p (Z.of_nat (List.length pre) - 1)
  = false ->
  getParagraphContext tree p = (t, isFirst, isLast) ->
  isFirst && isLast = false ->
  forceEndParagraph tree v n = v << "</p>".
Proof.
  intros Hp Hk Hcs Hnot Hws Hvis Hm Hstyle Hctx Hfl.
  destruct (forceEndParagraph_skip pre ws post m n Hnot Hws Hvis)
    as [Hlt Hskip].
  unfold forceEndParagraph. rewrite Hp, Hcs, Hk.
  cbv zeta in Hlt, Hskip.
  change (Kind_eqb Kind_Para Kind_Para) with true. cbv iota.
  rewrite Hlt, Hskip.
  unfold mustBeOutsideAt. rewrite at_middle, Hm, andb_false_r.
  now rewrite Hstyle, Hctx, Hfl.
Qed.

(** Inside a run, every must-be-outside node but the first has a
    must-be-outside node as nearest visible sibling in front of it. *)
Lemma forceEndParagraph_inside_run (v : HtmlDocVisitor) (p n r0 : NodeId)
      (pre rest post : list NodeId) :
  children (tree p) = pre ++ r0 :: rest ++ post ->
  NoDup (children (tree p)) ->
  mustBeOutsideParagraph (tree r0) = true ->
  Forall (fun c => isWhiteSpace tree c = true
                   \/ mustBeOutsideParagraph (tree c) = true) rest ->
  List.In n rest ->
  m_parent (tree n) = Some p ->
  forceEndParagraph tree v n = v.
Proof.
  intros Hcs Hdup Hr0 Hrest Hin Hp.
  destruct (in_split _ _ Hin) as (rest1 & rest2 & ->).
  apply Forall_app in Hrest as [Hrest1 _].
  pose proof (lastVisible_split tree (r0 :: rest1)) as Hsplit.
  destruct (lastVisible tree (r0 :: rest1)) as [m|].
  - destruct Hsplit as (pre2 & ws2 & Heq & Hws2 & Hvis).
    assert (Hm : mustBeOutsideParagraph (tree m) = true).
    { assert (Hinm : List.In m (r0 :: rest1))
        by (rewrite Heq; apply in_or_app; right; now left).
      destruct Hinm as [<-|Hinm]; [assumption|].
      rewrite Forall_forall in Hrest1.
      destruct (Hrest1 m Hinm) as [Hw|Ho]; [congruence|assumption]. }
    assert (Hcs' : children (tree p)
                   = (pre ++ pre2) ++ m :: ws2 ++ n :: (rest2 ++ post)).
    { rewrite Hcs.
      change (r0 :: (rest1 ++ n :: rest2) ++ post)
        with ((r0 :: rest1 ++ n :: rest2) ++ post).
      replace (r0 :: rest1 ++ n :: rest2)
        with ((r0 :: rest1) ++ n :: rest2) by reflexivity.
      rewrite Heq. repeat (rewrite <- app_assoc; simpl). reflexivity. }
    apply (forceEndParagraph_after_outside v n p m (pre ++ pre2) ws2
                                           (rest2 ++ post));
      try assumption.
    rewrite Hcs' in Hdup.
    replace ((pre ++ pre2) ++ m :: ws2 ++ n :: rest2 ++ post)
      with (((pre ++ pre2) ++ m :: ws2) ++ n :: (rest2 ++ post)) in Hdup
      by (repeat (rewrite <- app_assoc; simpl); reflexivity).
    apply NoDup_remove_2 in Hdup.
    intros Hbad. apply Hdup. apply in_or_app. now left.
  - apply Forall_inv in Hsplit.
    pose proof (mustBeOutside_not_whiteSpace tree r0 Hr0). congruence.
Qed.

End ForceEnd.

Lemma fold_left_unchanged {A B : Type} (f : A -> B -> A) (l : list B) (a : A) :
  (forall b, List.In b l -> forall a', f a' b = a') ->
  fold_left f l a = a.
Proof.
  induction l as [|b l IH]; intros H; simpl; [reflexivity|].
  rewrite (H b) by now left.
  apply IH. intros b' Hin. apply H. now right.
Qed.

(** In a simple list item the two rules of the run get no close marker
    at all, and neither do two rules that open a paragraph. *)
Lemma forceEndParagraph_run_no_marker :
  (outsideNodes tree_list_item [11; 12; 13]%nat = [11; 13]%nat
   /\ isWhiteSpace tree_list_item 12%nat = true
   /\ closeMarkers
        (m_t (fold_left (forceEndParagraph tree_list_item) [11; 13]%nat
                        visitor0)) = 0%nat)
  /\ (outsideNodes tree_rules_first [10; 11; 12]%nat = [10; 12]%nat
      /\ isWhiteSpace tree_rules_first 11%nat = true
      /\ closeMarkers
           (m_t (fold_left (forceEndParagraph tree_rules_first) [10; 12]%nat
                           visitor0)) = 0%nat).
Proof. repeat split; vm_compute; reflexivity. Qed.

(** C2 (amended): for a node [n] inside a paragraph [p],
    [forceEndParagraph] writes nothing when [n] is the first child of [p],
    or when the nearest sibling in front of [n] that is not whitespace must
    itself be outside a paragraph.  Consequently, in a run of
    must-be-outside nodes separated only by whitespace, only the first
    node of the run can write a close marker: the run gets at most one,
    never one per node.  It gets exactly one when the run follows a
    visible sibling that may stay inside the paragraph, the style scan
    reports no open span there, and the paragraph is not both first and
    last in its context. *)
Theorem forceEndParagraph_once_per_run :
  forall (tree : Store) (p : NodeId),
    (forall v n post,
        m_parent (tree n) = Some p ->
        children (tree p) = n :: post ->
        forceEndParagraph tree v n = v)
    /\ (forall v n pre m ws post,
           m_parent (tree n) = Some p ->
           children (tree p) = pre ++ m :: ws ++ n :: post ->
           ~ List.In n (pre ++ m :: ws) ->
           Forall (fun c => isWhiteSpace tree c = true) ws ->
           mustBeOutsideParagraph (tree m) = true ->
           forceEndParagraph tree v n = v)
    /\ (forall v pre r0 rest post,
           children (tree p) = pre ++ r0 :: rest ++ post ->
           NoDup (children (tree p)) ->
           (forall c, List.In c rest -> m_parent (tree c) = Some p) ->
           mustBeOutsideParagraph (tree r0) = true ->
           Forall (fun c => isWhiteSpace tree c = true
                            \/ mustBeOutsideParagraph (tree c) = true) rest ->
           fold_left (forceEndParagraph tree) (outsideNodes tree (r0 :: rest)) v
           = forceEndParagraph tree v r0
           /\ (forceEndParagraph tree v r0 = v
               \/ forceEndParagraph tree v r0 = v << "</p>"))
    /\ (forall v pre m ws r0 rest post t isFirst isLast,
           kindOf tree p = Kind_Para ->
           children (tree p) = pre ++ m :: ws ++ r0 :: rest ++ post ->
           NoDup (children (tree p)) ->
           (forall c, List.In c (r0 :: rest) -> m_parent (tree c) = Some p) ->
           Forall (fun c => isWhiteSpace tree c = true) ws ->
           isWhiteSpace tree m = false ->
           mustBeOutsideParagraph (tree m) = false ->
           insideStyleChange_OutsidePara tree p
             (Z.of_nat (List.length pre) - 1) = false ->
           getParagraphContext tree p = (t, isFirst, isLast) ->
           isFirst && isLast = false ->
           mustBeOutsideParagraph (tree r0) = true ->
           Forall (fun c => isWhiteSpace tree c = true
                            \/ mustBeOutsideParagraph (tree c) = true) rest ->
           fold_left (forceEndParagraph tree) (outsideNodes tree (r0 :: rest)) v
           = v << "</p>").
Proof.
  intros tree p.
  assert (Hrun : forall v pre r0 rest post,
             children (tree p) = pre ++ r0 :: rest ++ post ->
             NoDup (children (tree p)) ->
             (forall c, List.In c rest -> m_parent (tree c) = Some p) ->
             mustBeOutsideParagraph (tree r0) = true ->
             Forall (fun c => isWhiteSpace tree c = true
                              \/ mustBeOutsideParagraph (tree c) = true) rest ->
             fold_left (forceEndParagraph tree)
                       (outsideNodes tree (r0 :: rest)) v
             = forceEndParagraph tree v r0).
  { intros v pre r0 rest post Hcs Hdup Hpar Hr0 Hrest.
    unfold outsideNodes. simpl. rewrite Hr0. simpl.
    apply fold_left_unchanged.
    intros n Hin v'. apply filter_In in Hin as [Hin _].
    apply (forceEndParagraph_inside_run tree v' p n r0 pre rest post);
      auto. }
  split; [|split; [|split]].
  - intros v n post. apply forceEndParagraph_first_child.
  - intros v n pre m ws post. apply forceEndParagraph_after_outside.
  - intros v pre r0 rest post Hcs Hdup Hpar Hr0 Hrest. split.
    + now apply (Hrun v pre r0 rest post).
    + apply forceEndParagraph_at_most_once.
  - intros v pre m ws r0 rest post t isFirst isLast
           Hk Hcs Hdup Hpar Hws Hvis Hm Hstyle Hctx Hfl Hr0 Hrest.
    rewrite (Hrun v (pre ++ m :: ws) r0 rest post); try assumption.
    + eapply forceEndParagraph_after_inline; eauto.
      * apply Hpar. now left.
      * rewrite Hcs in Hdup.
        replace (pre ++ m :: ws ++ r0 :: rest ++ post)
          with ((pre ++ m :: ws) ++ r0 :: (rest ++ post)) in Hdup
          by (repeat (rewrite <- app_assoc; simpl); reflexivity).
        apply NoDup_remove_2 in Hdup.
        intros Hbad. apply Hdup. apply in_or_app. now left.
    + rewrite Hcs. repeat (rewrite <- app_assoc; simpl). reflexivity.
    + intros c Hc. apply Hpar. now right.
Qed.

Lemma forceEndParagraph_once_per_run_witness :
  m_t (fold_left (forceEndParagraph tree_rules_middle)
                 (outsideNodes tree_rules_middle [12; 13; 14]%nat) visitor0)
  = [Str "</p>"].
Proof.
  destruct (forceEndParagraph_once_per_run tree_rules_middle 1%nat)
    as (_ & _ & _ & Hone).
  refine (f_equal m_t
            (Hone visitor0 [] 10%nat [11%nat] 12%nat [13; 14]%nat [15%nat]
                  0 false false _ _ _ _ _ _ _ _ _ _ _ _)).
  - reflexivity.
  - reflexivity.
  - vm_compute. repeat constructor; simpl; intuition discriminate.
  - intros c [<-|[<-|[<-|[]]]]; reflexivity.
  - repeat constructor.
  - reflexivity.
  - reflexivity.
  - reflexivity.
  - reflexivity.
  - reflexivity.
  - reflexivity.
  - constructor; [now left|]. constructor; [now right|]. constructor.
Defined.

(** With nothing but whitespace in front of a rule, [visitPre] of the
    paragraph writes no open marker (the first visible child must be
    outside), yet [forceEndParagraph] writes a close marker for the rule:
    its walk leaves the whitespace at index -1 and goes on, where
    [forceStartParagraph] returns on whitespace only. *)
Remark forceEndParagraph_after_leading_whitespace :
  m_t (visitPre_DocPara tree_space_rule visitor0 1%nat) = []
  /\ m_t (forceEndParagraph tree_space_rule visitor0 11%nat) = [Str "</p>"].
Proof. split; reflexivity. Qed.

(** ** Paragraph markers when the context says first and last *)

Section FirstAndLast.

Variable tree : Store.

Lemma first_and_last_visitPre (v : HtmlDocVisitor) (p : NodeId) (t : Z) :
  getParagraphContext tree p = (t, true, true) ->
  visitPre_DocPara tree v p = v.
Proof.
  intros H. unfold visitPre_DocPara. rewrite H.
  destruct (m_hide v); reflexivity.
Qed.

Lemma first_and_last_visitPost (v : HtmlDocVisitor) (p : NodeId) (t : Z) :
  getParagraphContext tree p = (t, true, true) ->
  visitPost_DocPara tree v p = v.
Proof.
  intros H. unfold visitPost_DocPara. rewrite H. reflexivity.
Qed.

Lemma first_and_last_forceEnd (v : HtmlDocVisitor) (p n : NodeId) (t : Z) :
  getParagraphContext tree p = (t, true, true) ->
  m_parent (tree n) = Some p ->
  forceEndParagraph tree v n = v.
Proof.
  intros H Hp. unfold forceEndParagraph. rewrite Hp, H.
  destruct (Kind_eqb _ _); [|reflexivity].
  destruct (_ <? 0); [reflexivity|].
  destruct (_ && _); reflexivity.
Qed.

Lemma first_and_last_forceStart (v : HtmlDocVisitor) (p n : NodeId) (t : Z) :
  getParagraphContext tree p = (t, true, true) ->
  m_parent (tree n) = Some p ->
  forceStartParagraph tree v n = v.
Proof.
  intros H Hp. unfold forceStartParagraph. rewrite Hp, H.
  destruct (Kind_eqb _ _); [|reflexivity].
  destruct (insideStyleChange_OutsidePara _ _ _); [reflexivity|].
  destruct (_ =? _); [reflexivity|].
  destruct (_ <? _); [|reflexivity].
  destruct (mustBeOutsideAt _ _ _); reflexivity.
Qed.

End FirstAndLast.

(** C4: when [getParagraphContext] reports a paragraph as both the first
    and the last child of its structural ancestor, no paragraph marker is
    written: [visitPre] and [visitPost] of the paragraph write nothing, and
    [forceEndParagraph] / [forceStartParagraph] write nothing for any child
    of that paragraph. *)
Theorem first_and_last_no_markers :
  forall (tree : Store) (p : NodeId) (t : Z),
    getParagraphContext tree p = (t, true, true) ->
    (forall v, visitPre_DocPara tree v p = v)
    /\ (forall v, visitPost_DocPara tree v p = v)
    /\ (forall v n,
           m_parent (tree n) = Some p ->
           forceEndParagraph tree v n = v
           /\ forceStartParagraph tree v n = v).
Proof.
  intros tree p t H. split; [|split].
  - intros v. now apply first_and_last_visitPre with t.
  - intros v. now apply first_and_last_visitPost with t.
  - intros v n Hp. split.
    + now apply first_and_last_forceEnd with p t.
    + now apply first_and_last_forceStart with p t.
Qed.

Lemma first_and_last_no_markers_witness :
  visitPre_DocPara tree_list_item visitor0 4%nat = visitor0
  /\ visitPost_DocPara tree_list_item visitor0 4%nat = visitor0
  /\ forceEndParagraph tree_list_item visitor0 11%nat = visitor0
  /\ forceStartParagraph tree_list_item visitor0 11%nat = visitor0.
Proof.
  destruct (first_and_last_no_markers tree_list_item 4%nat 1 eq_refl)
    as (Hpre & Hpost & Hforce).
  split; [apply Hpre|]. split; [apply Hpost|].
  apply Hforce. reflexivity.
Defined.

(** ** Paragraphs next to a simple-section separator *)

Section Separated.

Variable tree : Store.

Lemma isSeparatedParagraph_first (s p q : NodeId) (rest : list NodeId) :
  children (tree s) = p :: q :: rest ->
  kindOf tree q = Kind_SimpleSectSep ->
  isSeparatedParagraph tree s p = true.
Proof.
  intros Hcs Hq. unfold isSeparatedParagraph. rewrite Hcs.
  unfold indexOf. simpl indexOf_from. rewrite Nat.eqb_refl.
  change (0 =? -1) with false. cbv iota.
  assert (Hc : (1 <? count (p :: q :: rest)) = true)
    by (apply Z.ltb_lt; unfold count; simpl List.length; lia).
  rewrite Hc. change (0 =? 0) with true. cbn [andb].
  change (0 + 1) with (Z.of_nat (List.length [p])).
  change (p :: q :: rest) with ([p] ++ q :: rest).
  rewrite kindAtIs_middle, Hq. reflexivity.
Qed.

Lemma isSeparatedParagraph_last (s p q : NodeId) (pre : list NodeId) :
  children (tree s) = pre ++ [q; p] ->
  ~ List.In p (pre ++ [q]) ->
  kindOf tree q = Kind_SimpleSectSep ->
  isSeparatedParagraph tree s p = true.
Proof.
  intros Hcs Hnot Hq. unfold isSeparatedParagraph. rewrite Hcs.
  replace (pre ++ [q; p]) with ((pre ++ [q]) ++ p :: [])
    by (rewrite <- app_assoc; reflexivity).
  rewrite indexOf_middle by assumption.
  assert (Hlen : count ((pre ++ [q]) ++ [p])
                 = Z.of_nat (List.length (pre ++ [q])) + 1)
    by (unfold count; rewrite length_app; simpl; lia).
  assert (Hpos : 0 < Z.of_nat (List.length (pre ++ [q])))
    by (rewrite length_app; simpl; lia).
  rewrite Hlen.
  destruct (Z.eqb_spec (Z.of_nat (List.length (pre ++ [q]))) (-1)); [lia|].
  destruct (Z.ltb_spec 1 (Z.of_nat (List.length (pre ++ [q])) + 1)); [|lia].
  destruct (Z.eqb_spec (Z.of_nat (List.length (pre ++ [q]))) 0); [lia|].
  cbn [andb].
  destruct (Z.eqb_spec (Z.of_nat (List.length (pre ++ [q])))
                       (Z.of_nat (List.length (pre ++ [q])) + 1 - 1)); [|lia].
  replace (Z.of_nat (List.length (pre ++ [q])) - 1)
    with (Z.of_nat (List.length pre))
    by (rewrite length_app; simpl; lia).
  replace ((pre ++ [q]) ++ [p]) with (pre ++ q :: [p])
    by (rewrite <- app_assoc; reflexivity).
  rewrite kindAtIs_middle, Hq. reflexivity.
Qed.

Lemma isSeparatedParagraph_between (s p q1 q2 : NodeId)
      (pre post : list NodeId) :
  children (tree s) = pre ++ q1 :: p :: q2 :: post ->
  ~ List.In p (pre ++ [q1]) ->
  kindOf tree q1 = Kind_SimpleSectSep ->
  kindOf tree q2 = Kind_SimpleSectSep ->
  isSeparatedParagraph tree s p = true.
Proof.
  intros Hcs Hnot Hq1 Hq2. unfold isSeparatedParagraph. rewrite Hcs.
  replace (pre ++ q1 :: p :: q2 :: post)
    with ((pre ++ [q1]) ++ p :: q2 :: post)
    by (rewrite <- app_assoc; reflexivity).
  rewrite indexOf_middle by assumption.
  set (i := Z.of_nat (List.length (pre ++ [q1]))).
  assert (Hi : i = Z.of_nat (List.length pre) + 1)
    by (unfold i; rewrite length_app; simpl; lia).
  assert (Hlen : count ((pre ++ [q1]) ++ p :: q2 :: post)
                 = i + 2 + Z.of_nat (List.length post))
    by (unfold count, i; rewrite !length_app; simpl; lia).
  rewrite Hlen.
  destruct (Z.eqb_spec i (-1)); [lia|].
  destruct (Z.eqb_spec i 0); [lia|].
  rewrite andb_false_r.
  destruct (Z.eqb_spec i (i + 2 + Z.of_nat (List.length post) - 1)); [lia|].
  rewrite andb_false_r.
  destruct (Z.ltb_spec 2 (i + 2 + Z.of_nat (List.length post))); [|lia].
  destruct (Z.ltb_spec 0 i); [|lia].
  destruct (Z.ltb_spec i (i + 2 + Z.of_nat (List.length post) - 1)); [|lia].
  cbn [andb].
  replace (i - 1) with (Z.of_nat (List.length pre)) by lia.
  replace (i + 1) with (Z.of_nat (List.length (pre ++ [q1; p])))
    by (rewrite Hi, length_app; simpl; lia).
  replace ((pre ++ [q1]) ++ p :: q2 :: post)
    with (pre ++ q1 :: p :: q2 :: post)
    by (rewrite <- app_assoc; reflexivity).
  rewrite kindAtIs_middle, Hq1.
  replace (pre ++ q1 :: p :: q2 :: post)
    with ((pre ++ [q1; p]) ++ q2 :: post)
    by (rewrite <- app_assoc; reflexivity).
  rewrite kindAtIs_middle, Hq2. reflexivity.
Qed.

Lemma separated_context (s p : NodeId) :
  m_parent (tree p) = Some s ->
  kindOf tree s = Kind_SimpleSect ->
  isSeparatedParagraph tree s p = true ->
  exists t, getParagraphContext tree p = (t, true, true).
Proof.
  intros Hp Hk Hsep. unfold getParagraphContext.
  rewrite Hp, Hk, Hsep. eexists. reflexivity.
Qed.

End Separated.

(** C10: a paragraph of a simple section that is the first child with a
    separator right after it, or the last child with a separator right
    before it, or a child with separators on both sides, is reported by
    [getParagraphContext] as both first and last, and no paragraph open or
    close marker is written for it. *)
Theorem separated_paragraph_no_markers :
  forall (tree : Store) (s p : NodeId),
    m_parent (tree p) = Some s ->
    kindOf tree s = Kind_SimpleSect ->
    ((exists q rest,
         children (tree s) = p :: q :: rest
         /\ kindOf tree q = Kind_SimpleSectSep)
     \/ (exists pre q,
            children (tree s) = pre ++ [q; p]
            /\ ~ List.In p (pre ++ [q])
            /\ kindOf tree q = Kind_SimpleSectSep)
     \/ (exists pre q1 q2 post,
            children (tree s) = pre ++ q1 :: p :: q2 :: post
            /\ ~ List.In p (pre ++ [q1])
            /\ kindOf tree q1 = Kind_SimpleSectSep
            /\ kindOf tree q2 = Kind_SimpleSectSep)) ->
    (exists t, getParagraphContext tree p = (t, true, true))
    /\ (forall v, visitPre_DocPara tree v p = v)
    /\ (forall v, visitPost_DocPara tree v p = v).
Proof.
  intros tree s p Hp Hk Hpos.
  assert (Hsep : isSeparatedParagraph tree s p = true).
  { destruct Hpos as [(q & rest & Hcs & Hq)
                     |[(pre & q & Hcs & Hnot & Hq)
                      |(pre & q1 & q2 & post & Hcs & Hnot & Hq1 & Hq2)]].
    - eapply isSeparatedParagraph_first; eauto.
    - eapply isSeparatedParagraph_last; eauto.
    - eapply isSeparatedParagraph_between; eauto. }
  destruct (separated_context tree s p Hp Hk Hsep) as [t Ht].
  split; [now exists t|]. split; intros v.
  - now apply first_and_last_visitPre with t.
  - now apply first_and_last_visitPost with t.
Qed.

Lemma separated_paragraph_no_markers_witness :
  getParagraphContext tree_notes 22%nat = (0, true, true)
  /\ visitPre_DocPara tree_notes visitor0 22%nat = visitor0
  /\ visitPost_DocPara tree_notes visitor0 22%nat = visitor0.
Proof.
  destruct (separated_paragraph_no_markers tree_notes 2%nat 22%nat
              eq_refl eq_refl) as (_ & Hpre & Hpost).
  - right; right. exists [20%nat], 21%nat, 23%nat, [24%nat].
    repeat split; simpl; intuition discriminate.
  - split; [reflexivity|]. split; [apply Hpre | apply Hpost].
Defined.

(** ** Paragraphs under the root and the single-line flag *)

Section Visible.

Variable tree : Store.

(** The forward walk of [visitPre] ends on the first visible child. *)
Lemma skipWhiteSpace_fwd_visible (cs pre : list NodeId) (extra : nat) :
  let j := skipWhiteSpace_fwd tree (pre ++ cs) (List.length cs + extra)
                              (Z.of_nat (List.length pre)) in
  (j <? count (pre ++ cs)) && mustBeOutsideAt tree (pre ++ cs) j
  = isOutside tree (firstVisible tree cs).
Proof.
  revert pre. induction cs as [|x cs IH]; intros pre; cbv zeta.
  - rewrite app_nil_r.
    assert (Hj : skipWhiteSpace_fwd tree pre (List.length (@nil NodeId) + extra)
                                    (Z.of_nat (List.length pre))
                 = Z.of_nat (List.length pre)).
    { destruct extra; simpl; [reflexivity|].
      fold (count pre). now rewrite Z.ltb_irrefl. }
    rewrite Hj. fold (count pre). now rewrite Z.ltb_irrefl.
  - simpl List.length. cbn [Nat.add skipWhiteSpace_fwd].
    assert (Hlt : (Z.of_nat (List.length pre) <? count (pre ++ x :: cs))
                  = true)
      by (apply Z.ltb_lt; unfold count; rewrite length_app; simpl; lia).
    rewrite Hlt, kindAtIs_middle. cbn [andb].
    unfold firstVisible. simpl find. unfold isWhiteSpace at 1.
    destruct (Kind_eqb (kindOf tree x) Kind_WhiteSpace) eqn:Hx; simpl negb;
      cbv iota.
    + replace (pre ++ x :: cs) with ((pre ++ [x]) ++ cs)
        by (rewrite <- app_assoc; reflexivity).
      replace (Z.of_nat (List.length pre) + 1)
        with (Z.of_nat (List.length (pre ++ [x])))
        by (rewrite length_app; simpl; lia).
      apply IH.
    + rewrite Hlt. unfold mustBeOutsideAt. rewrite at_middle. reflexivity.
Qed.

(** The backward walk of [visitPost] ends on the last visible child. *)
Lemma skipWhiteSpace_back_visible (pre suf : list NodeId) (extra : nat) :
  let j := skipWhiteSpace_back tree (pre ++ suf) (List.length pre + extra)
                               (Z.of_nat (List.length pre) - 1) in
  (0 <=? j) && mustBeOutsideAt tree (pre ++ suf) j
  = isOutside tree (lastVisible tree pre).
Proof.
  cbv zeta. pose proof (lastVisible_split tree pre) as Hsplit.
  destruct (lastVisible tree pre) as [m|].
  - destruct Hsplit as (pre' & ws & -> & Hws & Hvis).
    replace ((pre' ++ m :: ws) ++ suf) with (pre' ++ m :: ws ++ suf)
      by (rewrite <- app_assoc; reflexivity).
    replace (List.length (pre' ++ m :: ws) + extra)%nat
      with (Datatypes.S (List.length ws) + (List.length pre' + extra))%nat
      by (rewrite length_app; simpl; lia).
    replace (Z.of_nat (List.length (pre' ++ m :: ws)) - 1)
      with (Z.of_nat (List.length pre' + List.length ws))
      by (rewrite length_app; simpl; lia).
    rewrite skipWhiteSpace_back_run by assumption.
    unfold mustBeOutsideAt. rewrite at_middle. simpl.
    destruct (Z.leb_spec 0 (Z.of_nat (List.length pre'))); [reflexivity|lia].
  - rewrite skipWhiteSpace_back_all by assumption. reflexivity.
Qed.

Lemma root_context (p root : NodeId) :
  m_parent (tree p) = Some root ->
  kindOf tree root = Kind_Root ->
  getParagraphContext tree p = (0, false, false).
Proof.
  intros Hp Hk. unfold getParagraphContext. now rewrite Hp, Hk.
Qed.

Lemma visitPre_DocPara_root (v : HtmlDocVisitor) (p root : NodeId) :
  m_parent (tree p) = Some root ->
  kindOf tree root = Kind_Root ->
  visitPre_DocPara tree v p
  = if m_hide v
       || singleLine (tree root)
       || isOutside tree (firstVisible tree (children (tree p)))
    then v
    else v << "<p" << EmptyString << ">".
Proof.
  intros Hp Hk. unfold visitPre_DocPara.
  rewrite (root_context p root Hp Hk).
  destruct (m_hide v); [reflexivity|]. cbn [orb andb].
  unfold needsTag_of_parent. rewrite Hp, Hk.
  pose proof (skipWhiteSpace_fwd_visible (children (tree p)) [] 0) as Hskip.
  cbv zeta in Hskip. simpl app in Hskip. simpl List.length in Hskip.
  rewrite Nat.add_0_r in Hskip.
  change (Z.of_nat 0) with 0 in Hskip.
  replace (Z.to_nat (count (children (tree p)) - 0))
    with (List.length (children (tree p))) by (unfold count; lia).
  destruct (Z.ltb_spec 0 (count (children (tree p)))) as [Hlt|Hge].
  - rewrite Hskip.
    destruct (singleLine (tree root)),
             (isOutside tree (firstVisible tree (children (tree p))));
      reflexivity.
  - destruct (children (tree p)) as [|c cs] eqn:Hcs.
    + simpl. destruct (singleLine (tree root)); reflexivity.
    + unfold count in Hge. cbn [List.length] in Hge. lia.
Qed.

Lemma visitPost_DocPara_root (v : HtmlDocVisitor) (p root : NodeId) :
  m_parent (tree p) = Some root ->
  kindOf tree root = Kind_Root ->
  visitPost_DocPara tree v p
  = if singleLine (tree root)
       || isOutside tree (lastVisible tree (children (tree p)))
    then v
    else v << ("</p>" ++ nl)%string.
Proof.
  intros Hp Hk. unfold visitPost_DocPara.
  rewrite (root_context p root Hp Hk). cbn [andb].
  unfold needsTag_of_parent. rewrite Hp, Hk.
  pose proof (skipWhiteSpace_back_visible (children (tree p)) [] 0) as Hskip.
  cbv zeta in Hskip. rewrite app_nil_r, Nat.add_0_r in Hskip.
  replace (Z.to_nat (count (children (tree p)) - 1 + 1))
    with (List.length (children (tree p))) by (unfold count; lia).
  fold (count (children (tree p))) in Hskip.
  destruct (Z.leb_spec 0 (count (children (tree p)) - 1)) as [Hle|Hgt].
  - rewrite Hskip.
    destruct (singleLine (tree root)),
             (isOutside tree (lastVisible tree (children (tree p))));
      reflexivity.
  - destruct (children (tree p)) as [|c cs] eqn:Hcs.
    + simpl. destruct (singleLine (tree root)); reflexivity.
    + unfold count in Hgt. cbn [List.length] in Hgt. lia.
Qed.

End Visible.

(** C9: for a paragraph that is a direct child of the root, a set
    single-line flag means [visitPre] and [visitPost] write no paragraph
    marker.  With the flag unset the paragraph gets its markers, subject
    to the other rules: [visitPre] writes the open marker unless the
    visitor is hidden or the first visible child must be outside a
    paragraph, and [visitPost] writes the close marker unless the last
    visible child must be outside a paragraph. *)
Theorem root_paragraph_singleLine :
  forall (tree : Store) (p root : NodeId) (indent sl : bool)
         (cs : list NodeId),
    m_parent (tree p) = Some root ->
    body (tree root) = CompAccept (DocRoot indent sl) cs ->
    (sl = true ->
     forall v, visitPre_DocPara tree v p = v
               /\ visitPost_DocPara tree v p = v)
    /\ (sl = false ->
        forall v,
          visitPre_DocPara tree v p
          = (if m_hide v
                || isOutside tree (firstVisible tree (children (tree p)))
             then v
             else v << "<p" << EmptyString << ">")
          /\ visitPost_DocPara tree v p
             = (if isOutside tree (lastVisible tree (children (tree p)))
                then v
                else v << ("</p>" ++ nl)%string)).
Proof.
  intros tree p root indent sl cs Hp Hb.
  assert (Hk : kindOf tree root = Kind_Root)
    by (unfold kindOf, kind; now rewrite Hb).
  assert (Hsl : singleLine (tree root) = sl)
    by (unfold singleLine; now rewrite Hb).
  split; intros -> v;
    rewrite (visitPre_DocPara_root tree v p root Hp Hk),
            (visitPost_DocPara_root tree v p root Hp Hk), Hsl.
  - split; [now rewrite orb_true_r | reflexivity].
  - split; [now rewrite orb_false_r | reflexivity].
Qed.

Lemma root_paragraph_singleLine_witness :
  (m_t (visitPre_DocPara (tree_brief true) visitor0 1%nat) = []
   /\ m_t (visitPost_DocPara (tree_brief true) visitor0 1%nat) = [])
  /\ (m_t (visitPre_DocPara (tree_brief false) visitor0 1%nat)
      = [Str "<p"; Str EmptyString; Str ">"]
      /\ m_t (visitPost_DocPara (tree_brief false) visitor0 1%nat)
         = [Str ("</p>" ++ nl)%string]).
Proof.
  destruct (root_paragraph_singleLine (tree_brief true) 1%nat 0%nat
              false true [1%nat] eq_refl eq_refl) as [Hset _].
  destruct (root_paragraph_singleLine (tree_brief false) 1%nat 0%nat
              false false [1%nat] eq_refl eq_refl) as [_ Hunset].
  destruct (Hset eq_refl visitor0) as [Hpre1 Hpost1].
  destruct (Hunset eq_refl visitor0) as [Hpre0 Hpost0].
  rewrite Hpre1, Hpost1, Hpre0, Hpost0.
  repeat split; reflexivity.
Defined.

(** ** List-type markers of auto lists *)

Lemma types_at_mod (depth : Z) :
  0 <= depth ->
  types_at (Z.rem depth NUM_HTML_LIST_TYPES) = Some (listTypeMarker depth).
Proof.
  intros Hd. unfold NUM_HTML_LIST_TYPES, listTypeMarker.
  rewrite Z.rem_mod_nonneg by lia.
  pose proof (Z.mod_pos_bound depth 4 ltac:(lia)) as Hb.
  assert (Hcases : depth mod 4 = 0 \/ depth mod 4 = 1
                   \/ depth mod 4 = 2 \/ depth mod 4 = 3) by lia.
  destruct Hcases as [-> | [-> | [-> | ->]]]; reflexivity.
Qed.

(** C8: entering an enumerated auto list writes the list-type marker
    picked by the nesting depth modulo four, in the order "1", "a", "i",
    "A" (so depth [d + 4] gets the marker of depth [d]); entering an
    unordered auto list writes the plain unordered tag. *)
Theorem visitPre_DocAutoList_marker :
  forall (tree : Store) (v : HtmlDocVisitor) (l : NodeId)
         (indent depth : Z) (isEnumList : bool) (cs : list NodeId),
    body (tree l) = CompAccept (DocAutoList indent isEnumList depth) cs ->
    m_hide v = false ->
    0 <= depth ->
    visitPre_DocAutoList tree v l
    = Some (newline_unless_pre tree
              (if isEnumList
               then forceEndParagraph tree v l
                      << ("<ol type=" ++ dquote)%string
                      << listTypeMarker depth
                      << (dquote ++ ">")%string
               else forceEndParagraph tree v l << "<ul>")
              l)
    /\ listTypeMarker (depth + 4) = listTypeMarker depth
    /\ (listTypeMarker 0 = "1" /\ listTypeMarker 1 = "a"
        /\ listTypeMarker 2 = "i" /\ listTypeMarker 3 = "A")%string.
Proof.
  intros tree v l indent depth isEnumList cs Hb Hhide Hd.
  split; [|split].
  - unfold visitPre_DocAutoList. rewrite Hb, Hhide.
    destruct isEnumList; [|reflexivity].
    now rewrite types_at_mod.
  - unfold listTypeMarker.
    replace (depth + 4) with (depth + 1 * 4) by lia.
    now rewrite Z.mod_add by lia.
  - repeat split; reflexivity.
Qed.

Lemma visitPre_DocAutoList_marker_witness :
  option_map m_t (visitPre_DocAutoList tree_lists visitor0 2%nat)
  = Some [Str ("<ol type=" ++ dquote)%string; Str "i";
          Str (dquote ++ ">")%string; Str nl]
  /\ option_map m_t (visitPre_DocAutoList tree_lists visitor0 3%nat)
     = Some [Str "<ul>"; Str nl].
Proof.
  destruct (visitPre_DocAutoList_marker tree_lists visitor0 2%nat 12 6 true []
              eq_refl eq_refl ltac:(lia)) as [Hol _].
  destruct (visitPre_DocAutoList_marker tree_lists visitor0 3%nat 6 3 false []
              eq_refl eq_refl ltac:(lia)) as [Hul _].
  rewrite Hol, Hul. split; reflexivity.
Defined.

(** ** Columns of a parameter row *)

Section ParamRow.

Variable tree : Store.

Lemma filter_out (v : HtmlDocVisitor) (str : string) :
  m_t (filter v str) = m_t v ++ filterChunks str
  /\ m_hide (filter v str) = m_hide v.
Proof.
  destruct str; simpl; [now rewrite app_nil_r|]. split; reflexivity.
Qed.

Lemma writeWords_out (sep : string) (ws : list NodeId) :
  forall (v : HtmlDocVisitor) (first : bool),
    m_hide v = false ->
    m_t (fst (writeWords tree sep ws (v, first)))
    = m_t v ++ wordChunks tree sep ws first
    /\ m_hide (fst (writeWords tree sep ws (v, first))) = false.
Proof.
  induction ws as [|w ws IH]; intros v first Hhide.
  - simpl. now rewrite app_nil_r.
  - cbn [writeWords wordChunks].
    set (v1 := if negb first then v << sep else v).
    assert (H1 : m_t v1 = m_t v ++ (if first then [] else [Str sep])
                 /\ m_hide v1 = false).
    { unfold v1. destruct first; simpl; [now rewrite app_nil_r|]. now split. }
    destruct H1 as [Ht1 Hh1].
    set (v2 := if Kind_eqb (kindOf tree w) Kind_Word
               then visit_DocWord tree v1 w
               else if Kind_eqb (kindOf tree w) Kind_LinkedWord
                    then visit_DocLinkedWord tree v1 w
                    else v1).
    assert (H2 : m_t v2
                 = m_t v1
                   ++ (if Kind_eqb (kindOf tree w) Kind_Word
                       then filterChunks (word (tree w))
                       else if Kind_eqb (kindOf tree w) Kind_LinkedWord
                            then StartLink w
                                   :: filterChunks (word (tree w))
                                   ++ [Str "</a>"]
                            else [])
                 /\ m_hide v2 = false).
    { unfold v2, visit_DocWord, visit_DocLinkedWord. rewrite Hh1.
      destruct (Kind_eqb (kindOf tree w) Kind_Word).
      - destruct (filter_out v1 (word (tree w))) as [Ht Hh].
        now rewrite Ht, Hh.
      - destruct (Kind_eqb (kindOf tree w) Kind_LinkedWord).
        + destruct (filter_out (put v1 (StartLink w)) (word (tree w)))
            as [Ht Hh].
          simpl. rewrite Ht, Hh. simpl.
          repeat (rewrite <- app_assoc; simpl). now split.
        + now rewrite app_nil_r. }
    destruct H2 as [Ht2 Hh2].
    destruct (IH v2 false Hh2) as [Ht Hh].
    rewrite Ht, Ht2, Ht1. split; [|assumption].
    now rewrite <- !app_assoc.
Qed.

(** The chunks of the words are separators, filtered text and links. *)
Lemma wordChunks_shape (sep : string) (ws : list NodeId) (first : bool)
      (c : Chunk) :
  List.In c (wordChunks tree sep ws first) ->
  c = Str sep \/ c = Str "</a>"
  \/ (exists s, c = Filter s) \/ (exists w, c = StartLink w).
Proof.
  revert first. induction ws as [|w ws IH]; intros first Hin; [destruct Hin|].
  cbn [wordChunks] in Hin.
  apply in_app_or in Hin as [Hin|Hin].
  - destruct first; [destruct Hin|]. destruct Hin as [<-|[]]. now left.
  - apply in_app_or in Hin as [Hin|Hin]; [|now apply IH in Hin].
    assert (Hf : forall s, List.In c (filterChunks s) -> exists s', c = Filter s').
    { intros s Hs. destruct s; [destruct Hs|].
      destruct Hs as [<-|[]]. eauto. }
    destruct (Kind_eqb (kindOf tree w) Kind_Word).
    + right; right; left. eapply Hf; eauto.
    + destruct (Kind_eqb (kindOf tree w) Kind_LinkedWord); [|destruct Hin].
      destruct Hin as [<-|Hin]; [right; right; right; eauto|].
      apply in_app_or in Hin as [Hin|[<-|[]]].
      * right; right; left. eapply Hf; eauto.
      * right; now left.
Qed.

Lemma visitPre_DocParamList_out (v : HtmlDocVisitor) (pl s : NodeId)
      (ty : DocParamSect.Type_) (dir : DocParamSect.Direction)
      (paragraphs params paramTypes : list NodeId) :
  body (tree pl) = DocParamList ty dir paragraphs params paramTypes ->
  m_parent (tree pl) = Some s ->
  kindOf tree s = Kind_ParamSect ->
  m_hide v = false ->
  option_map m_t (visitPre_DocParamList tree v pl)
  = Some (m_t v
            ++ Str "    <tr>"
            :: (if hasInOutSpecifier (tree s) then directionCell dir else [])
            ++ (if hasTypeSpecifier (tree s)
                then typeCell tree paramTypes else [])
            ++ nameCell tree params
            ++ [Str "</td><td>"]).
Proof.
  intros Hb Hp Hk Hhide.
  unfold visitPre_DocParamList. rewrite Hb, Hhide, Hp, Hk.
  change (Kind_eqb Kind_ParamSect Kind_ParamSect) with true. cbv iota.
  simpl option_map. f_equal.
  set (v0 := v << "    <tr>").
  set (v1 := if hasInOutSpecifier (tree s) then writeParamDir v0 dir else v0).
  assert (H1 : m_t v1
               = m_t v0 ++ (if hasInOutSpecifier (tree s)
                            then directionCell dir else [])
               /\ m_hide v1 = false).
  { unfold v1. destruct (hasInOutSpecifier (tree s)).
    - unfold writeParamDir, directionCell.
      destruct dir; simpl; repeat (rewrite <- app_assoc; simpl); now split.
    - now rewrite app_nil_r. }
  destruct H1 as [Ht1 Hh1].
  set (v2 := if hasTypeSpecifier (tree s)
             then fst (writeWords tree "&#160;|&#160;" paramTypes
                                  (v1 << td_open "paramtype", true))
                    << "</td>"
             else v1).
  assert (H2 : m_t v2
               = m_t v1 ++ (if hasTypeSpecifier (tree s)
                            then typeCell tree paramTypes else [])
               /\ m_hide v2 = false).
  { unfold v2. destruct (hasTypeSpecifier (tree s)).
    - destruct (writeWords_out "&#160;|&#160;" paramTypes
                               (v1 << td_open "paramtype") true Hh1)
        as [Ht Hh].
      simpl. rewrite Ht, Hh. simpl. unfold typeCell.
      repeat (rewrite <- app_assoc; simpl). now split.
    - now rewrite app_nil_r. }
  destruct H2 as [Ht2 Hh2].
  destruct (writeWords_out "," params (v2 << td_open "paramname") true Hh2)
    as [Ht Hh].
  simpl. rewrite Ht. simpl. rewrite Ht2, Ht1. unfold nameCell, v0. simpl.
  repeat (rewrite <- app_assoc; simpl). reflexivity.
Qed.

End ParamRow.

Lemma Str_inj (a b : string) : Str a = Str b -> a = b.
Proof. intros H. now injection H. Qed.

Lemma td_open_not_in_words (tree : Store) (cls sep : string)
      (ws : list NodeId) (first : bool) :
  td_open cls <> sep ->
  ~ List.In (Str (td_open cls)) (wordChunks tree sep ws first).
Proof.
  intros Hsep Hin. apply wordChunks_shape in Hin.
  destruct Hin as [H|[H|[[s H]|[w H]]]]; try discriminate H.
  injection H as H. contradiction.
Qed.

(** C6: a rendered parameter row has a direction cell exactly when the
    enclosing parameter section has its [hasInOutSpecifier] flag set (a
    row whose own direction is unspecified gets an empty cell), and a
    type cell exactly when the section has its [hasTypeSpecifier] flag
    set: the columns are decided by the section, not by the row. *)
Theorem visitPre_DocParamList_columns :
  forall (tree : Store) (v : HtmlDocVisitor) (pl s : NodeId)
         (ty sty : DocParamSect.Type_) (dir : DocParamSect.Direction)
         (paragraphs params paramTypes scs : list NodeId) (io tp : bool),
    body (tree pl) = DocParamList ty dir paragraphs params paramTypes ->
    m_parent (tree pl) = Some s ->
    body (tree s) = CompAccept (DocParamSect sty io tp) scs ->
    m_hide v = false ->
    exists out,
      option_map m_t (visitPre_DocParamList tree v pl) = Some (m_t v ++ out)
      /\ out = Str "    <tr>"
                 :: (if io then directionCell dir else [])
                 ++ (if tp then typeCell tree paramTypes else [])
                 ++ nameCell tree params
                 ++ [Str "</td><td>"]
      /\ (List.In (Str (td_open "paramdir")) out <-> io = true)
      /\ (List.In (Str (td_open "paramtype")) out <-> tp = true)
      /\ directionCell DocParamSect.Unspecified
         = [Str (td_open "paramdir"); Str "</td>"].
Proof.
  intros tree v pl s ty sty dir paragraphs params paramTypes scs io tp
         Hb Hp Hs Hhide.
  assert (Hk : kindOf tree s = Kind_ParamSect)
    by (unfold kindOf, kind; now rewrite Hs).
  assert (Hio : hasInOutSpecifier (tree s) = io)
    by (unfold hasInOutSpecifier; now rewrite Hs).
  assert (Htp : hasTypeSpecifier (tree s) = tp)
    by (unfold hasTypeSpecifier; now rewrite Hs).
  eexists. split; [|split; [reflexivity|]].
  - rewrite (visitPre_DocParamList_out tree v pl s ty dir paragraphs params
                                       paramTypes Hb Hp Hk Hhide).
    now rewrite Hio, Htp.
  - assert (Hname : forall cls,
               td_open cls <> td_open "paramname" ->
               td_open cls <> "," ->
               ~ List.In (Str (td_open cls))
                 (nameCell tree params ++ [Str "</td><td>"])).
    { intros cls H1 H2 Hin. apply in_app_or in Hin as [Hin|Hin].
      - destruct Hin as [H|Hin].
        + apply H1. symmetry. now apply Str_inj.
        + now apply td_open_not_in_words in Hin.
      - destruct Hin as [H|[]]. injection H as H.
        unfold td_open in H. simpl in H. discriminate H. }
    assert (Hdir : forall cls d,
               td_open cls <> td_open "paramdir" ->
               ~ List.In (Str (td_open cls)) (directionCell d)).
    { intros cls d H1 Hin. destruct Hin as [H|Hin].
      - apply H1. symmetry. now apply Str_inj.
      - unfold td_open in Hin.
        destruct d; simpl in Hin; intuition discriminate. }
    assert (Htype : forall cls,
               td_open cls <> td_open "paramtype" ->
               td_open cls <> "&#160;|&#160;" ->
               ~ List.In (Str (td_open cls)) (typeCell tree paramTypes)).
    { intros cls H1 H2 Hin. destruct Hin as [H|Hin].
      - apply H1. symmetry. now apply Str_inj.
      - apply in_app_or in Hin as [Hin|Hin].
        + now apply td_open_not_in_words in Hin.
        + destruct Hin as [H|[]]. injection H as H.
          unfold td_open in H. simpl in H. discriminate H. }
    split; [|split; [|reflexivity]].
    + split.
      * intros [H|Hin]; [discriminate H|].
        destruct io; [reflexivity|]. exfalso. simpl in Hin.
        apply in_app_or in Hin as [Hin|Hin].
        -- destruct tp; [|destruct Hin].
           revert Hin. apply Htype; vm_compute; discriminate.
        -- revert Hin. apply Hname; vm_compute; discriminate.
      * intros ->. right. apply in_or_app. left. now left.
    + split.
      * intros [H|Hin]; [discriminate H|].
        destruct tp; [reflexivity|]. exfalso.
        apply in_app_or in Hin as [Hin|Hin].
        -- destruct io; [|destruct Hin].
           revert Hin. apply Hdir; vm_compute; discriminate.
        -- simpl in Hin.
           revert Hin. apply Hname; vm_compute; discriminate.
      * intros ->. right. apply in_or_app. right.
        apply in_or_app. left. now left.
Qed.

Lemma visitPre_DocParamList_columns_witness :
  option_map m_t (visitPre_DocParamList tree_params visitor0 4%nat)
  = Some [Str "    <tr>"; Str (td_open "paramdir"); Str "</td>";
          Str (td_open "paramname"); Filter "len"; Str "</td><td>"].
Proof.
  destruct (visitPre_DocParamList_columns
              tree_params visitor0 4%nat 2%nat
              DocParamSect.Param DocParamSect.Param DocParamSect.Unspecified
              [] [31%nat] [] [3; 4]%nat true false
              eq_refl eq_refl eq_refl eq_refl)
    as (out & Hout & -> & _).
  rewrite Hout. reflexivity.
Defined.

(** ** The style scan and styles closed inside an open span *)

(** C3: in [<pre><em>a</em> b <hr> c] the preformatted span opened by
    the first child is still open at the rule (child 5), whichever of
    the positions 3, 4 or 5 the backward scan starts from, and no
    disable node of the Preformatted style exists.  The style values are
    0 .. 9 rather than separate bits, so the closed Italic (value 1)
    masks Preformatted (value 7): [insideStyleChange_OutsidePara]
    answers false, [forceEndParagraph] writes a close marker and
    [forceStartParagraph] an open marker for the rule.  Without the
    italic span the same scan answers true and nothing is written. *)
Theorem forceParagraph_inside_open_pre :
  let cs := children (tree_pre_italic 1%nat) in
  (styleSpanOpen tree_pre_italic cs 3 = true
   /\ styleSpanOpen tree_pre_italic cs 4 = true
   /\ styleSpanOpen tree_pre_italic cs 5 = true)
  /\ (Z.land (DocStyleChange.Style_value DocStyleChange.Italic)
             (DocStyleChange.Style_value DocStyleChange.Preformatted) = 1
      /\ insideStyleChange_OutsidePara tree_pre_italic 1%nat 3 = false
      /\ insideStyleChange_OutsidePara tree_pre_italic 1%nat 5 = false)
  /\ (m_t (forceEndParagraph tree_pre_italic visitor0 15%nat) = [Str "</p>"]
      /\ m_t (forceStartParagraph tree_pre_italic visitor0 15%nat)
         = [Str "<p>"])
  /\ (insideStyleChange_OutsidePara tree_pre_plain 1%nat 1 = true
      /\ m_t (forceEndParagraph tree_pre_plain visitor0 15%nat) = []
      /\ m_t (forceStartParagraph tree_pre_plain visitor0 15%nat) = []).
Proof. cbv zeta. repeat split; vm_compute; reflexivity. Qed.

(** ** Visitor dispatch *)

Section Dispatch.

Variable tree : Store.

(** Children that each append their own trace append, together, the
    traces in child-list order. *)
Lemma acceptEach_traces (rec : NodeId -> list Call -> option (list Call))
      (ns : list NodeId) (traces : list (list Call)) :
  Forall2 (fun c tr => forall log, rec c log = Some (log ++ tr)) ns traces ->
  forall log, acceptEach rec ns log = Some (log ++ List.concat traces).
Proof.
  induction 1 as [|c tr ns traces Hc _ IH]; intros log; simpl.
  - now rewrite app_nil_r.
  - rewrite Hc, IH. now rewrite <- app_assoc.
Qed.

(** [accept] on a composite object, whatever its class. *)
Lemma accept_composite (fuel : nat) (n : NodeId) (log : list Call) :
  isComposite (tree n) = true ->
  accept tree recorder (Datatypes.S fuel) n log
  = match acceptEach (accept tree recorder fuel) (childList (tree n))
                     (log ++ [CallVisitPre n]) with
    | Some log' => Some (log' ++ [CallVisitPost n])
    | None => None
    end.
Proof.
  unfold isComposite, childList. cbn [accept].
  destruct (body (tree n)) as [c | c cs | | ty dir ps pa pt | para];
    try discriminate; intros _.
  - destruct c; reflexivity.
  - reflexivity.
  - cbn [acceptEach visitPre recorder].
    destruct (accept tree recorder fuel para (log ++ [CallVisitPre n]));
      reflexivity.
Qed.

Lemma accept_leaf (fuel : nat) (n : NodeId) (log : list Call) :
  isLeaf (tree n) = true ->
  accept tree recorder (Datatypes.S fuel) n log = Some (log ++ [CallVisit n]).
Proof.
  unfold isLeaf. cbn [accept].
  destruct (body (tree n)); try discriminate. reflexivity.
Qed.

Lemma accept_copy (fuel : nat) (n : NodeId) (log : list Call) :
  body (tree n) = DocCopy ->
  accept tree recorder (Datatypes.S fuel) n log = Some log.
Proof. intros H. cbn [accept]. now rewrite H. Qed.

Lemma traces_exist (P : NodeId -> list Call -> Prop) (ns : list NodeId) :
  (forall c, List.In c ns -> exists tr, P c tr) ->
  exists traces, Forall2 P ns traces.
Proof.
  induction ns as [|c ns IH]; intros H.
  - exists []. constructor.
  - destruct (H c (or_introl eq_refl)) as [tr Htr].
    destruct IH as [traces Htraces].
    + intros c' Hc'. apply H. now right.
    + exists (tr :: traces). now constructor.
Qed.

(** On a finite tree the traversal returns, with any fuel from the
    depth on, and what it appends does not depend on the fuel. *)
Lemma accept_total (k : nat) :
  forall n, depth_le tree n k ->
    exists trace, forall fuel log,
        (k <= fuel)%nat ->
        accept tree recorder fuel n log = Some (log ++ trace).
Proof.
  induction k as [|k IH]; intros n Hd; inversion Hd as [n' k' Hsub]; subst.
  destruct (traces_exist
              (fun c tr => forall fuel log, (k <= fuel)%nat ->
                   accept tree recorder fuel c log = Some (log ++ tr))
              (childList (tree n))) as [traces Htraces].
  { intros c Hc. apply IH. now apply Hsub. }
  destruct (isComposite (tree n)) eqn:Hcomp.
  - exists (CallVisitPre n :: List.concat traces ++ [CallVisitPost n]).
    intros [|fuel] log Hfuel; [lia|].
    rewrite accept_composite by assumption.
    rewrite (acceptEach_traces _ _ traces).
    + f_equal. rewrite <- !app_assoc. reflexivity.
    + eapply Forall2_impl; [|exact Htraces].
      intros c tr Hc log'. apply Hc. lia.
  - destruct (isLeaf (tree n)) eqn:Hleaf.
    + exists [CallVisit n]. intros [|fuel] log Hfuel; [lia|].
      now apply accept_leaf.
    + exists []. intros [|fuel] log Hfuel; [lia|].
      rewrite app_nil_r. apply accept_copy.
      unfold isComposite in Hcomp. unfold isLeaf in Hleaf.
      destruct (body (tree n)); try discriminate; reflexivity.
Qed.

End Dispatch.

(** C5: on a leaf node [accept] calls the visitor's [visit] once, with
    that node; on a composite node it calls [visitPre] on the node, then
    [accept] on each child in child-list order, then [visitPost] on the
    node.  On a finite tree the traversal returns. *)
Theorem accept_dispatch :
  forall (tree : Store) (n : NodeId),
    (isLeaf (tree n) = true ->
     forall fuel log,
       accept tree recorder (Datatypes.S fuel) n log
       = Some (log ++ [CallVisit n]))
    /\ (isComposite (tree n) = true ->
        forall fuel traces,
          Forall2 (fun c tr =>
                     forall log,
                       accept tree recorder fuel c log = Some (log ++ tr))
                  (childList (tree n)) traces ->
          forall log,
            accept tree recorder (Datatypes.S fuel) n log
            = Some (log ++ CallVisitPre n :: List.concat traces
                        ++ [CallVisitPost n]))
    /\ (forall k,
           depth_le tree n k ->
           exists trace,
             forall fuel log,
               (k <= fuel)%nat ->
               accept tree recorder fuel n log = Some (log ++ trace)).
Proof.
  intros tree n. split; [|split].
  - intros Hleaf fuel log. now apply accept_leaf.
  - intros Hcomp fuel traces Htraces log.
    rewrite accept_composite by assumption.
    rewrite (acceptEach_traces _ _ traces Htraces).
    f_equal. rewrite <- !app_assoc. reflexivity.
  - intros k. apply accept_total.
Qed.

Lemma accept_dispatch_witness :
  accept (tree_brief false) recorder 2 1%nat []
  = Some [CallVisitPre 1; CallVisit 10; CallVisit 11; CallVisit 12;
          CallVisitPost 1]%nat.
Proof.
  destruct (accept_dispatch (tree_brief false) 1%nat) as (_ & Hcomp & _).
  refine (Hcomp eq_refl 1%nat
                [[CallVisit 10]; [CallVisit 11]; [CallVisit 12]]%nat _ []).
  repeat constructor.
Defined.

(** * Further properties *)

(** ** The style scan, seen as a walk over a list *)

Section StyleScan.

Variable tree : Store.

Lemma insideStyleChange_loop_found (cs : list NodeId) (fuel : nat)
      (nodeIndex styleMask : Z) :
  insideStyleChange_loop tree cs fuel nodeIndex styleMask true = true.
Proof.
  destruct fuel; simpl; [reflexivity|].
  now rewrite andb_false_r.
Qed.

Lemma insideStyleChange_loop_list (pre : list NodeId) :
  forall (post : list NodeId) (styleMask : Z),
    insideStyleChange_loop tree (pre ++ post) (List.length pre)
                           (Z.of_nat (List.length pre) - 1) styleMask false
    = styleScanList tree (rev pre) styleMask.
Proof.
  induction pre as [|x pre IH] using rev_ind; intros post styleMask.
  - reflexivity.
  - rewrite rev_app_distr, length_app. simpl rev. simpl List.length.
    replace (List.length pre + 1)%nat with (Datatypes.S (List.length pre))
      by lia.
    cbn [insideStyleChange_loop app styleScanList].
    replace (Z.of_nat (Datatypes.S (List.length pre)) - 1)
      with (Z.of_nat (List.length pre)) by lia.
    destruct (Z.leb_spec 0 (Z.of_nat (List.length pre))); [|lia].
    cbn [andb negb]. rewrite <- app_assoc. simpl app.
    rewrite at_middle.
    destruct (styleStep (tree x) styleMask) as [styleMask' found].
    destruct found.
    + apply insideStyleChange_loop_found.
    + apply IH.
Qed.

(** The scan started at the last node of [pre]. *)
Lemma insideStyleChange_OutsidePara_list (para : NodeId)
      (pre post : list NodeId) :
  children (tree para) = pre ++ post ->
  insideStyleChange_OutsidePara tree para (Z.of_nat (List.length pre) - 1)
  = styleScanList tree (rev pre) 0.
Proof.
  intros Hcs. unfold insideStyleChange_OutsidePara. rewrite Hcs.
  replace (Z.to_nat (Z.of_nat (List.length pre) - 1 + 1))
    with (List.length pre) by lia.
  apply insideStyleChange_loop_list.
Qed.

Lemma insideStyleChange_OutsidePara_negative (para : NodeId) (nodeIndex : Z) :
  nodeIndex < 0 ->
  insideStyleChange_OutsidePara tree para nodeIndex = false.
Proof.
  intros H. unfold insideStyleChange_OutsidePara.
  replace (Z.to_nat (nodeIndex + 1)) with 0%nat by lia. reflexivity.
Qed.

Lemma styleStep_other (n : NodeId) (styleMask : Z) :
  isStyleChange tree n = false ->
  styleStep (tree n) styleMask = (styleMask, false).
Proof.
  unfold isStyleChange, kindOf, styleStep.
  destruct (kind (tree n)); try reflexivity. discriminate.
Qed.

Lemma styleScanList_no_style (scan : list NodeId) (styleMask : Z) :
  Forall (fun c => isStyleChange tree c = false) scan ->
  styleScanList tree scan styleMask = false.
Proof.
  induction 1 as [|n scan Hn _ IH]; simpl; [reflexivity|].
  now rewrite styleStep_other.
Qed.

End StyleScan.

(** ** What the style scan guarantees *)

Lemma land_lor_zero (m x v : Z) :
  Z.land (Z.lor m x) v = 0 -> Z.land m v = 0 /\ Z.land x v = 0.
Proof.
  rewrite Z.land_lor_distr_l. intros H. now apply Z.lor_eq_0_iff in H.
Qed.

Lemma Style_value_inj (a b : DocStyleChange.Style) :
  DocStyleChange.Style_value a = DocStyleChange.Style_value b -> a = b.
Proof. destruct a, b; simpl; intros H; try reflexivity; discriminate H. Qed.

(** The loop body looks at style-change nodes only. *)
Lemma styleStep_cases (n : DocNode) (styleMask : Z) :
  (exists pos style enable,
      body n = Leaf (DocStyleChange pos style enable)
      /\ styleStep n styleMask
         = (if negb enable
            then Z.lor styleMask (DocStyleChange.Style_value style)
            else styleMask,
            enable
            && (Z.land (if negb enable
                        then Z.lor styleMask (DocStyleChange.Style_value style)
                        else styleMask)
                       (DocStyleChange.Style_value style) =? 0)
            && hasOutsideStyle n))
  \/ ((forall pos style enable,
          body n <> Leaf (DocStyleChange pos style enable))
      /\ styleStep n styleMask = (styleMask, false)).
Proof.
  destruct n as [parent pre b].
  destruct b as [c | c cs | | ty dir ps pa pt | para];
    try (right; split; [intros; discriminate | reflexivity]).
  - destruct c as [ | | | | | | |pos st en| | | | | | | | ];
      try (right; split; [intros; discriminate | reflexivity]).
    left. exists pos, st, en. split; [reflexivity|].
    unfold styleStep, hasOutsideStyle. simpl.
    destruct st; reflexivity.
  - right. split; [intros; discriminate|].
    unfold styleStep. simpl. destruct c; reflexivity.
Qed.

Section StyleScanSound.

Variable tree : Store.

(** A reported span is the span of a node that switches one of the three
    styles on, with no node nearer to the start of the scan switching that
    same style off, and with the style's bits clear in the mask. *)
Lemma styleScanList_sound (scan : list NodeId) :
  forall styleMask,
    styleScanList tree scan styleMask = true ->
    exists nearer n farther pos style,
      scan = nearer ++ n :: farther
      /\ body (tree n) = Leaf (DocStyleChange pos style true)
      /\ hasOutsideStyle (tree n) = true
      /\ Z.land styleMask (DocStyleChange.Style_value style) = 0
      /\ (forall m pos',
             List.In m nearer ->
             body (tree m) <> Leaf (DocStyleChange pos' style false)).
Proof.
  induction scan as [|x scan IH]; intros styleMask Hscan; [discriminate|].
  cbn [styleScanList] in Hscan.
  destruct (styleStep_cases (tree x) styleMask)
    as [(pos & st & en & Hb & Hstep) | [Hother Hstep]];
    rewrite Hstep in Hscan.
  - destruct en; cbn [negb andb] in Hscan.
    + destruct (Z.land styleMask (DocStyleChange.Style_value st) =? 0) eqn:Hm;
        cbn [andb] in Hscan.
      * destruct (hasOutsideStyle (tree x)) eqn:Hpara.
        -- exists [], x, scan, pos, st. repeat split; try assumption.
           ++ now apply Z.eqb_eq.
           ++ intros m pos' [].
        -- destruct (IH _ Hscan)
             as (a & n & b & p & s & -> & H1 & H2 & H3 & H4).
           exists (x :: a), n, b, p, s. repeat split; try assumption.
           intros m pos' [<-|Hin]; [rewrite Hb; discriminate | now apply H4].
      * destruct (IH _ Hscan)
          as (a & n & b & p & s & -> & H1 & H2 & H3 & H4).
        exists (x :: a), n, b, p, s. repeat split; try assumption.
        intros m pos' [<-|Hin]; [rewrite Hb; discriminate | now apply H4].
    + destruct (IH _ Hscan) as (a & n & b & p & s & -> & H1 & H2 & H3 & H4).
      apply land_lor_zero in H3 as [H3 H3'].
      exists (x :: a), n, b, p, s. repeat split; try assumption.
      intros m pos' [<-|Hin]; [|now apply H4].
      rewrite Hb. intros Heq. injection Heq as _ ->.
      rewrite Z.land_diag in H3'.
      unfold hasOutsideStyle in H2. rewrite H1 in H2.
      destruct s; discriminate.
  - destruct (IH _ Hscan) as (a & n & b & p & s & -> & H1 & H2 & H3 & H4).
    exists (x :: a), n, b, p, s. repeat split; try assumption.
    intros m pos' [<-|Hin]; [apply Hother | now apply H4].
Qed.

(** With no style switched off among the scanned nodes, the scan finds
    every node that switches one of the three styles on. *)
Lemma styleScanList_no_disable (scan : list NodeId) :
  Forall (fun c => isStyleDisable (tree c) = false) scan ->
  styleScanList tree scan 0
  = existsb (fun c => isOutsideStyleEnable (tree c)) scan.
Proof.
  induction 1 as [|x scan Hx _ IH]; [reflexivity|].
  cbn [styleScanList existsb].
  unfold isStyleDisable in Hx. unfold isOutsideStyleEnable.
  destruct (styleStep_cases (tree x) 0)
    as [(pos & st & en & Hb & Hstep) | [Hother Hstep]];
    rewrite Hstep.
  - rewrite Hb in Hx |- *. destruct en; [|discriminate Hx].
    cbn [negb andb]. rewrite Z.land_0_l. cbn [Z.eqb andb].
    destruct (hasOutsideStyle (tree x)); [reflexivity | exact IH].
  - rewrite IH.
    destruct (body (tree x)) as [c| | | |]; try reflexivity.
    destruct c; try reflexivity. exfalso. eapply Hother. reflexivity.
Qed.

End StyleScanSound.

(** X1: when [insideStyleChange_OutsidePara] answers true for the scan
    that starts at the last node of [pre], some node of [pre] switches
    Center, Div or Preformatted on and no node after it in [pre] switches
    that same style off: the scan never reports a span that was closed. *)
Theorem insideStyleChange_OutsidePara_sound :
  forall (tree : Store) (para : NodeId) (pre post : list NodeId),
    children (tree para) = pre ++ post ->
    insideStyleChange_OutsidePara tree para (Z.of_nat (List.length pre) - 1)
    = true ->
    exists before n after pos style,
      pre = before ++ n :: after
      /\ body (tree n) = Leaf (DocStyleChange pos style true)
      /\ hasOutsideStyle (tree n) = true
      /\ (forall m pos',
             List.In m after ->
             body (tree m) <> Leaf (DocStyleChange pos' style false)).
Proof.
  intros tree para pre post Hcs Hscan.
  rewrite (insideStyleChange_OutsidePara_list tree para pre post Hcs) in Hscan.
  destruct (styleScanList_sound tree (rev pre) 0 Hscan)
    as (nearer & n & farther & pos & style & Hrev & Hb & Hout & _ & Hno).
  exists (rev farther), n, (rev nearer), pos, style. repeat split.
  - rewrite <- (rev_involutive pre), Hrev, rev_app_distr. simpl.
    now rewrite <- app_assoc.
  - assumption.
  - assumption.
  - intros m pos' Hin. apply Hno. now apply in_rev.
Qed.

Lemma insideStyleChange_OutsidePara_sound_witness :
  exists before n after pos style,
    [10; 11; 12]%nat = before ++ n :: after
    /\ body (tree_center false n) = Leaf (DocStyleChange pos style true)
    /\ hasOutsideStyle (tree_center false n) = true
    /\ (forall m pos',
           List.In m after ->
           body (tree_center false m)
           <> Leaf (DocStyleChange pos' style false)).
Proof.
  exact (insideStyleChange_OutsidePara_sound
           (tree_center false) 1%nat [10; 11; 12]%nat [13; 14]%nat
           eq_refl eq_refl).
Defined.

Lemma existsb_rev' {A : Type} (f : A -> bool) (l : list A) :
  existsb f (rev l) = existsb f l.
Proof.
  induction l as [|a l IH]; [reflexivity|].
  simpl. rewrite existsb_app, IH. simpl.
  rewrite orb_false_r. apply orb_comm.
Qed.

(** X2: when none of the scanned nodes switches a style off, the scan
    answers true exactly when one of them switches Center, Div or
    Preformatted on. *)
Theorem insideStyleChange_OutsidePara_no_disable :
  forall (tree : Store) (para : NodeId) (pre post : list NodeId),
    children (tree para) = pre ++ post ->
    Forall (fun c => isStyleDisable (tree c) = false) pre ->
    insideStyleChange_OutsidePara tree para (Z.of_nat (List.length pre) - 1)
    = existsb (fun c => isOutsideStyleEnable (tree c)) pre.
Proof.
  intros tree para pre post Hcs Hno.
  rewrite (insideStyleChange_OutsidePara_list tree para pre post Hcs).
  rewrite styleScanList_no_disable by now apply Forall_rev.
  apply existsb_rev'.
Qed.

Lemma insideStyleChange_OutsidePara_no_disable_witness :
  insideStyleChange_OutsidePara (tree_center false) 1%nat 2 = true.
Proof.
  refine (insideStyleChange_OutsidePara_no_disable
            (tree_center false) 1%nat [10; 11; 12]%nat [13; 14]%nat
            eq_refl _).
  repeat constructor.
Defined.

(** ** [forceStartParagraph] and [forceEndParagraph] by neighbours *)

Section Neighbours.

Variable tree : Store.

(** The forward walk stops on the first visible node, or at the end. *)
Lemma skipWhiteSpace_fwd_first (cs : list NodeId) :
  forall (pre : list NodeId) (extra : nat),
    let j := skipWhiteSpace_fwd tree (pre ++ cs) (List.length cs + extra)
                                (Z.of_nat (List.length pre)) in
    match firstVisible tree cs with
    | Some m => (j <? count (pre ++ cs)) = true
                /\ at_ (pre ++ cs) j = Some m
    | None => j = count (pre ++ cs)
    end.
Proof.
  induction cs as [|x cs IH]; intros pre extra; cbv zeta.
  - rewrite app_nil_r. simpl firstVisible.
    destruct extra; simpl; [reflexivity|].
    fold (count pre). now rewrite Z.ltb_irrefl.
  - simpl List.length. cbn [Nat.add skipWhiteSpace_fwd].
    assert (Hlt : (Z.of_nat (List.length pre) <? count (pre ++ x :: cs))
                  = true)
      by (apply Z.ltb_lt; unfold count; rewrite length_app; simpl; lia).
    rewrite Hlt, kindAtIs_middle. cbn [andb].
    unfold firstVisible. simpl find. unfold isWhiteSpace at 1.
    destruct (Kind_eqb (kindOf tree x) Kind_WhiteSpace) eqn:Hx; simpl negb;
      cbv iota.
    + replace (pre ++ x :: cs) with ((pre ++ [x]) ++ cs)
        by (rewrite <- app_assoc; reflexivity).
      replace (Z.of_nat (List.length pre) + 1)
        with (Z.of_nat (List.length (pre ++ [x])))
        by (rewrite length_app; simpl; lia).
      apply IH.
    + split; [assumption | apply at_middle].
Qed.

(** The walk of the style loop over nodes that are no style changes. *)
Lemma insideStyleChange_loop_no_style (cs : list NodeId) (fuel : nat) :
  forall (nodeIndex styleMask : Z),
    Forall (fun c => isStyleChange tree c = false) cs ->
    insideStyleChange_loop tree cs fuel nodeIndex styleMask false = false.
Proof.
  induction fuel as [|fuel IH]; intros nodeIndex styleMask Hcs;
    [reflexivity|].
  cbn [insideStyleChange_loop].
  destruct ((0 <=? nodeIndex) && negb false); [|reflexivity].
  destruct (at_ cs nodeIndex) as [n|] eqn:Hat; [|reflexivity].
  assert (Hn : isStyleChange tree n = false).
  { unfold at_ in Hat. destruct (nodeIndex <? 0); [discriminate|].
    apply nth_error_In in Hat. rewrite Forall_forall in Hcs. now apply Hcs. }
  rewrite (styleStep_other tree n styleMask Hn). now apply IH.
Qed.

Lemma insideStyleChange_OutsidePara_no_style (para : NodeId) (nodeIndex : Z) :
  Forall (fun c => isStyleChange tree c = false) (children (tree para)) ->
  insideStyleChange_OutsidePara tree para nodeIndex = false.
Proof.
  intros H. unfold insideStyleChange_OutsidePara.
  now apply insideStyleChange_loop_no_style.
Qed.

(** [forceStartParagraph] on the child [n] of a paragraph, read off the
    siblings behind it. *)
Lemma forceStartParagraph_spec (v : HtmlDocVisitor) (p n : NodeId)
      (pre post : list NodeId) :
  m_parent (tree n) = Some p ->
  kindOf tree p = Kind_Para ->
  children (tree p) = pre ++ n :: post ->
  ~ List.In n pre ->
  forceStartParagraph tree v n
  = if insideStyleChange_OutsidePara tree p (Z.of_nat (List.length pre))
    then v
    else match firstVisible tree post with
         | None => v
         | Some m =>
             if mustBeOutsideParagraph (tree m) then v
             else if (let '(_, isFirst, isLast) := getParagraphContext tree p in
                      isFirst && isLast)
                  then v else v << "<p>"
         end.
Proof.
  intros Hp Hk Hcs Hnot. unfold forceStartParagraph. rewrite Hp, Hk, Hcs.
  change (Kind_eqb Kind_Para Kind_Para) with true. cbv iota.
  rewrite indexOf_middle by assumption.
  destruct (insideStyleChange_OutsidePara tree p (Z.of_nat (List.length pre)));
    [reflexivity|].
  assert (Hcount : count (pre ++ n :: post)
                   = Z.of_nat (List.length pre) + 1
                     + Z.of_nat (List.length post))
    by (unfold count; rewrite length_app; simpl; lia).
  rewrite Hcount.
  destruct post as [|x post'].
  - simpl List.length. rewrite Z.add_0_r, Z.eqb_refl. reflexivity.
  - destruct (Z.eqb_spec (Z.of_nat (List.length pre) + 1)
                         (Z.of_nat (List.length pre) + 1
                          + Z.of_nat (List.length (x :: post'))))
      as [Heq|_]; [simpl List.length in Heq; lia|].
    pose proof (skipWhiteSpace_fwd_first (x :: post') (pre ++ [n]) 0) as Hskip.
    cbv zeta in Hskip.
    replace ((pre ++ [n]) ++ x :: post') with (pre ++ n :: x :: post') in Hskip
      by (rewrite <- app_assoc; reflexivity).
    rewrite Nat.add_0_r in Hskip.
    replace (Z.of_nat (List.length (pre ++ [n])))
      with (Z.of_nat (List.length pre) + 1) in Hskip
      by (rewrite length_app; simpl; lia).
    replace (Z.to_nat (Z.of_nat (List.length pre) + 1
                       + Z.of_nat (List.length (x :: post'))
                       - (Z.of_nat (List.length pre) + 1)))
      with (List.length (x :: post')) by lia.
    rewrite Hcount in Hskip.
    destruct (firstVisible tree (x :: post')) as [m|].
    + destruct Hskip as [Hlt Hat]. rewrite Hlt.
      unfold mustBeOutsideAt. rewrite Hat.
      destruct (mustBeOutsideParagraph (tree m)); [reflexivity|].
      destruct (getParagraphContext tree p) as [[t isFirst] isLast].
      reflexivity.
    + rewrite Hskip, Z.ltb_irrefl. reflexivity.
Qed.

(** [forceEndParagraph] on the child [n] of a paragraph without style
    changes, read off the siblings in front of it. *)
Lemma forceEndParagraph_spec (v : HtmlDocVisitor) (p n : NodeId)
      (pre post : list NodeId) :
  m_parent (tree n) = Some p ->
  kindOf tree p = Kind_Para ->
  children (tree p) = pre ++ n :: post ->
  ~ List.In n pre ->
  Forall (fun c => isStyleChange tree c = false) (children (tree p)) ->
  forceEndParagraph tree v n
  = match pre with
    | [] => v
    | _ =>
        if isOutside tree (lastVisible tree pre) then v
        else if (let '(_, isFirst, isLast) := getParagraphContext tree p in
                 isFirst && isLast)
             then v else v << "</p>"
    end.
Proof.
  intros Hp Hk Hcs Hnot Hns.
  destruct pre as [|x pre'].
  - now apply forceEndParagraph_first_child with p post.
  - set (pre := x :: pre') in *.
    unfold forceEndParagraph. rewrite Hp, Hk.
    change (Kind_eqb Kind_Para Kind_Para) with true. cbv iota.
    rewrite !(insideStyleChange_OutsidePara_no_style p _ Hns).
    rewrite Hcs. rewrite indexOf_middle by assumption.
    assert (Hlen : (0 < List.length pre)%nat) by (unfold pre; simpl; lia).
    destruct (Z.ltb_spec (Z.of_nat (List.length pre) - 1) 0); [lia|].
    pose proof (skipWhiteSpace_back_visible tree pre (n :: post) 0) as Hskip.
    cbv zeta in Hskip. rewrite Nat.add_0_r in Hskip.
    replace (Z.to_nat (Z.of_nat (List.length pre) - 1 + 1))
      with (List.length pre) by lia.
    rewrite Hskip.
    destruct (isOutside tree (lastVisible tree pre)); [reflexivity|].
    destruct (getParagraphContext tree p) as [[t isFirst] isLast].
    destruct (isFirst && isLast); reflexivity.
Qed.

End Neighbours.

Lemma Kind_eqb_true (a b : Kind) : Kind_eqb a b = true -> a = b.
Proof.
  unfold Kind_eqb. intros H. apply Z.eqb_eq in H.
  destruct a; destruct b; solve [reflexivity | discriminate H].
Qed.

Section Visibility.

Variable tree : Store.

Lemma firstVisible_all_whiteSpace (ws : list NodeId) :
  Forall (fun c => isWhiteSpace tree c = true) ws ->
  firstVisible tree ws = None.
Proof.
  induction 1 as [|w ws Hw _ IH]; [reflexivity|].
  unfold firstVisible. simpl. rewrite Hw. exact IH.
Qed.

Lemma firstVisible_run (ws post : list NodeId) (m : NodeId) :
  Forall (fun c => isWhiteSpace tree c = true) ws ->
  isWhiteSpace tree m = false ->
  firstVisible tree (ws ++ m :: post) = Some m.
Proof.
  induction 1 as [|w ws Hw _ IH]; intros Hm; unfold firstVisible; simpl.
  - now rewrite Hm.
  - rewrite Hw. simpl. now apply IH.
Qed.

End Visibility.

(** X3: [forceStartParagraph] writes nothing for a node that is the last
    child of its paragraph or has only whitespace behind it, and nothing
    when the next sibling that is not whitespace must itself be outside a
    paragraph; in any case it writes at most one open marker. *)
Theorem forceStartParagraph_suppressed :
  forall (tree : Store) (p : NodeId),
    (forall v n pre ws,
        m_parent (tree n) = Some p ->
        children (tree p) = pre ++ n :: ws ->
        ~ List.In n pre ->
        Forall (fun c => isWhiteSpace tree c = true) ws ->
        forceStartParagraph tree v n = v)
    /\ (forall v n pre ws m post,
           m_parent (tree n) = Some p ->
           children (tree p) = pre ++ n :: ws ++ m :: post ->
           ~ List.In n pre ->
           Forall (fun c => isWhiteSpace tree c = true) ws ->
           mustBeOutsideParagraph (tree m) = true ->
           forceStartParagraph tree v n = v)
    /\ (forall v n,
           forceStartParagraph tree v n = v
           \/ forceStartParagraph tree v n = v << "<p>").
Proof.
  intros tree p.
  assert (Hnot_para : forall v n,
             m_parent (tree n) = Some p ->
             Kind_eqb (kindOf tree p) Kind_Para = false ->
             forceStartParagraph tree v n = v).
  { intros v n Hp Hk. unfold forceStartParagraph. now rewrite Hp, Hk. }
  split; [|split].
  - intros v n pre ws Hp Hcs Hnot Hws.
    destruct (Kind_eqb (kindOf tree p) Kind_Para) eqn:Hk;
      [apply Kind_eqb_true in Hk | now apply Hnot_para].
    rewrite (forceStartParagraph_spec tree v p n pre ws Hp Hk Hcs Hnot).
    rewrite firstVisible_all_whiteSpace by assumption.
    now destruct (insideStyleChange_OutsidePara _ _ _).
  - intros v n pre ws m post Hp Hcs Hnot Hws Hm.
    destruct (Kind_eqb (kindOf tree p) Kind_Para) eqn:Hk;
      [apply Kind_eqb_true in Hk | now apply Hnot_para].
    rewrite (forceStartParagraph_spec tree v p n pre (ws ++ m :: post)
                                      Hp Hk Hcs Hnot).
    rewrite firstVisible_run
      by (try assumption; now apply mustBeOutside_not_whiteSpace).
    rewrite Hm. now destruct (insideStyleChange_OutsidePara _ _ _).
  - intros v n. clear Hnot_para. unfold forceStartParagraph.
    destruct (m_parent (tree n)) as [para|]; [|now left].
    destruct (Kind_eqb (kindOf tree para) Kind_Para); [|now left].
    destruct (insideStyleChange_OutsidePara _ _ _); [now left|].
    destruct (_ =? _); [now left|].
    destruct (_ <? _); [|now left].
    destruct (mustBeOutsideAt _ _ _); [now left|].
    destruct (getParagraphContext tree para) as [[t isFirst] isLast].
    destruct (isFirst && isLast); [now left|now right].
Qed.

Lemma forceStartParagraph_suppressed_witness :
  forceStartParagraph tree_rules_middle visitor0 12%nat = visitor0
  /\ forceStartParagraph tree_rules_first visitor0 12%nat
     = visitor0 << "<p>".
Proof.
  destruct (forceStartParagraph_suppressed tree_rules_middle 1%nat)
    as (_ & Hnext & _).
  split.
  - refine (Hnext visitor0 12%nat [10; 11]%nat [13%nat] 14%nat [15%nat]
                  eq_refl eq_refl _ _ eq_refl).
    + simpl. intuition discriminate.
    + repeat constructor.
  - reflexivity.
Defined.

(** X4: in a paragraph without style-change nodes, a node whose nearest
    visible siblings on both sides may stay inside the paragraph gets
    both markers or none: [forceEndParagraph] writes the close marker
    and [forceStartParagraph] the open marker exactly when the paragraph
    is not both first and last in its context. *)
Theorem forceParagraph_close_and_reopen :
  forall (tree : Store) (v v' : HtmlDocVisitor) (p n a b : NodeId)
         (pre post : list NodeId),
    m_parent (tree n) = Some p ->
    kindOf tree p = Kind_Para ->
    children (tree p) = pre ++ n :: post ->
    ~ List.In n pre ->
    Forall (fun c => isStyleChange tree c = false) (children (tree p)) ->
    lastVisible tree pre = Some a ->
    mustBeOutsideParagraph (tree a) = false ->
    firstVisible tree post = Some b ->
    mustBeOutsideParagraph (tree b) = false ->
    forceEndParagraph tree v n
    = (if firstAndLast tree p then v else v << "</p>")
    /\ forceStartParagraph tree v' n
       = (if firstAndLast tree p then v' else v' << "<p>").
Proof.
  intros tree v v' p n a b pre post Hp Hk Hcs Hnot Hns Ha Hao Hb Hbo.
  split.
  - rewrite (forceEndParagraph_spec tree v p n pre post Hp Hk Hcs Hnot Hns).
    rewrite Ha. simpl. rewrite Hao.
    destruct pre; [discriminate Ha | reflexivity].
  - rewrite (forceStartParagraph_spec tree v' p n pre post Hp Hk Hcs Hnot).
    rewrite (insideStyleChange_OutsidePara_no_style tree p _ Hns).
    rewrite Hb, Hbo. reflexivity.
Qed.

Lemma forceParagraph_close_and_reopen_witness :
  forceEndParagraph tree_rule_between visitor0 11%nat = visitor0 << "</p>"
  /\ forceStartParagraph tree_rule_between visitor0 11%nat
     = visitor0 << "<p>".
Proof.
  refine (forceParagraph_close_and_reopen
            tree_rule_between visitor0 visitor0 1%nat 11%nat 10%nat 12%nat
            [10%nat] [12%nat] eq_refl eq_refl eq_refl _ _
            eq_refl eq_refl eq_refl eq_refl).
  - simpl. intuition discriminate.
  - repeat constructor.
Defined.

(** ** The context code and the markers of [visitPre] / [visitPost] *)

(** X5: the context code that [getParagraphContext] returns always lies
    between 0 and 6, so [visitPre] on a paragraph never reads its table
    of seven class attributes out of range. *)
Theorem getParagraphContext_code_in_range :
  forall (tree : Store) (p : NodeId),
    0 <= fst (fst (getParagraphContext tree p)) <= 6
    /\ nth_error contexts
                 (Z.to_nat (fst (fst (getParagraphContext tree p)))) <> None.
Proof.
  intros tree p. unfold getParagraphContext, pickContext.
  destruct (m_parent (tree p)) as [parent|];
    [|split; [simpl; lia | discriminate]].
  destruct (kindOf tree parent);
    repeat match goal with
           | |- context [if ?b then _ else _] => destruct b
           end;
    (split; [simpl; lia | discriminate]).
Qed.

Section ParaMarkers.

Variable tree : Store.

Lemma visitPre_DocPara_spec (v : HtmlDocVisitor) (p : NodeId) :
  visitPre_DocPara tree v p
  = if m_hide v
       || negb (needsTag_of_parent tree p)
       || isOutside tree (firstVisible tree (children (tree p)))
       || firstAndLast tree p
    then v
    else v << "<p"
           << nth (Z.to_nat (fst (fst (getParagraphContext tree p))))
                  contexts EmptyString
           << ">".
Proof.
  unfold visitPre_DocPara, firstAndLast.
  destruct (m_hide v); [reflexivity|]. cbn [orb].
  pose proof (skipWhiteSpace_fwd_visible tree (children (tree p)) [] 0)
    as Hskip.
  cbv zeta in Hskip. simpl app in Hskip. simpl List.length in Hskip.
  rewrite Nat.add_0_r in Hskip. change (Z.of_nat 0) with 0 in Hskip.
  replace (Z.to_nat (count (children (tree p)) - 0))
    with (List.length (children (tree p))) by (unfold count; lia).
  destruct (getParagraphContext tree p) as [[t isFirst] isLast].
  cbn [fst].
  destruct (Z.ltb_spec 0 (count (children (tree p)))) as [Hlt|Hge].
  - rewrite Hskip.
    destruct (needsTag_of_parent tree p),
             (isOutside tree (firstVisible tree (children (tree p)))),
             (isFirst && isLast); reflexivity.
  - destruct (children (tree p)) as [|c cs] eqn:Hcs.
    + simpl. destruct (needsTag_of_parent tree p), (isFirst && isLast);
        reflexivity.
    + unfold count in Hge. cbn [List.length] in Hge. lia.
Qed.

Lemma visitPost_DocPara_spec (v : HtmlDocVisitor) (p : NodeId) :
  visitPost_DocPara tree v p
  = if negb (needsTag_of_parent tree p)
       || isOutside tree (lastVisible tree (children (tree p)))
       || firstAndLast tree p
    then v
    else v << ("</p>" ++ nl)%string.
Proof.
  unfold visitPost_DocPara, firstAndLast.
  pose proof (skipWhiteSpace_back_visible tree (children (tree p)) [] 0)
    as Hskip.
  cbv zeta in Hskip. rewrite app_nil_r, Nat.add_0_r in Hskip.
  replace (Z.to_nat (count (children (tree p)) - 1 + 1))
    with (List.length (children (tree p))) by (unfold count; lia).
  fold (count (children (tree p))) in Hskip.
  destruct (getParagraphContext tree p) as [[t isFirst] isLast].
  destruct (Z.leb_spec 0 (count (children (tree p)) - 1)) as [Hle|Hgt].
  - rewrite Hskip.
    destruct (needsTag_of_parent tree p),
             (isOutside tree (lastVisible tree (children (tree p)))),
             (isFirst && isLast); reflexivity.
  - destruct (children (tree p)) as [|c cs] eqn:Hcs.
    + simpl. destruct (needsTag_of_parent tree p), (isFirst && isLast);
        reflexivity.
    + unfold count in Hgt. cbn [List.length] in Hgt. lia.
Qed.

End ParaMarkers.

(** X6: [visitPre] on a paragraph writes the open marker exactly when
    the visitor is not hidden, the kind of the parent asks for a marker,
    the first child that is not whitespace need not be outside a
    paragraph and the paragraph is not both first and last in its
    context; [visitPost] writes the close marker under the same
    conditions read at the last such child, and does so for a hidden
    visitor too.  So for a visible visitor the two markers come as a pair
    whenever the first and the last visible child agree on being
    outside. *)
Theorem DocPara_markers :
  forall (tree : Store) (v : HtmlDocVisitor) (p : NodeId),
    visitPre_DocPara tree v p
    = (if m_hide v
          || negb (needsTag_of_parent tree p)
          || isOutside tree (firstVisible tree (children (tree p)))
          || firstAndLast tree p
       then v
       else v << "<p"
              << nth (Z.to_nat (fst (fst (getParagraphContext tree p))))
                     contexts EmptyString
              << ">")
    /\ visitPost_DocPara tree v p
       = (if negb (needsTag_of_parent tree p)
             || isOutside tree (lastVisible tree (children (tree p)))
             || firstAndLast tree p
          then v
          else v << ("</p>" ++ nl)%string).
Proof.
  intros tree v p. split.
  - apply visitPre_DocPara_spec.
  - apply visitPost_DocPara_spec.
Qed.

(** ** Rendering the children of a paragraph *)

Lemma paraMarkers_app (a b : list Chunk) :
  paraMarkers (a ++ b) = paraMarkers a ++ paraMarkers b.
Proof.
  induction a as [|c a IH]; [reflexivity|].
  simpl. destruct (paraMarker c); simpl; now rewrite IH.
Qed.

Lemma markersClose_app (a b : list bool) (open : bool) :
  markersClose open (a ++ b)
  = match markersClose open a with
    | Some open' => markersClose open' b
    | None => None
    end.
Proof.
  revert open. induction a as [|m a IH]; intros open; [reflexivity|].
  simpl. destruct (Bool.eqb m open); [reflexivity | apply IH].
Qed.

Lemma paraMarkers_filterChunks (s : string) :
  paraMarkers (filterChunks s) = [].
Proof. destruct s; reflexivity. Qed.

Lemma forceEndParagraph_hide (tree : Store) (v : HtmlDocVisitor) (n : NodeId) :
  m_hide (forceEndParagraph tree v n) = m_hide v.
Proof.
  destruct (forceEndParagraph_at_most_once tree v n) as [-> | ->];
    reflexivity.
Qed.

Lemma contexts_no_marker (t : nat) :
  paraMarker (Str (nth t contexts EmptyString)) = None.
Proof.
  do 8 (destruct t as [|t]; [reflexivity|]). reflexivity.
Qed.

Section RenderChildren.

Variable tree : Store.
Variable p : NodeId.

Lemma lastVisible_snoc (pre : list NodeId) (n : NodeId) :
  lastVisible tree (pre ++ [n])
  = if isWhiteSpace tree n then lastVisible tree pre else Some n.
Proof.
  unfold lastVisible, firstVisible. rewrite rev_app_distr. simpl.
  now destruct (isWhiteSpace tree n).
Qed.

Lemma firstVisible_cons (post : list NodeId) (n : NodeId) :
  firstVisible tree (n :: post)
  = if isWhiteSpace tree n then firstVisible tree post else Some n.
Proof.
  unfold firstVisible. simpl. now destruct (isWhiteSpace tree n).
Qed.

Lemma paraOpen_whiteSpace (pre post : list NodeId) (n : NodeId) :
  isWhiteSpace tree n = true ->
  paraOpen tree p pre (n :: post) = paraOpen tree p (pre ++ [n]) post.
Proof.
  intros Hw. unfold paraOpen.
  now rewrite lastVisible_snoc, firstVisible_cons, Hw.
Qed.

Lemma paraOpen_inline (pre post : list NodeId) (n : NodeId) :
  isWhiteSpace tree n = false ->
  mustBeOutsideParagraph (tree n) = false ->
  paraOpen tree p pre (n :: post) = paraOpen tree p (pre ++ [n]) post.
Proof.
  intros Hw Ho. unfold paraOpen.
  rewrite lastVisible_snoc, firstVisible_cons, Hw, Ho.
  unfold nextIsInline, isOutside. rewrite Ho.
  destruct (lastVisible tree pre) as [m|]; [|reflexivity].
  now destruct (mustBeOutsideParagraph (tree m)).
Qed.

(** The nodes the rendering below accepts, by what the balancer sees. *)
Lemma isInlineOrRule_cases (n : NodeId) :
  isInlineOrRule (tree n) = true ->
  isStyleChange tree n = false
  /\ ((body (tree n) = Leaf DocHorRuler
       /\ mustBeOutsideParagraph (tree n) = true
       /\ isWhiteSpace tree n = false)
      \/ (body (tree n) <> Leaf DocHorRuler
          /\ mustBeOutsideParagraph (tree n) = false)).
Proof.
  unfold isInlineOrRule, isStyleChange, isWhiteSpace, kindOf, kind,
    mustBeOutsideParagraph, kind.
  destruct (body (tree n)) as [c| | | |]; try discriminate.
  destruct c; try discriminate; intros _; simpl;
    (split; [reflexivity|]);
    solve [left; repeat split; reflexivity
          | right; split; [discriminate | reflexivity]].
Qed.

Hypothesis Hpara : kindOf tree p = Kind_Para.
Hypothesis Hnodup : NoDup (children (tree p)).
Hypothesis Hkids :
  forall c, List.In c (children (tree p)) ->
            m_parent (tree c) = Some p /\ isInlineOrRule (tree c) = true.
Hypothesis Hlead :
  forall m, firstVisible tree (children (tree p)) = Some m ->
            mustBeOutsideParagraph (tree m) = true ->
            hd_error (children (tree p)) = Some m.

Lemma children_no_style :
  Forall (fun c => isStyleChange tree c = false) (children (tree p)).
Proof.
  apply Forall_forall. intros c Hc.
  now apply isInlineOrRule_cases, Hkids.
Qed.

(** A rule with nothing but whitespace in front of it is the first
    child. *)
Lemma rule_after_whiteSpace_is_first (pre post : list NodeId) (n : NodeId) :
  children (tree p) = pre ++ n :: post ->
  mustBeOutsideParagraph (tree n) = true ->
  lastVisible tree pre = None ->
  pre = [].
Proof.
  intros Hcs Ho Hnone.
  pose proof (lastVisible_split tree pre) as Hws. rewrite Hnone in Hws.
  assert (Hfirst : firstVisible tree (children (tree p)) = Some n).
  { rewrite Hcs. apply firstVisible_run; [assumption|].
    now apply mustBeOutside_not_whiteSpace. }
  pose proof (Hlead n Hfirst Ho) as Hhd. rewrite Hcs in Hhd.
  destruct pre as [|x pre']; [reflexivity|]. exfalso.
  simpl in Hhd. injection Hhd as ->.
  apply Forall_inv in Hws.
  pose proof (mustBeOutside_not_whiteSpace tree n Ho). congruence.
Qed.

Lemma render_rule (v : HtmlDocVisitor) (pre post : list NodeId) (n : NodeId) :
  children (tree p) = pre ++ n :: post ->
  m_hide v = false ->
  body (tree n) = Leaf DocHorRuler ->
  exists out,
    m_t (visit_DocHorRuler tree v n) = m_t v ++ out
    /\ m_hide (visit_DocHorRuler tree v n) = false
    /\ markersClose (paraOpen tree p pre (n :: post)) (paraMarkers out)
       = Some (paraOpen tree p (pre ++ [n]) post).
Proof.
  intros Hcs Hhide Hb.
  assert (Hin : List.In n (children (tree p)))
    by (rewrite Hcs; apply in_or_app; right; now left).
  destruct (Hkids n Hin) as [Hp Hcls].
  destruct (isInlineOrRule_cases n Hcls) as [_ [(_ & Ho & Hw) | [Hno _]]];
    [|contradiction].
  assert (Hnot : ~ List.In n pre).
  { pose proof Hnodup as Hd. rewrite Hcs in Hd.
    apply NoDup_remove_2 in Hd. intros Hbad. apply Hd.
    apply in_or_app. now left. }
  unfold visit_DocHorRuler. rewrite Hhide.
  rewrite (forceStartParagraph_spec tree _ p n pre post Hp Hpara Hcs Hnot).
  rewrite (insideStyleChange_OutsidePara_no_style tree p _ children_no_style).
  rewrite (forceEndParagraph_spec tree v p n pre post Hp Hpara Hcs Hnot
                                  children_no_style).
  unfold paraOpen. rewrite lastVisible_snoc, firstVisible_cons, Hw, Ho.
  fold (firstAndLast tree p).
  unfold nextIsInline at 1. unfold isOutside at 2. rewrite Ho.
  cbn [negb]. unfold nextIsInline, isOutside. rewrite ?Ho.
  destruct (lastVisible tree pre) as [m|] eqn:Hlast.
  - assert (Hpre : pre <> []) by (intros ->; discriminate Hlast).
    destruct pre as [|x pre']; [contradiction|].
    destruct (firstAndLast tree p), (firstVisible tree post) as [m'|];
      repeat match goal with
             | |- context [mustBeOutsideParagraph (tree ?y)] =>
                 destruct (mustBeOutsideParagraph (tree y))
             end;
      eexists;
      (split; [simpl; rewrite <- ?app_assoc; simpl; reflexivity|]);
      (split; [exact Hhide|]); reflexivity.
  - rewrite (rule_after_whiteSpace_is_first pre post n Hcs Ho Hlast).
    destruct (firstAndLast tree p), (firstVisible tree post) as [m'|];
      repeat match goal with
             | |- context [mustBeOutsideParagraph (tree ?y)] =>
                 destruct (mustBeOutsideParagraph (tree y))
             end;
      eexists;
      (split; [simpl; rewrite <- ?app_assoc; simpl; reflexivity|]);
      (split; [exact Hhide|]); reflexivity.
Qed.

(** One child: what it writes moves the paragraph from the state in
    front of it to the state behind it. *)
Lemma render_child (v : HtmlDocVisitor) (pre post : list NodeId) (n : NodeId) :
  children (tree p) = pre ++ n :: post ->
  m_hide v = false ->
  exists v' out,
    html_visit tree false n (Some v) = Some v'
    /\ m_t v' = m_t v ++ out
    /\ m_hide v' = false
    /\ markersClose (paraOpen tree p pre (n :: post)) (paraMarkers out)
       = Some (paraOpen tree p (pre ++ [n]) post).
Proof.
  intros Hcs Hhide.
  assert (Hin : List.In n (children (tree p)))
    by (rewrite Hcs; apply in_or_app; right; now left).
  destruct (Hkids n Hin) as [Hp Hcls].
  destruct (isInlineOrRule_cases n Hcls) as [_ Hcases].
  destruct (body (tree n)) as [c| | | |] eqn:Hb;
    try (unfold isInlineOrRule in Hcls; rewrite Hb in Hcls; discriminate).
  destruct c as [w|w| | | | | | | |ws| | | | | | ];
    try (unfold isInlineOrRule in Hcls; rewrite Hb in Hcls; discriminate).
  - (* DocWord *)
    destruct Hcases as [(Hbad & _) | [_ Ho]]; [discriminate|].
    assert (Hw : isWhiteSpace tree n = false)
      by (unfold isWhiteSpace, kindOf, kind; now rewrite Hb).
    exists (visit_DocWord tree v n), (filterChunks (word (tree n))).
    unfold html_visit. rewrite Hb. unfold visit_DocWord. rewrite Hhide.
    destruct (filter_out v (word (tree n))) as [Ht Hh].
    repeat split; try assumption; [congruence|].
    rewrite paraMarkers_filterChunks. simpl. f_equal.
    now apply paraOpen_inline.
  - (* DocLinkedWord *)
    destruct Hcases as [(Hbad & _) | [_ Ho]]; [discriminate|].
    assert (Hw : isWhiteSpace tree n = false)
      by (unfold isWhiteSpace, kindOf, kind; now rewrite Hb).
    exists (visit_DocLinkedWord tree v n),
           (StartLink n :: filterChunks (word (tree n)) ++ [Str "</a>"]).
    unfold html_visit. rewrite Hb. unfold visit_DocLinkedWord. rewrite Hhide.
    destruct (filter_out (put v (StartLink n)) (word (tree n))) as [Ht Hh].
    repeat split.
    + simpl. rewrite Ht. simpl. now rewrite <- !app_assoc.
    + simpl. now rewrite Hh.
    + cbn [paraMarkers paraMarker]. rewrite paraMarkers_app.
      rewrite paraMarkers_filterChunks. simpl. f_equal.
      now apply paraOpen_inline.
  - (* DocLineBreak *)
    destruct Hcases as [(Hbad & _) | [_ Ho]]; [discriminate|].
    assert (Hw : isWhiteSpace tree n = false)
      by (unfold isWhiteSpace, kindOf, kind; now rewrite Hb).
    exists (visit_DocLineBreak v), [Str ("<br />" ++ nl)%string].
    unfold html_visit. rewrite Hb. unfold visit_DocLineBreak. rewrite Hhide.
    repeat split; try assumption.
    simpl. f_equal. now apply paraOpen_inline.
  - (* DocHorRuler *)
    destruct (render_rule v pre post n Hcs Hhide Hb) as (out & Ht & Hh & Hm).
    exists (visit_DocHorRuler tree v n), out.
    unfold html_visit. rewrite Hb. repeat split; assumption.
  - (* DocWhiteSpace *)
    assert (Hw : isWhiteSpace tree n = true)
      by (unfold isWhiteSpace, kindOf, kind; now rewrite Hb).
    exists (visit_DocWhiteSpace tree false v n), [Str " "].
    unfold html_visit. rewrite Hb. unfold visit_DocWhiteSpace. rewrite Hhide.
    repeat split; try assumption.
    simpl. f_equal. now apply paraOpen_whiteSpace.
Qed.

(** All children, one after the other. *)
Lemma render_children (post : list NodeId) :
  forall (pre : list NodeId) (v : HtmlDocVisitor),
    children (tree p) = pre ++ post ->
    m_hide v = false ->
    exists v' out,
      fold_left (fun s c => html_visit tree false c s) post (Some v) = Some v'
      /\ m_t v' = m_t v ++ out
      /\ m_hide v' = false
      /\ markersClose (paraOpen tree p pre post) (paraMarkers out)
         = Some (paraOpen tree p (children (tree p)) []).
Proof.
  induction post as [|n post IH]; intros pre v Hcs Hhide.
  - exists v, []. rewrite app_nil_r in Hcs. rewrite Hcs.
    repeat split; [now rewrite app_nil_r | assumption].
  - destruct (render_child v pre post n Hcs Hhide)
      as (v1 & out1 & Hv1 & Ht1 & Hh1 & Hm1).
    assert (Hcs' : children (tree p) = (pre ++ [n]) ++ post)
      by (rewrite <- app_assoc; exact Hcs).
    destruct (IH (pre ++ [n]) v1 Hcs' Hh1)
      as (v2 & out2 & Hv2 & Ht2 & Hh2 & Hm2).
    exists v2, (out1 ++ out2). cbn [fold_left]. rewrite Hv1.
    repeat split; try assumption.
    + rewrite Ht2, Ht1. now rewrite <- app_assoc.
    + rewrite paraMarkers_app, markersClose_app, Hm1. exact Hm2.
Qed.

Lemma para_body :
  body (tree p) = CompAccept DocPara (children (tree p)).
Proof.
  unfold kindOf, kind, children in *.
  destruct (body (tree p)) as [c|c cs| | |]; try discriminate Hpara;
    destruct c; try discriminate Hpara; reflexivity.
Qed.

Lemma acceptEach_leaves (cs : list NodeId) :
  (forall c, List.In c cs -> isInlineOrRule (tree c) = true) ->
  forall s,
    acceptEach (accept tree (htmlDocVisitor tree false) 1) cs s
    = Some (fold_left (fun s c => html_visit tree false c s) cs s).
Proof.
  induction cs as [|c cs IH]; intros Hcs s; [reflexivity|].
  cbn [acceptEach fold_left].
  assert (Hc : isInlineOrRule (tree c) = true) by (apply Hcs; now left).
  assert (Hacc : accept tree (htmlDocVisitor tree false) 1 c s
                 = Some (html_visit tree false c s)).
  { cbn [accept]. unfold isInlineOrRule in Hc.
    destruct (body (tree c)); try discriminate Hc. reflexivity. }
  rewrite Hacc. apply IH. intros c' Hc'. apply Hcs. now right.
Qed.

Lemma render_para (v : HtmlDocVisitor) :
  needsTag_of_parent tree p = true ->
  m_hide v = false ->
  exists v' out,
    accept tree (htmlDocVisitor tree false) 2 p (Some v) = Some (Some v')
    /\ m_t v' = m_t v ++ out
    /\ m_hide v' = false
    /\ markersClose false (paraMarkers out) = Some false.
Proof.
  intros Htag Hhide.
  pose proof para_body as Hb.
  assert (Hleaves : forall c, List.In c (children (tree p)) ->
                              isInlineOrRule (tree c) = true)
    by (intros c Hc; apply (Hkids c Hc)).
  (* the open marker *)
  pose proof (visitPre_DocPara_spec tree v p) as Hpre.
  rewrite Hhide, Htag in Hpre. cbn [negb orb] in Hpre.
  set (v0 := visitPre_DocPara tree v p) in *.
  assert (Hstart : exists out0,
             m_t v0 = m_t v ++ out0 /\ m_hide v0 = false
             /\ markersClose false (paraMarkers out0)
                = Some (paraOpen tree p [] (children (tree p)))).
  { unfold paraOpen. cbn [lastVisible rev firstVisible find].
    fold (firstVisible tree (children (tree p))).
    destruct (isOutside tree (firstVisible tree (children (tree p))));
      cbn [orb] in Hpre.
    - exists []. rewrite Hpre, app_nil_r, andb_false_r.
      repeat split; assumption.
    - destruct (firstAndLast tree p).
      + exists []. rewrite Hpre, app_nil_r. repeat split; assumption.
      + exists [Str "<p";
                Str (nth (Z.to_nat (fst (fst (getParagraphContext tree p))))
                         contexts EmptyString);
                Str ">"].
        rewrite Hpre. split; [|split; [exact Hhide|]].
        * simpl. rewrite <- !app_assoc. reflexivity.
        * cbn [paraMarkers]. rewrite contexts_no_marker. reflexivity. }
  destruct Hstart as (out0 & Ht0 & Hh0 & Hm0).
  (* the children *)
  destruct (render_children (children (tree p)) [] v0 eq_refl Hh0)
    as (v1 & out1 & Hv1 & Ht1 & Hh1 & Hm1).
  (* the close marker *)
  pose proof (visitPost_DocPara_spec tree v1 p) as Hpost.
  rewrite Htag in Hpost. cbn [negb orb] in Hpost.
  set (v2 := visitPost_DocPara tree v1 p) in *.
  assert (Hend : exists out2,
             m_t v2 = m_t v1 ++ out2 /\ m_hide v2 = false
             /\ markersClose (paraOpen tree p (children (tree p)) [])
                             (paraMarkers out2) = Some false).
  { unfold paraOpen. cbn [firstVisible find nextIsInline isOutside].
    unfold isOutside in Hpost.
    destruct (firstAndLast tree p).
    - exists []. rewrite orb_true_r in Hpost.
      rewrite Hpost, app_nil_r. repeat split; assumption.
    - rewrite orb_false_r in Hpost. cbn [negb andb].
      destruct (lastVisible tree (children (tree p))) as [m|].
      + destruct (mustBeOutsideParagraph (tree m)).
        * exists []. rewrite Hpost, app_nil_r. repeat split; assumption.
        * exists [Str ("</p>" ++ nl)%string]. rewrite Hpost.
          repeat split; assumption.
      + exists [Str ("</p>" ++ nl)%string]. rewrite Hpost.
        repeat split; assumption. }
  destruct Hend as (out2 & Ht2 & Hh2 & Hm2).
  exists v2, (out0 ++ out1 ++ out2). split; [|split; [|split]].
  - cbn [accept]. rewrite Hb. unfold CompAccept_accept.
    rewrite (acceptEach_leaves _ Hleaves).
    cbn [visitPre visitPost htmlDocVisitor].
    unfold html_visitPre. rewrite Hb. fold v0. rewrite Hv1.
    unfold html_visitPost. rewrite Hb. reflexivity.
  - rewrite Ht2, Ht1, Ht0. now rewrite <- !app_assoc.
  - exact Hh2.
  - rewrite !paraMarkers_app, markersClose_app, Hm0, markersClose_app, Hm1.
    exact Hm2.
Qed.

End RenderChildren.

(** X7: rendering a paragraph whose children are words, linked words,
    whitespace, line breaks and horizontal rules writes paragraph markers
    that alternate, starting with an open marker and ending with a close
    marker: every [<p] or [<p>] is closed by a [</p>] before the next
    one opens, and no [</p>] comes without an open paragraph.  This
    needs a visible visitor, a parent whose kind asks for markers, and
    no whitespace in front of a rule that leads the paragraph. *)
Theorem paragraph_markers_balanced :
  forall (tree : Store) (p : NodeId) (v : HtmlDocVisitor),
    kindOf tree p = Kind_Para ->
    NoDup (children (tree p)) ->
    (forall c, List.In c (children (tree p)) ->
               m_parent (tree c) = Some p
               /\ isInlineOrRule (tree c) = true) ->
    (forall m, firstVisible tree (children (tree p)) = Some m ->
               mustBeOutsideParagraph (tree m) = true ->
               hd_error (children (tree p)) = Some m) ->
    needsTag_of_parent tree p = true ->
    m_hide v = false ->
    exists v' out,
      accept tree (htmlDocVisitor tree false) 2 p (Some v) = Some (Some v')
      /\ m_t v' = m_t v ++ out
      /\ m_hide v' = false
      /\ markersClose false (paraMarkers out) = Some false.
Proof.
  intros tree p v Hpara Hnodup Hkids Hlead Htag Hhide.
  exact (render_para tree p Hpara Hnodup Hkids Hlead v Htag Hhide).
Qed.

Lemma paragraph_markers_balanced_witness :
  exists v' out,
    accept tree_rules_and_words (htmlDocVisitor tree_rules_and_words false)
           2 1%nat (Some visitor0) = Some (Some v')
    /\ m_t v' = m_t visitor0 ++ out
    /\ m_hide v' = false
    /\ markersClose false (paraMarkers out) = Some false.
Proof.
  apply (paragraph_markers_balanced tree_rules_and_words 1%nat visitor0).
  - reflexivity.
  - simpl. repeat constructor; simpl; intuition discriminate.
  - intros c Hc. simpl in Hc.
    repeat (destruct Hc as [<- | Hc]; [split; reflexivity|]).
    destruct Hc.
  - intros m Hm _. vm_compute in Hm. vm_compute. exact Hm.
  - reflexivity.
  - reflexivity.
Defined.

(** ** The traversal, for every visitor *)

Section AcceptAny.

Variable tree : Store.
Context {S : Type} (v : DocVisitor S).

Lemma accept_composite_any (fuel : nat) (n : NodeId) (s : S) :
  isComposite (tree n) = true ->
  accept tree v (Datatypes.S fuel) n s
  = match acceptEach (accept tree v fuel) (childList (tree n))
                     (visitPre v n s) with
    | Some s' => Some (visitPost v n s')
    | None => None
    end.
Proof.
  unfold isComposite, childList. cbn [accept].
  destruct (body (tree n)) as [c | c cs | | ty dir ps pa pt | para];
    try discriminate; intros _.
  - destruct c; reflexivity.
  - reflexivity.
  - cbn [acceptEach].
    destruct (accept tree v fuel para (visitPre v n s)); reflexivity.
Qed.

Lemma replay_app (a b : list Call) (s : S) :
  replay v (a ++ b) s = replay v b (replay v a s).
Proof. unfold replay. apply fold_left_app. Qed.

Lemma acceptEach_replay (rec : NodeId -> S -> option S)
      (ns : list NodeId) (traces : list (list Call)) :
  Forall2 (fun c tr => forall s, rec c s = Some (replay v tr s)) ns traces ->
  forall s, acceptEach rec ns s = Some (replay v (List.concat traces) s).
Proof.
  induction 1 as [|c tr ns traces Hc _ IH]; intros s; simpl.
  - reflexivity.
  - rewrite Hc, IH. now rewrite replay_app.
Qed.

End AcceptAny.

Lemma nested_app (a b : list Call) (open : list NodeId) :
  nested open (a ++ b)
  = match nested open a with
    | Some open' => nested open' b
    | None => None
    end.
Proof.
  revert open. induction a as [|c a IH]; intros open; [reflexivity|].
  destruct c as [n|n|n]; cbn [app nested]; try apply IH.
  destruct open as [|m open]; [reflexivity|].
  destruct (Nat.eqb n m); [apply IH | reflexivity].
Qed.

Lemma nested_concat (traces : list (list Call)) :
  Forall (fun tr => forall open, nested open tr = Some open) traces ->
  forall open, nested open (List.concat traces) = Some open.
Proof.
  induction 1 as [|tr traces Htr _ IH]; intros open; [reflexivity|].
  cbn [List.concat]. rewrite nested_app, Htr. apply IH.
Qed.

(** The trace of a finite tree, with everything known about it. *)
Lemma accept_trace (tree : Store) (k : nat) :
  forall n, depth_le tree n k ->
    exists trace,
      (forall fuel log, (k <= fuel)%nat ->
          accept tree recorder fuel n log = Some (log ++ trace))
      /\ (forall (S : Type) (v : DocVisitor S) fuel s, (k <= fuel)%nat ->
             accept tree v fuel n s = Some (replay v trace s))
      /\ (forall open, nested open trace = Some open).
Proof.
  induction k as [|k IH]; intros n Hd; inversion Hd as [n' k' Hsub]; subst.
  assert (Hall : exists traces,
             Forall2 (fun c tr =>
                        (forall fuel log, (k <= fuel)%nat ->
                            accept tree recorder fuel c log
                            = Some (log ++ tr))
                        /\ (forall (S : Type) (v : DocVisitor S) fuel s,
                               (k <= fuel)%nat ->
                               accept tree v fuel c s
                               = Some (replay v tr s))
                        /\ (forall open, nested open tr = Some open))
                     (childList (tree n)) traces).
  { apply traces_exist. intros c Hc. apply IH. now apply Hsub. }
  destruct Hall as [traces Htraces].
  destruct (isComposite (tree n)) eqn:Hcomp.
  - exists (CallVisitPre n :: List.concat traces ++ [CallVisitPost n]).
    split; [|split].
    + intros [|fuel] log Hfuel; [lia|].
      rewrite accept_composite by assumption.
      rewrite (acceptEach_traces _ _ traces).
      * f_equal. rewrite <- !app_assoc. reflexivity.
      * eapply Forall2_impl; [|exact Htraces].
        intros c tr (Hc & _) log'. apply Hc. lia.
    + intros S v [|fuel] s Hfuel; [lia|].
      rewrite accept_composite_any by assumption.
      rewrite (acceptEach_replay v _ _ traces).
      * f_equal. cbn [replay fold_left replayCall].
        fold (replay v (List.concat traces ++ [CallVisitPost n])
                     (visitPre v n s)).
        rewrite replay_app. reflexivity.
      * eapply Forall2_impl; [|exact Htraces].
        intros c tr (_ & Hc & _) s'. apply Hc. lia.
    + intros open. cbn [nested]. rewrite nested_app.
      rewrite nested_concat.
      * cbn [nested]. now rewrite Nat.eqb_refl.
      * clear -Htraces. induction Htraces as [|c tr cs trs Hc _ IHt];
          constructor; [apply Hc | exact IHt].
  - destruct (body (tree n)) as [c|c cs| | |] eqn:Hb;
      try (unfold isComposite in Hcomp; rewrite Hb in Hcomp; discriminate).
    + exists [CallVisit n]. split; [|split].
      * intros [|fuel] log Hfuel; [lia|]. cbn [accept]. now rewrite Hb.
      * intros S v [|fuel] s Hfuel; [lia|]. cbn [accept]. now rewrite Hb.
      * reflexivity.
    + exists []. split; [|split].
      * intros [|fuel] log Hfuel; [lia|]. cbn [accept]. rewrite Hb.
        now rewrite app_nil_r.
      * intros S v [|fuel] s Hfuel; [lia|]. cbn [accept]. now rewrite Hb.
      * reflexivity.
Qed.

(** Finiteness of a tree given as a table. *)
Ltac finite_tree :=
  constructor;
  let c := fresh "c" in
  let Hc := fresh "Hc" in
  intros c Hc; cbn in Hc;
  repeat (destruct Hc as [<- | Hc]; [finite_tree|]);
  try destruct Hc.

(** X8: on a finite tree, [accept] makes on every visitor the calls it
    makes on the recording visitor, in the same order: the state any
    visitor ends in is the recorded trace replayed on it. *)
Theorem accept_replays_recorded_trace :
  forall (tree : Store) (n : NodeId) (k : nat),
    depth_le tree n k ->
    exists trace,
      (forall fuel log, (k <= fuel)%nat ->
          accept tree recorder fuel n log = Some (log ++ trace))
      /\ (forall (S : Type) (v : DocVisitor S) fuel s, (k <= fuel)%nat ->
             accept tree v fuel n s = Some (replay v trace s)).
Proof.
  intros tree n k Hd.
  destruct (accept_trace tree k n Hd) as (trace & Hrec & Hany & _).
  exists trace. split; assumption.
Qed.

Lemma accept_replays_recorded_trace_witness :
  exists trace,
    (forall fuel log, (3 <= fuel)%nat ->
        accept tree_rules_and_words recorder fuel 0%nat log
        = Some (log ++ trace))
    /\ (forall (S : Type) (v : DocVisitor S) fuel s, (3 <= fuel)%nat ->
           accept tree_rules_and_words v fuel 0%nat s
           = Some (replay v trace s)).
Proof.
  apply (accept_replays_recorded_trace tree_rules_and_words 0%nat 3%nat).
  finite_tree.
Defined.

(** X9: on a finite tree, the calls [accept] makes are properly nested:
    every [visitPost] is on the node of the innermost [visitPre] still
    open, and when [accept] returns every node entered has been left. *)
Theorem accept_trace_nested :
  forall (tree : Store) (n : NodeId) (k : nat),
    depth_le tree n k ->
    exists trace,
      (forall fuel log, (k <= fuel)%nat ->
          accept tree recorder fuel n log = Some (log ++ trace))
      /\ (forall open, nested open trace = Some open).
Proof.
  intros tree n k Hd.
  destruct (accept_trace tree k n Hd) as (trace & Hrec & _ & Hnest).
  exists trace. split; assumption.
Qed.

Lemma accept_trace_nested_witness :
  exists trace,
    (forall fuel log, (4 <= fuel)%nat ->
        accept tree_params recorder fuel 0%nat log = Some (log ++ trace))
    /\ (forall open, nested open trace = Some open).
Proof.
  apply (accept_trace_nested tree_params 0%nat 4%nat).
  finite_tree.
Defined.

(** ** Escaping *)

Lemma prefix_amp_other (c : ascii) (e rest : string) :
  c <> "&"%char -> prefix (String "&" e) (String c rest) = false.
Proof.
  intros Hc. cbn [prefix].
  destruct (ascii_dec "&" c) as [Heq|_]; [congruence | reflexivity].
Qed.

Lemma decodeEntities_filterQuotedCdataAttr_char (c : ascii) (rest : string) :
  decodeEntities 0 (filterQuotedCdataAttr_char c ++ rest)
  = String c (decodeEntities 0 rest).
Proof.
  unfold filterQuotedCdataAttr_char.
  destruct (Ascii.eqb_spec c "&") as [->|Hamp]; [destruct rest; reflexivity|].
  destruct (Ascii.eqb_spec c quoteChar) as [->|Hq]; [destruct rest; reflexivity|].
  destruct (Ascii.eqb_spec c "<") as [->|Hlt]; [destruct rest; reflexivity|].
  destruct (Ascii.eqb_spec c ">") as [->|Hgt]; [destruct rest; reflexivity|].
  cbn [append decodeEntities].
  now rewrite !prefix_amp_other by assumption.
Qed.

Lemma decodeEntities_filter_char (c : ascii) (rest : string) :
  decodeEntities 0 (filter_char c ++ rest)
  = String c (decodeEntities 0 rest).
Proof.
  unfold filter_char.
  destruct (Ascii.eqb_spec c "<") as [->|Hlt]; [destruct rest; reflexivity|].
  destruct (Ascii.eqb_spec c ">") as [->|Hgt]; [destruct rest; reflexivity|].
  destruct (Ascii.eqb_spec c "&") as [->|Hamp]; [destruct rest; reflexivity|].
  cbn [append decodeEntities].
  now rewrite !prefix_amp_other by assumption.
Qed.

Lemma decodeEntities_filter_loop (str : string) :
  decodeEntities 0 (filter_loop str) = str.
Proof.
  induction str as [|c str IH]; [reflexivity|].
  cbn [filter_loop]. rewrite decodeEntities_filter_char. now rewrite IH.
Qed.

Lemma in_string_app (c : ascii) (a b : string) :
  List.In c (list_ascii_of_string (a ++ b))
  -> List.In c (list_ascii_of_string a)
     \/ List.In c (list_ascii_of_string b).
Proof.
  induction a as [|x a IH]; cbn [append list_ascii_of_string].
  - now right.
  - intros [Hc|Hc]; [left; now left|].
    destruct (IH Hc) as [H|H]; [left; now right | now right].
Qed.

Lemma filter_loop_chars (str : string) (c : ascii) :
  List.In c (list_ascii_of_string (filter_loop str)) ->
  c <> "<"%char /\ c <> ">"%char.
Proof.
  induction str as [|x str IH]; cbn [filter_loop]; [intros []|].
  intros Hc. apply in_string_app in Hc. destruct Hc as [Hc|Hc]; [|now apply IH].
  revert Hc. unfold filter_char.
  destruct (Ascii.eqb_spec x "<") as [->|Hlt];
    [cbn; intuition (subst; discriminate)|].
  destruct (Ascii.eqb_spec x ">") as [->|Hgt];
    [cbn; intuition (subst; discriminate)|].
  destruct (Ascii.eqb_spec x "&") as [->|Hamp];
    [cbn; intuition (subst; discriminate)|].
  cbn. intros [<-|[]]. split; assumption.
Qed.

(** X10: whatever text [filter] is given and whatever the translator
    returns for the sample keys, no [<] and no [>] is written: the text
    cannot open or close a tag. *)
Theorem filter_text_no_markup :
  forall (theTranslator : Translator) (str : string),
    Forall (fun c => c <> "<"%char /\ c <> ">"%char)
           (list_ascii_of_string (filter_text theTranslator str)).
Proof.
  intros tr str. apply Forall_forall. intros c. unfold filter_text.
  destruct str as [|x str]; [intros []|]. apply filter_loop_chars.
Qed.

(** X11: a text without the marker [$tr] of the sample translations
    comes back unchanged when the entities [filter] wrote are decoded:
    escaping loses nothing, and two different texts are never written
    alike. *)
Theorem filter_text_round_trip :
  forall (theTranslator : Translator) (str : string),
    contains "$tr" str = false ->
    decodeEntities 0 (filter_text theTranslator str) = str.
Proof.
  intros tr str Hno. unfold filter_text, filter_result.
  destruct str as [|x str]; [reflexivity|].
  cbv zeta. rewrite Hno. apply decodeEntities_filter_loop.
Qed.

Lemma filter_text_round_trip_witness :
  decodeEntities 0 (filter_text translator_en "a<b && c>d &lt;")
  = "a<b && c>d &lt;".
Proof.
  apply (filter_text_round_trip translator_en "a<b && c>d &lt;").
  reflexivity.
Defined.

(** X12: [filterQuotedCdataAttr] writes none of the characters [<], [>]
    and the double quote, so the text cannot end the quoted attribute
    value it is put in, and decoding the entities gives the text back. *)
Theorem filterQuotedCdataAttr_safe_and_reversible :
  forall (str : string),
    Forall (fun c => c <> "<"%char /\ c <> ">"%char /\ c <> quoteChar)
           (list_ascii_of_string (filterQuotedCdataAttr str))
    /\ decodeEntities 0 (filterQuotedCdataAttr str) = str.
Proof.
  intros str. split.
  - apply Forall_forall.
    induction str as [|x str IH]; cbn [filterQuotedCdataAttr]; [intros c []|].
    intros c Hc. apply in_string_app in Hc.
    destruct Hc as [Hc|Hc]; [|now apply IH].
    revert Hc. unfold filterQuotedCdataAttr_char.
    destruct (Ascii.eqb_spec x "&") as [->|Hamp];
      [cbn; intuition (subst; discriminate)|].
    destruct (Ascii.eqb_spec x quoteChar) as [->|Hq];
      [cbn; intuition (subst; discriminate)|].
    destruct (Ascii.eqb_spec x "<") as [->|Hlt];
      [cbn; intuition (subst; discriminate)|].
    destruct (Ascii.eqb_spec x ">") as [->|Hgt];
      [cbn; intuition (subst; discriminate)|].
    cbn. intros [<-|[]]. repeat split; assumption.
  - induction str as [|x str IH]; [reflexivity|].
    cbn [filterQuotedCdataAttr].
    rewrite decodeEntities_filterQuotedCdataAttr_char. now rewrite IH.
Qed.

(** ** Anchors of index entries *)

Lemma codesBelow_In (k : nat) (c : N) :
  (c < N.of_nat k)%N -> List.In c (codesBelow k).
Proof.
  intros Hc. unfold codesBelow. rewrite <- (N2Nat.id c).
  apply in_map. apply in_seq. lia.
Qed.

Lemma codesBelow_forallb (k : nat) (P : N -> bool) (c : N) :
  forallb P (codesBelow k) = true -> (c < N.of_nat k)%N -> P c = true.
Proof.
  intros Hall Hc. rewrite forallb_forall in Hall.
  apply Hall. now apply codesBelow_In.
Qed.

Lemma convertIndexWordToAnchor_loop_cons (c : N) (rest : list N) :
  convertIndexWordToAnchor_loop (c :: rest)
  = (anchorChar c ++ convertIndexWordToAnchor_loop rest)%string.
Proof. reflexivity. Qed.

Lemma string_app_assoc (a b c : string) :
  ((a ++ b) ++ c = a ++ (b ++ c))%string.
Proof. induction a as [|x a IH]; simpl; [reflexivity | now rewrite IH]. Qed.

Lemma convertIndexWordToAnchor_loop_app (a b : list N) :
  convertIndexWordToAnchor_loop (a ++ b)
  = (convertIndexWordToAnchor_loop a
     ++ convertIndexWordToAnchor_loop b)%string.
Proof.
  induction a as [|c a IH]; [reflexivity|].
  cbn [app]. rewrite !convertIndexWordToAnchor_loop_cons, IH.
  now rewrite string_app_assoc.
Qed.

Lemma isAnchorChar_below (c : N) :
  isAnchorChar c = true -> (c < 256)%N.
Proof.
  unfold isAnchorChar. intros H.
  repeat match type of H with
         | (_ || _)%bool = true => apply orb_true_iff in H; destruct H as [H|H]
         end;
    try (apply andb_true_iff in H; destruct H as [_ H];
         apply N.leb_le in H; lia);
    apply N.eqb_eq in H; lia.
Qed.

Lemma hexDigit_alphabet (d : N) :
  (d < 16)%N -> anchorAlphabet (hexDigit d) = true.
Proof.
  apply (codesBelow_forallb 16 (fun d => anchorAlphabet (hexDigit d))).
  vm_compute. reflexivity.
Qed.

Lemma forall_string_app (P : ascii -> Prop) (a b : string) :
  Forall P (list_ascii_of_string a) ->
  Forall P (list_ascii_of_string b) ->
  Forall P (list_ascii_of_string (a ++ b)).
Proof.
  intros Ha Hb. induction a as [|x a IH]; [exact Hb|].
  cbn [append list_ascii_of_string] in *.
  inversion Ha; subst. constructor; [assumption | now apply IH].
Qed.

Lemma toBase16_alphabet (fuel : nat) :
  forall n, Forall (fun c => anchorAlphabet c = true)
                   (list_ascii_of_string (toBase16 fuel n)).
Proof.
  induction fuel as [|fuel IH]; intros n; cbn [toBase16]; [constructor|].
  apply forall_string_app.
  - destruct (n <? 16)%N; [constructor | apply IH].
  - constructor; [|constructor].
    apply hexDigit_alphabet. apply N.mod_lt. discriminate.
Qed.

Lemma fill_alphabet (k : nat) :
  Forall (fun c => anchorAlphabet c = true)
         (list_ascii_of_string (fill k "0")).
Proof.
  induction k as [|k IH]; cbn [fill list_ascii_of_string]; constructor;
    [reflexivity | exact IH].
Qed.

Lemma anchorChar_alphabet (c : N) :
  Forall (fun x => anchorAlphabet x = true)
         (list_ascii_of_string (anchorChar c)).
Proof.
  unfold anchorChar. destruct (isAnchorChar c) eqn:Hsafe.
  - constructor; [|constructor]. unfold anchorAlphabet.
    rewrite N_ascii_embedding by now apply isAnchorChar_below.
    now rewrite Hsafe.
  - unfold arg_2_16. cbv zeta.
    apply (forall_string_app _ ":"); [constructor; [reflexivity|constructor]|].
    apply forall_string_app; [apply fill_alphabet | apply toBase16_alphabet].
Qed.

(** X13: an anchor made by [convertIndexWordToAnchor] starts with the
    letter [a] and holds only letters, digits, [-], [.], [_] and the
    colon, whatever the characters of the index word: no space, quote
    or angle bracket gets into the [name] attribute. *)
Theorem convertIndexWordToAnchor_alphabet :
  forall (word : list N),
    (exists rest, convertIndexWordToAnchor word = String "a" rest)
    /\ Forall (fun c => anchorAlphabet c = true)
              (list_ascii_of_string (convertIndexWordToAnchor word)).
Proof.
  intros word. split; [eexists; reflexivity|].
  unfold convertIndexWordToAnchor.
  apply (forall_string_app _ "a"); [constructor; [reflexivity|constructor]|].
  induction word as [|c word IH]; [constructor|].
  rewrite convertIndexWordToAnchor_loop_cons.
  apply forall_string_app; [apply anchorChar_alphabet | exact IH].
Qed.

Lemma readAnchorChar_app (a r rest : string) (c : N) :
  readAnchorChar a = Some (c, r) ->
  readAnchorChar (a ++ rest) = Some (c, (r ++ rest)%string).
Proof.
  unfold readAnchorChar.
  destruct a as [|x a]; [discriminate|]. cbn [append].
  destruct (Ascii.eqb x ":").
  - destruct a as [|h [|l a]]; try discriminate. cbn [append].
    destruct (hexValue h), (hexValue l); try discriminate.
    intros [= <- <-]. reflexivity.
  - intros [= <- <-]. reflexivity.
Qed.

Lemma readAnchorChar_anchorChar (c : N) (rest : string) :
  (c < 256)%N ->
  readAnchorChar (anchorChar c ++ rest) = Some (c, rest).
Proof.
  intros Hc.
  assert (H : match readAnchorChar (anchorChar c) with
              | Some (c', EmptyString) => (c' =? c)%N
              | _ => false
              end = true).
  { revert Hc.
    apply (codesBelow_forallb 256
             (fun c => match readAnchorChar (anchorChar c) with
                       | Some (c', EmptyString) => (c' =? c)%N
                       | _ => false
                       end)).
    vm_compute. reflexivity. }
  destruct (readAnchorChar (anchorChar c)) as [[c' [|x r]]|] eqn:Hread;
    try discriminate.
  apply N.eqb_eq in H. subst c'.
  now rewrite (readAnchorChar_app _ _ rest _ Hread).
Qed.

Lemma convertIndexWordToAnchor_loop_inj (w1 : list N) :
  forall w2,
    Forall (fun c => (c < 256)%N) w1 ->
    Forall (fun c => (c < 256)%N) w2 ->
    convertIndexWordToAnchor_loop w1 = convertIndexWordToAnchor_loop w2 ->
    w1 = w2.
Proof.
  induction w1 as [|c1 w1 IH]; intros [|c2 w2] H1 H2 Heq.
  - reflexivity.
  - inversion H2; subst. apply (f_equal readAnchorChar) in Heq.
    rewrite convertIndexWordToAnchor_loop_cons in Heq.
    rewrite readAnchorChar_anchorChar in Heq by assumption. discriminate.
  - inversion H1; subst. apply (f_equal readAnchorChar) in Heq.
    rewrite convertIndexWordToAnchor_loop_cons in Heq.
    rewrite readAnchorChar_anchorChar in Heq by assumption. discriminate.
  - inversion H1; inversion H2; subst.
    apply (f_equal readAnchorChar) in Heq.
    rewrite !convertIndexWordToAnchor_loop_cons in Heq.
    rewrite !readAnchorChar_anchorChar in Heq by assumption.
    injection Heq as -> Hrest. f_equal. now apply IH.
Qed.

(** X14: two index words whose characters all have codes below 256 get
    the same anchor only when they are the same word. *)
Theorem convertIndexWordToAnchor_injective_below_256 :
  forall (w1 w2 : list N),
    Forall (fun c => (c < 256)%N) w1 ->
    Forall (fun c => (c < 256)%N) w2 ->
    convertIndexWordToAnchor w1 = convertIndexWordToAnchor w2 ->
    w1 = w2.
Proof.
  intros w1 w2 H1 H2 Heq. unfold convertIndexWordToAnchor in Heq.
  injection Heq as Heq. now apply convertIndexWordToAnchor_loop_inj.
Qed.

Lemma convertIndexWordToAnchor_injective_below_256_witness :
  [111; 112; 60; 60]%N = [111; 112; 60; 60]%N.
Proof.
  apply (convertIndexWordToAnchor_injective_below_256
           [111; 112; 60; 60]%N [111; 112; 60; 60]%N).
  - repeat constructor.
  - repeat constructor.
  - reflexivity.
Defined.

Lemma anchorChar_two_for_one (h d : N) :
  (16 <= h < 256)%N -> isAnchorChar h = false -> (d < 16)%N ->
  (anchorChar h ++ anchorChar (N_of_ascii (hexDigit d)))%string
  = anchorChar (16 * h + d).
Proof.
  intros [Hlo Hhi] Hsafe Hd.
  assert (H : implb ((16 <=? h)%N && negb (isAnchorChar h))
                    (forallb (fun d =>
                                String.eqb
                                  (anchorChar h
                                   ++ anchorChar (N_of_ascii (hexDigit d)))
                                  (anchorChar (16 * h + d)))
                             (codesBelow 16)) = true).
  { revert Hhi.
    apply (codesBelow_forallb 256
             (fun h => implb ((16 <=? h)%N && negb (isAnchorChar h))
                             (forallb (fun d =>
                                String.eqb
                                  (anchorChar h
                                   ++ anchorChar (N_of_ascii (hexDigit d)))
                                  (anchorChar (16 * h + d)))
                             (codesBelow 16)))).
    vm_compute. reflexivity. }
  apply N.leb_le in Hlo. rewrite Hlo, Hsafe in H. cbn [negb andb implb] in H.
  apply String.eqb_eq.
  exact (codesBelow_forallb 16
           (fun d => String.eqb
                       (anchorChar h ++ anchorChar (N_of_ascii (hexDigit d)))
                       (anchorChar (16 * h + d))) d H Hd).
Qed.

(** X15: above 255 the anchors are no longer told apart: a character
    with code [16 * h + d] is written like the character [h] (one that
    is written as a colon and two digits) followed by the digit [d] in
    base 16, so the two different words get the same anchor. *)
Theorem convertIndexWordToAnchor_two_for_one :
  forall (pre post : list N) (h d : N),
    (16 <= h < 256)%N ->
    isAnchorChar h = false ->
    (d < 16)%N ->
    convertIndexWordToAnchor (pre ++ [h; N_of_ascii (hexDigit d)] ++ post)
    = convertIndexWordToAnchor (pre ++ [(16 * h + d)%N] ++ post).
Proof.
  intros pre post h d Hh Hsafe Hd. unfold convertIndexWordToAnchor.
  f_equal. rewrite !convertIndexWordToAnchor_loop_app. f_equal. f_equal.
  rewrite !convertIndexWordToAnchor_loop_cons.
  rewrite <- string_app_assoc. f_equal.
  now apply anchorChar_two_for_one.
Qed.

Lemma convertIndexWordToAnchor_two_for_one_witness :
  convertIndexWordToAnchor ([120] ++ [59; 49] ++ [121])%N
  = convertIndexWordToAnchor ([120] ++ [945] ++ [121])%N.
Proof.
  apply (convertIndexWordToAnchor_two_for_one [120]%N [121]%N 59%N 1%N).
  - lia.
  - reflexivity.
  - lia.
Defined.

(** ** The hide stack and the include operators *)

Section IncludeOperators.

Import HideStack.

Ltac hide_stack :=
  cbv [HideStack.visit put putVisible setHide pushEnabled popEnabled
       HideStack.m_t HideStack.m_hide m_enabled negb].

(** After the first operator and until the last, the visitor is hidden
    and the flag it had before the block is on top of the stack. *)
Lemma visitAll_inside (rest : list DocIncOperator) :
  forall (op : DocIncOperator) (v : Visitor) (h : bool) (st : list bool),
    isFirst op = false ->
    isBlockFrom op rest = true ->
    HideStack.m_hide v = true ->
    m_enabled v = h :: st ->
    visitAll (op :: rest) v
    = Some (mkVisitor
              (HideStack.m_t v
               ++ if h then []
                  else code (op :: rest) ++ [PREFRAG_END])
              h st).
Proof.
  induction rest as [|op' rest IH]; intros op v h st Hfirst Hblock Hhide Hst.
  - cbn [isBlockFrom] in Hblock. cbn [visitAll code].
    destruct v as [t hide en]. cbn in Hhide, Hst. subst hide en.
    hide_stack. rewrite Hfirst, Hblock.
    destruct (isSkip (type op)), h; cbn;
      rewrite <- ?app_assoc, ?app_nil_r; reflexivity.
  - cbn [isBlockFrom] in Hblock.
    apply andb_true_iff in Hblock. destruct Hblock as [Hblock Hrest].
    apply andb_true_iff in Hblock. destruct Hblock as [Hlast Hfirst'].
    apply negb_true_iff in Hlast. apply negb_true_iff in Hfirst'.
    destruct v as [t hide en]. cbn in Hhide, Hst. subst hide en.
    change (visitAll (op :: op' :: rest) (mkVisitor t true (h :: st)))
      with (match HideStack.visit op (mkVisitor t true (h :: st)) with
            | Some v' => visitAll (op' :: rest) v'
            | None => None
            end).
    cbn [code]. hide_stack. rewrite Hfirst, Hlast.
    destruct (isSkip (type op)) eqn:Hskip; cbn [negb].
    + rewrite (IH op' _ h st) by (assumption || reflexivity).
      reflexivity.
    + destruct h.
      * rewrite (IH op' _ true st) by (assumption || reflexivity).
        reflexivity.
      * rewrite (IH op' _ false st) by (assumption || reflexivity).
        cbn [HideStack.m_t]. rewrite <- app_assoc. reflexivity.
Qed.

End IncludeOperators.

(** X16: visiting the include operators of one block, marked first and
    last as the parser marks them, leaves [m_hide] and the stack
    [m_enabled] as they were and never pops an empty stack.  A visitor
    that was hidden writes nothing; a visible one writes the start of
    the fragment, the code of the operators that are not [Skip], in
    order, and the end of the fragment, and never the line end of the
    last branch. *)
Theorem visit_DocIncOperator_block :
  forall (ops : list HideStack.DocIncOperator) (v : HideStack.Visitor),
    HideStack.isBlock ops = true ->
    HideStack.visitAll ops v
    = Some (HideStack.mkVisitor
              (HideStack.m_t v
               ++ if HideStack.m_hide v then []
                  else HideStack.PREFRAG_START
                       :: HideStack.code ops ++ [HideStack.PREFRAG_END])
              (HideStack.m_hide v)
              (HideStack.m_enabled v)).
Proof.
  intros [|op rest] v Hblock; [discriminate|].
  cbn [HideStack.isBlock] in Hblock.
  apply andb_true_iff in Hblock. destruct Hblock as [Hfirst Hblock].
  destruct v as [t hide en].
  pose (op0 := HideStack.mkDocIncOperator (HideStack.type op)
                 (HideStack.text op) false (HideStack.isLast op)).
  pose (v0 := HideStack.setHide
                (HideStack.pushEnabled
                   (HideStack.putVisible (HideStack.mkVisitor t hide en)
                                         HideStack.PREFRAG_START))
                true).
  assert (Hsame : HideStack.visitAll (op :: rest)
                                     (HideStack.mkVisitor t hide en)
                  = HideStack.visitAll (op0 :: rest) v0).
  { cbn [HideStack.visitAll]. unfold HideStack.visit.
    rewrite Hfirst. reflexivity. }
  rewrite Hsame.
  assert (Hblock0 : HideStack.isBlockFrom op0 rest = true).
  { clear -Hblock. destruct rest; exact Hblock. }
  rewrite (visitAll_inside rest op0 v0 hide en eq_refl Hblock0).
  - destruct hide; cbn; [reflexivity|].
    rewrite <- app_assoc. reflexivity.
  - reflexivity.
  - destruct hide; reflexivity.
Qed.

Lemma visit_DocIncOperator_block_witness :
  HideStack.visitAll
    [HideStack.mkDocIncOperator HideStack.Skip "main" true false;
     HideStack.mkDocIncOperator HideStack.Line "int main()" false false;
     HideStack.mkDocIncOperator HideStack.Until "}" false true]
    (HideStack.mkVisitor [] false [])
  = Some (HideStack.mkVisitor
            [HideStack.PREFRAG_START; HideStack.ParseCode "int main()";
             HideStack.ParseCode "}"; HideStack.PREFRAG_END]
            false []).
Proof.
  apply (visit_DocIncOperator_block
           [HideStack.mkDocIncOperator HideStack.Skip "main" true false;
            HideStack.mkDocIncOperator HideStack.Line "int main()" false false;
            HideStack.mkDocIncOperator HideStack.Until "}" false true]
           (HideStack.mkVisitor [] false [])).
  reflexivity.
Defined.
